(** * Hedge orchestration engine of the multi-wallet trader

    A shallow embedding of [src/multi_wallet_trader.py] (classes
    [WalletManager] and [MultiWalletTrader]) and the properties of its
    allocator, orchestrator and signed client.

    Modelling conventions.
    - Python [float] quantities are modelled by exact rationals ([Q]);
      [round(x, d)] is round-half-to-even on [d] decimals.  Where the
      rounding of a float operation decides how many allocations there
      are -- the minimum quantity and the check of the total against it in
      [distribute_quantity_in_teams] -- the operation is the binary64 one
      ([Py.double]).
    - Python [dict]s are insertion-ordered association lists with the
      assignment and deletion semantics of [dict].
    - Everything outside the process (exchange replies, price ticker,
      clock, the [random] module) is an oracle inside [World]: a stream of
      answers and a cursor.  Quantifying over worlds quantifies over every
      behaviour of the environment.
    - Logging, [time.sleep], the audit database and the notifications of
      single trades and positions do not feed back into control flow
      (their failures are caught inside those collaborators) and are left
      out; what their arguments do is kept: the look-ups
      [self.wallets[w]], which can raise, and the reading of the clock
      for the record of a new position.  The balance report of the
      notifier can raise and is part of [run]. *)

From Stdlib Require Import ZArith QArith Qround Qabs Qpower Lqa Lia List Bool String Ascii Permutation DecimalString.
Import ListNotations.
Open Scope string_scope.
Open Scope Q_scope.

(** ** Python helpers *)

Module Py.

(** Exceptions that the modelled functions can raise. *)
Inductive Exn := ValueError | ZeroDivisionError | IndexError | KeyError | TypeError.

Inductive Result (A : Type) : Type :=
| Ok (a : A)
| Raise (e : Exn).
Arguments Ok {A} a.
Arguments Raise {A} e.

Definition Qlt_bool (x y : Q) : bool := negb (Qle_bool y x).

(** [max(a, b)]: the first argument unless the second is strictly larger. *)
Definition max (a b : Q) : Q := if Qlt_bool a b then b else a.

(** Round half to even, to an integer. *)
Definition round_half_even (x : Q) : Z :=
  let f := Qfloor x in
  match Qcompare (x - inject_Z f) (1 # 2) with
  | Lt => f
  | Gt => (f + 1)%Z
  | Eq => if Z.even f then f else (f + 1)%Z
  end.

Definition pow10 (d : nat) : Q := inject_Z (10 ^ Z.of_nat d).

(** [round(x, d)]. *)
Definition round (x : Q) (d : nat) : Q :=
  inject_Z (round_half_even (x * pow10 d)) / pow10 d.

(** [int(x)]: truncation toward zero. *)
Definition int (x : Q) : Z :=
  if Qlt_bool x 0 then (- Qfloor (- x))%Z else Qfloor x.

(** [sum(l)]: left fold starting from 0. *)
Definition sum (l : list Q) : Q := fold_left Qplus l 0.

(** [timedelta(minutes=m)], in seconds: a whole number of microseconds,
    the nearest one, ties to even. *)
Definition timedelta_minutes (m : Q) : Q := round (m * 60) 6.

(** *** Binary64

    A [float] is a number [m * 2 ** e] with [|m| < 2 ** 53].  An operation
    on floats returns the float nearest to the exact result, ties going to
    the even [m].  The range of [e] is not modelled: there is no infinity
    and nothing is rounded to a subnormal. *)

(** [2.0 ** e]. *)
Definition pow2 (e : Z) : Q := 2 ^ e.

(** For [x > 0], the exponent [e] with [2 ** 52 <= x / 2 ** e < 2 ** 53]. *)
Definition exponent (x : Q) : Z :=
  let e := (Z.log2 (Qnum x) - Z.log2 (Zpos (Qden x)) - 53)%Z in
  if Qle_bool (inject_Z (2 ^ 53)) (x / pow2 e) then (e + 1)%Z else e.

(** The float nearest to [x > 0]. *)
Definition nearest (x : Q) : Q :=
  let e := exponent x in
  inject_Z (round_half_even (x / pow2 e)) * pow2 e.

(** The float nearest to [x]. *)
Definition double (x : Q) : Q :=
  match Qcompare x 0 with
  | Eq => 0
  | Gt => nearest x
  | Lt => - nearest (- x)
  end.

(** [a + b], [a * b], [a / b] and [a < b] on floats; an operand that is
    written as a decimal or an integer is the float nearest to it. *)
Definition fadd (a b : Q) : Q := double (double a + double b).
Definition fmul (a b : Q) : Q := double (double a * double b).
Definition fdiv (a b : Q) : Q := double (double a / double b).
Definition flt (a b : Q) : bool := Qlt_bool (double a) (double b).

(** [needle in hay] on strings. *)
Fixpoint contains (needle hay : string) : bool :=
  if String.prefix needle hay then true
  else match hay with
       | EmptyString => false
       | String _ rest => contains needle rest
       end.

Definition mem (x : string) (l : list string) : bool :=
  existsb (String.eqb x) l.

(** *** Insertion-ordered dictionaries with string keys *)

Definition dict (V : Type) : Type := list (string * V).

Fixpoint dict_get {V} (d : dict V) (k : string) : option V :=
  match d with
  | [] => None
  | (k', v) :: rest => if String.eqb k k' then Some v else dict_get rest k
  end.

Definition dict_mem {V} (d : dict V) (k : string) : bool :=
  match dict_get d k with Some _ => true | None => false end.

(** [d[k] = v]: overwrite in place when the key exists, append otherwise. *)
Fixpoint dict_set {V} (d : dict V) (k : string) (v : V) : dict V :=
  match d with
  | [] => [(k, v)]
  | (k', v') :: rest =>
      if String.eqb k k' then (k', v) :: rest
      else (k', v') :: dict_set rest k v
  end.

(** [del d[k]] for a key that is present (the callers test membership
    first).  Keys of a [dict] are unique, so dropping every entry under
    [k] drops the one there is. *)
Definition dict_del {V} (d : dict V) (k : string) : dict V :=
  filter (fun kv => negb (String.eqb k (fst kv))) d.

Definition keys {V} (d : dict V) : list string := List.map fst d.
Definition values {V} (d : dict V) : list V := List.map snd d.

(** [sep.join(parts)]. *)
Fixpoint join (sep : string) (parts : list string) : string :=
  match parts with
  | [] => EmptyString
  | [p] => p
  | p :: rest => p ++ sep ++ join sep rest
  end.

(** [x[i] = v]; Python raises out of range, the callers below stay in
    range, and out of range this leaves the list as it is. *)
Fixpoint set_nth {A} (l : list A) (i : nat) (v : A) : list A :=
  match l, i with
  | [], _ => []
  | _ :: t, O => v :: t
  | h :: t, S i' => h :: set_nth t i' v
  end.

(** [x[i], x[j] = x[j], x[i]]. *)
Definition swap {A} (x : list A) (i j : nat) : list A :=
  match nth_error x i, nth_error x j with
  | Some a, Some b => set_nth (set_nth x i b) j a
  | _, _ => x
  end.

End Py.

(** ** Data model *)

Inductive Side := BUY | SELL.

Inductive Team := LONG | SHORT.

(** ['SELL' if side == 'BUY' else 'BUY']. *)
Definition close_side (side : Side) : Side :=
  match side with BUY => SELL | SELL => BUY end.

(** One entry of [active_positions[symbol]].  The ['position_id'] key only
    feeds the audit database and is left out with it. *)
Record Leg := mkLeg {
  leg_wallet : string;
  leg_side : Side;
  leg_quantity : Q;
  leg_team : Team
}.

(** One entry of [position_timers]; times in seconds. *)
Record Timer := mkTimer {
  open_time : Q;
  close_time : Q;
  hold_minutes : Q
}.

(** [config['trading_params']]; an absent optional key is [None]. *)
Record Config := mkConfig {
  minimum_order_size_usdt : option Q;
  position_sizes : Py.dict Q;
  default_position_size_usdt : option Q;
  base_position_size_usdt : option Q;
  position_size_variance : Q;
  min_hold_time_minutes : Q;
  max_hold_time_minutes : Q
}.

(** The fields of [MultiWalletTrader] that the orchestration reads or
    writes.  [wallets] holds the keys of [self.wallets] in dict order. *)
Record Trader := mkTrader {
  config : Config;
  wallets : list string;
  symbols : list string;
  active_positions : Py.dict (list Leg);
  position_timers : Py.dict Timer;
  round_counter : nat
}.

(** ** The environment *)

(** One call of [WalletManager.place_order], with the truthiness of what
    the exchange answered ([_make_request] yields [None] on any failure). *)
Record Order := mkOrder {
  o_wallet : string;
  o_symbol : string;
  o_side : Side;
  o_quantity : Q;
  o_ok : bool
}.

Record World := mkWorld {
  raw : nat -> Z;                 (* raw outputs of the random source *)
  rpos : nat;
  price_feed : nat -> option Q;   (* answers of the price ticker *)
  ppos : nat;
  order_feed : nat -> bool;       (* answers to market orders *)
  opos : nat;
  clock : nat -> Q;               (* readings of [datetime.now()], in seconds *)
  cpos : nat;
  trace : list Order              (* every order issued so far, oldest first *)
}.

Record Sys := mkSys { self : Trader; env : World }.

(** State-and-exception monad: a raised exception keeps the state reached
    so far, as in Python. *)
Definition M (A : Type) : Type := Sys -> Py.Result A * Sys.

Definition ret {A} (a : A) : M A := fun s => (Py.Ok a, s).
Definition raise {A} (e : Py.Exn) : M A := fun s => (Py.Raise e, s).
Definition bind {A B} (c : M A) (k : A -> M B) : M B :=
  fun s => match c s with
           | (Py.Ok a, s') => k a s'
           | (Py.Raise e, s') => (Py.Raise e, s')
           end.

Notation "x <- c ;; k" := (bind c (fun x => k))
  (at level 61, c at next level, right associativity).
Notation "' p <- c ;; k" := (bind c (fun x => let 'p := x in k))
  (at level 61, p pattern, c at next level, right associativity).

Definition get_self : M Trader := fun s => (Py.Ok (self s), s).
Definition put_self (t : Trader) : M unit := fun s => (Py.Ok tt, mkSys t (env s)).
Definition ask {A} (f : World -> A * World) : M A :=
  fun s => let (a, w) := f (env s) in (Py.Ok a, mkSys (self s) w).

Definition next_raw (w : World) : Z * World :=
  (raw w (rpos w),
   mkWorld (raw w) (S (rpos w)) (price_feed w) (ppos w)
           (order_feed w) (opos w) (clock w) (cpos w) (trace w)).

Definition next_price (w : World) : option Q * World :=
  (price_feed w (ppos w),
   mkWorld (raw w) (rpos w) (price_feed w) (S (ppos w))
           (order_feed w) (opos w) (clock w) (cpos w) (trace w)).

Definition next_time (w : World) : Q * World :=
  (clock w (cpos w),
   mkWorld (raw w) (rpos w) (price_feed w) (ppos w)
           (order_feed w) (opos w) (clock w) (S (cpos w)) (trace w)).

Definition send_order (o : bool -> Order) (w : World) : bool * World :=
  let ok := order_feed w (opos w) in
  (ok,
   mkWorld (raw w) (rpos w) (price_feed w) (ppos w)
           (order_feed w) (S (opos w)) (clock w) (cpos w)
           (trace w ++ [o ok])%list).

(** *** The [random] module *)

(** [random._randbelow(n)]: an integer in [[0, n)]. *)
Definition randbelow (n : nat) : M nat :=
  r <- ask next_raw ;; ret (Z.to_nat (r mod Z.of_nat n)).

Definition two53 : positive := 9007199254740992.

(** [random.random()]: a multiple of 2^-53 in [[0, 1)]. *)
Definition random : M Q :=
  r <- ask next_raw ;; ret (Qmake (r mod Zpos two53) two53).

(** [random.uniform(a, b)]. *)
Definition uniform (a b : Q) : M Q :=
  u <- random ;; ret (a + (b - a) * u).

(** [random.randint(a, b)] is [a + _randbelow(b - a + 1)]; it raises
    [ValueError] on an empty range. *)
Definition randint (a b : nat) : M nat :=
  if (b <? a)%nat then raise Py.ValueError
  else r <- randbelow (b - a + 1) ;; ret (a + r)%nat.

(** [random.choice(seq)]. *)
Definition choice (seq : list string) : M string :=
  match seq with
  | [] => raise Py.IndexError
  | _ => i <- randbelow (List.length seq) ;; ret (nth i seq EmptyString)
  end.

(** [random.shuffle(x)]:
    [for i in reversed(range(1, len(x))): j = randbelow(i + 1); swap]. *)
Fixpoint shuffle_loop {A} (i : nat) (x : list A) : M (list A) :=
  match i with
  | O => ret x
  | S i' => j <- randbelow (S i) ;; shuffle_loop i' (Py.swap x i j)
  end.

Definition shuffle {A} (x : list A) : M (list A) :=
  shuffle_loop (List.length x - 1) x.

(** [[random.random() for _ in range(n)]]. *)
Fixpoint randoms (n : nat) : M (list Q) :=
  match n with
  | O => ret []
  | S n' => p <- random ;; ps <- randoms n' ;; ret (p :: ps)
  end.

(** [datetime.now()]. *)
Definition now : M Q := ask next_time.

(** ** SignedClient: [WalletManager._generate_signature] and [_make_request] *)

Module SignedClient.

(** Values that callers put into request parameters. *)
Inductive Value :=
| VStr (s : string)
| VInt (z : Z)
| VFloat (q : Q).

Record WalletManager := mkWalletManager {
  api_key : string;
  api_secret : string;
  name : string;
  wallet_id : string;
  base_url : string
}.

(** What is handed to [session.get] / [session.post]. *)
Record Request := mkRequest {
  url : string;
  params : Py.dict Value;
  headers : Py.dict string
}.

Section Client.

(** [hmac.new(key, msg, hashlib.sha256).hexdigest()] on UTF-8 strings, and
    the text that an f-string produces for a float: library functions. *)
Variable hmac_sha256_hex : string -> string -> string.
Variable repr_float : Q -> string.

(** The HTTP transport and the type of a decoded JSON answer. *)
Variable Response : Type.
Variable session_get : Request -> option Response.
Variable session_post : Request -> option Response.

(** [f"{v}"]. *)
Definition format (v : Value) : string :=
  match v with
  | VStr s => s
  | VInt z => DecimalString.NilZero.string_of_int (Z.to_int z)
  | VFloat q => repr_float q
  end.

(** ['&'.join([f"{k}={v}" for k, v in params.items()])]. *)
Definition query_string (params : Py.dict Value) : string :=
  Py.join "&" (List.map (fun kv => fst kv ++ "=" ++ format (snd kv)) params).

(** Returns the signature and the caller's dict as the call leaves it. *)
Definition _generate_signature (wm : WalletManager) (params : Py.dict Value)
  : string * Py.dict Value :=
  let params :=
    if Py.dict_mem params "signature" then Py.dict_del params "signature"
    else params in
  (hmac_sha256_hex (api_secret wm) (query_string params), params).

(** The statements of [_make_request] ahead of its [try]: the request that
    will be sent.  [time_s] is the reading of [time.time()]. *)
Definition prepare_request (wm : WalletManager) (time_s : Q)
    (endpoint : string) (params : option (Py.dict Value)) (signed : bool)
  : Request :=
  let url := base_url wm ++ endpoint in
  let params := match params with Some p => p | None => [] end in
  let params :=
    if signed then
      let params := Py.dict_set params "timestamp" (VInt (Py.int (time_s * 1000))) in
      let params := Py.dict_set params "recvWindow" (VInt 5000) in
      let '(signature, params) := _generate_signature wm params in
      Py.dict_set params "signature" (VStr signature)
    else params in
  let headers := [] in
  let headers :=
    if signed then Py.dict_set headers "X-MBX-APIKEY" (api_key wm) else headers in
  mkRequest url params headers.

(** Every failure inside the [try] ends in [None]; so does a method other
    than GET and POST. *)
Definition _make_request (wm : WalletManager) (time_s : Q)
    (method endpoint : string) (params : option (Py.dict Value)) (signed : bool)
  : option Response :=
  let request := prepare_request wm time_s endpoint params signed in
  if String.eqb method "GET" then session_get request
  else if String.eqb method "POST" then session_post request
  else None.

(** The parameters that [place_order] builds. *)
Definition place_order_params (symbol side : string) (quantity : Q) : Py.dict Value :=
  [("symbol", VStr symbol); ("side", VStr side); ("type", VStr "MARKET");
   ("quantity", VFloat quantity)].

Definition place_order (wm : WalletManager) (time_s : Q)
    (symbol side : string) (quantity : Q) : option Response :=
  _make_request wm time_s "POST" "/fapi/v1/order"
                (Some (place_order_params symbol side quantity)) true.

End Client.

End SignedClient.

(** ** PositionAllocator *)

Definition set_active (t : Trader) (a : Py.dict (list Leg)) : Trader :=
  mkTrader (config t) (wallets t) (symbols t) a (position_timers t) (round_counter t).

Definition set_timers (t : Trader) (p : Py.dict Timer) : Trader :=
  mkTrader (config t) (wallets t) (symbols t) (active_positions t) p (round_counter t).

Definition set_round (t : Trader) (r : nat) : Trader :=
  mkTrader (config t) (wallets t) (symbols t) (active_positions t) (position_timers t) r.

(** [self.wallets[wallet_id]]. *)
Definition wallet_named (wallet_id : string) : M unit :=
  t <- get_self ;;
  if Py.mem wallet_id (wallets t) then ret tt else raise Py.KeyError.

Fixpoint wallets_named (ids : list string) : M unit :=
  match ids with
  | [] => ret tt
  | w :: rest => _ <- wallet_named w ;; wallets_named rest
  end.

(** [[pos['wallet'] for positions in active_positions.values() for pos in positions]]. *)
Definition busy_wallets (active : Py.dict (list Leg)) : list string :=
  flat_map (fun positions => List.map leg_wallet positions) (Py.values active).

Definition get_available_wallets (t : Trader) : list string :=
  filter (fun wallet_id => negb (Py.mem wallet_id (busy_wallets (active_positions t))))
         (wallets t).

Definition get_available_symbols (t : Trader) : list string :=
  filter (fun s => negb (Py.dict_mem (active_positions t) s)) (symbols t).

(** The two debug lines format [self.wallets[w].name] for every member,
    which looks every member up. *)
Definition split_wallets_into_teams (wallets : list string)
  : M (list string * list string) :=
  let wallet_count := List.length wallets in
  if (wallet_count <? 2)%nat then raise Py.ValueError
  else
    shuffled_wallets <- shuffle wallets ;;
    let max_team_size := (wallet_count - 1)%nat in
    long_team_size <- randint 1 max_team_size ;;
    let long_team := firstn long_team_size shuffled_wallets in
    let short_team := skipn long_team_size shuffled_wallets in
    _ <- wallets_named long_team ;;
    _ <- wallets_named short_team ;;
    ret (long_team, short_team).

(** [(min_step, decimals)] of a symbol. *)
Definition symbol_precision (symbol : string) : Q * nat :=
  if Py.contains "BTC" symbol || Py.contains "ETH" symbol then (1 # 1000, 3%nat)
  else if Py.contains "SOL" symbol || Py.contains "ASTER" symbol then (1 # 100, 2%nat)
  else (1 # 1000, 3%nat).

Definition _get_current_price (symbol : string) : M (option Q) := ask next_price.

(** [price] when it is truthy: neither [None] nor zero. *)
Definition truthy (price : option Q) : option Q :=
  match price with
  | Some p => if Qeq_bool p 0 then None else Some p
  | None => None
  end.

Definition or_default (o : option Q) (d : Q) : Q :=
  match o with Some v => v | None => d end.

(** [min_quantity] of [distribute_quantity_in_teams]: the decimal that
    [round] picks for the float [min_quantity + min_step]. *)
Definition min_quantity_of (cfg : Config) (price : Q) (symbol : string) : Q :=
  let min_order_usdt := or_default (minimum_order_size_usdt cfg) 5 in
  let min_quantity_from_usdt := Py.fdiv min_order_usdt price in
  let '(min_step, decimals) := symbol_precision symbol in
  let min_quantity := Py.max min_quantity_from_usdt (Py.double min_step) in
  Py.round (Py.fadd min_quantity min_step) decimals.

(** The team size that the distribution goes on with, or [None] when the
    function returns [[total_quantity]] instead.  The product, the
    comparison and the quotient are those of the floats. *)
Definition effective_team_size (total_quantity min_quantity : Q) (team_size : nat)
  : option nat :=
  let required_min_total :=
    Py.fmul min_quantity (inject_Z (Z.of_nat team_size)) in
  if Py.flt total_quantity required_min_total then
    let max_team_size := Py.int (Py.fdiv total_quantity min_quantity) in
    if (max_team_size <=? 1)%Z then None
    else Some (Z.to_nat max_team_size)
  else Some team_size.

(** [quantities[-1] = v] on a non-empty list. *)
Definition set_last (quantities : list Q) (v : Q) : list Q :=
  (removelast quantities ++ [v])%list.

(** The final validation loop. *)
Definition raise_to_minimum (min_quantity : Q) (quantities : list Q) : list Q :=
  List.map (fun qty => if Py.Qlt_bool qty min_quantity then min_quantity else qty)
           quantities.

(** Lines "Distribute remaining randomly" to the end, for a non-empty team
    and proportions that do not sum to zero. *)
Definition spread (total_quantity min_quantity : Q) (decimals team_size : nat)
    (random_proportions : list Q) : list Q :=
  let quantities := repeat min_quantity team_size in
  let remaining := total_quantity - min_quantity * inject_Z (Z.of_nat team_size) in
  let total_proportion := Py.sum random_proportions in
  let normalized := List.map (fun p => p / total_proportion) random_proportions in
  let quantities :=
    List.map (fun qn => fst qn + remaining * snd qn) (combine quantities normalized) in
  let quantities := List.map (fun q => Py.round q decimals) quantities in
  let actual_total := Py.sum (removelast quantities) in
  let quantities := set_last quantities (Py.round (total_quantity - actual_total) decimals) in
  raise_to_minimum min_quantity quantities.

(** From "Allocate minimum to each wallet first" to the end, for the team
    size that is left after the check against the minimum. *)
Definition allocate (total_quantity min_quantity : Q) (decimals team_size : nat)
  : M (list Q) :=
  let quantities := repeat min_quantity team_size in
  let remaining := total_quantity - min_quantity * inject_Z (Z.of_nat team_size) in
  if Qle_bool remaining 0 then
    match team_size with
    | O => raise Py.IndexError
    | S _ =>
        let quantities :=
          set_last quantities (total_quantity - Py.sum (removelast quantities)) in
        ret (List.map (fun q => Py.round q decimals) quantities)
    end
  else
    random_proportions <- randoms team_size ;;
    match team_size with
    | O => raise Py.IndexError
    | S _ =>
        if Qeq_bool (Py.sum random_proportions) 0
        then raise Py.ZeroDivisionError
        else ret (spread total_quantity min_quantity decimals
                         team_size random_proportions)
    end.

Definition distribute_quantity_in_teams (total_quantity : Q) (team_size : nat)
    (symbol : string) : M (list Q) :=
  if (team_size =? 1)%nat then ret [total_quantity]
  else
    price <- _get_current_price symbol ;;
    match truthy price with
    | None => ret [total_quantity]
    | Some price =>
        t <- get_self ;;
        let decimals := snd (symbol_precision symbol) in
        let min_quantity := min_quantity_of (config t) price symbol in
        match effective_team_size total_quantity min_quantity team_size with
        | None => ret [total_quantity]
        | Some team_size => allocate total_quantity min_quantity decimals team_size
        end
    end.

(** ** HedgeOrchestrator *)

Definition base_size_of (cfg : Config) (symbol : string) : Q :=
  match Py.dict_get (position_sizes cfg) symbol with
  | Some base_size => base_size
  | None =>
      or_default (default_position_size_usdt cfg)
                 (or_default (base_position_size_usdt cfg) 100)
  end.

Definition calculate_position_size (symbol : string) : M Q :=
  t <- get_self ;;
  let base_size := base_size_of (config t) symbol in
  let variance := position_size_variance (config t) in
  price <- _get_current_price symbol ;;
  match truthy price with
  | None => ret 0
  | Some price =>
      u <- uniform (- variance) variance ;;
      let size_usdt := base_size * (1 + u) in
      if Py.contains "BTC" symbol || Py.contains "ETH" symbol then
        ret (Py.round (size_usdt / price) 3)
      else if Py.contains "SOL" symbol || Py.contains "ASTER" symbol then
        ret (Py.round (size_usdt / price) 2)
      else
        ret (Py.round (size_usdt / price) 3)
  end.

(** [WalletManager.place_order] as the orchestrator sees it: the call is
    logged in the trace and the exchange's answer is truthy or not. *)
Definition place_order (wallet_id symbol : string) (side : Side) (quantity : Q)
  : M bool :=
  ask (send_order (mkOrder wallet_id symbol side quantity)).

(** [WalletManager.close_position]. *)
Definition close_position (wallet_id symbol : string) (side : Side) (quantity : Q)
  : M bool :=
  place_order wallet_id symbol (close_side side) quantity.

(** What [open_team_hedge_position] has decided when it reaches its order
    loops. *)
Record Plan := mkPlan {
  total_quantity : Q;
  long_team : list string;
  short_team : list string;
  long_quantities : list Q;
  short_quantities : list Q
}.

(** [open_team_hedge_position] up to the two calls of
    [distribute_quantity_in_teams]; [None] stands for [return False]. *)
Definition team_hedge_allocation (symbol : string) : M (option Plan) :=
  t <- get_self ;;
  let available_wallets := get_available_wallets t in
  if (List.length available_wallets <? 2)%nat then ret None
  else
    total_quantity <- calculate_position_size symbol ;;
    if Qeq_bool total_quantity 0 then ret None
    else
      price <- _get_current_price symbol ;;
      match truthy price with
      | None => ret None
      | Some price =>
          let min_order_usdt := or_default (minimum_order_size_usdt (config t)) 5 in
          let min_quantity_per_wallet := min_order_usdt / price in
          if Py.Qlt_bool total_quantity (min_quantity_per_wallet * 2) then ret None
          else
            ' (long_team, short_team) <- split_wallets_into_teams available_wallets ;;
            long_quantities <-
              distribute_quantity_in_teams total_quantity (List.length long_team) symbol ;;
            short_quantities <-
              distribute_quantity_in_teams total_quantity (List.length short_team) symbol ;;
            ret (Some (mkPlan total_quantity long_team short_team
                              long_quantities short_quantities))
      end.

(** ... and on through "Get current price for recording". *)
Definition team_hedge_plan (symbol : string) : M (option Plan) :=
  allocation <- team_hedge_allocation symbol ;;
  match allocation with
  | None => ret None
  | Some p =>
      price <- _get_current_price symbol ;;
      match truthy price with
      | None => ret None
      | Some _ => ret (Some p)
      end
  end.

(** One of the two order loops over [zip(team, quantities)].  Returns
    [failed] and [symbol_positions]. *)
Fixpoint open_legs (symbol : string) (side : Side) (team : Team)
    (pairs : list (string * Q)) (symbol_positions : list Leg)
  : M (bool * list Leg) :=
  match pairs with
  | [] => ret (false, symbol_positions)
  | (wallet_id, quantity) :: rest =>
      _ <- wallet_named wallet_id ;;
      order <- place_order wallet_id symbol side quantity ;;
      if negb order then ret (true, symbol_positions)
      else open_legs symbol side team rest
             (symbol_positions ++ [mkLeg wallet_id side quantity team])%list
  end.

(** The loop under "If any position failed, close all opened positions". *)
Fixpoint roll_back (symbol : string) (symbol_positions : list Leg) : M unit :=
  match symbol_positions with
  | [] => ret tt
  | pos :: rest =>
      _ <- wallet_named (leg_wallet pos) ;;
      _ <- close_position (leg_wallet pos) symbol (leg_side pos) (leg_quantity pos) ;;
      roll_back symbol rest
  end.

(** [open_team_hedge_position] from its order loops on.  The clock is read
    for the timer's [open_time] and [close_time]. *)
Definition execute_team_hedge (symbol : string) (p : Plan) : M bool :=
  ' (failed, symbol_positions) <-
    open_legs symbol BUY LONG (combine (long_team p) (long_quantities p)) [] ;;
  ' (failed, symbol_positions) <-
    (if negb failed then
       open_legs symbol SELL SHORT (combine (short_team p) (short_quantities p))
                 symbol_positions
     else ret (failed, symbol_positions)) ;;
  if failed then
    _ <- roll_back symbol symbol_positions ;;
    ret false
  else
    t <- get_self ;;
    hold_time <- uniform (min_hold_time_minutes (config t))
                         (max_hold_time_minutes (config t)) ;;
    _ <- wallets_named (long_team p) ;;
    _ <- wallets_named (short_team p) ;;
    _ <- now ;;
    _ <- put_self (set_active t (Py.dict_set (active_positions t) symbol symbol_positions)) ;;
    opened <- now ;;
    closing <- now ;;
    t <- get_self ;;
    _ <- put_self (set_timers t (Py.dict_set (position_timers t) symbol
                     (mkTimer opened (closing + Py.timedelta_minutes hold_time)
                              hold_time))) ;;
    ret true.

Definition open_team_hedge_position (symbol : string) : M bool :=
  plan <- team_hedge_plan symbol ;;
  match plan with
  | None => ret false
  | Some p => execute_team_hedge symbol p
  end.

(** The loop of [close_hedge_position]. *)
Fixpoint close_legs (symbol : string) (positions : list Leg) (success : bool)
  : M bool :=
  match positions with
  | [] => ret success
  | pos :: rest =>
      _ <- wallet_named (leg_wallet pos) ;;
      order <- close_position (leg_wallet pos) symbol (leg_side pos) (leg_quantity pos) ;;
      close_legs symbol rest (if negb order then false else success)
  end.

Definition close_hedge_position (symbol : string) : M bool :=
  t <- get_self ;;
  match Py.dict_get (active_positions t) symbol with
  | None => ret false
  | Some positions =>
      _ <- _get_current_price symbol ;;
      success <- close_legs symbol positions true ;;
      if success then
        t <- get_self ;;
        _ <- put_self (set_active t (Py.dict_del (active_positions t) symbol)) ;;
        t <- get_self ;;
        if Py.dict_mem (position_timers t) symbol then
          _ <- put_self (set_timers t (Py.dict_del (position_timers t) symbol)) ;;
          ret success
        else raise Py.KeyError
      else ret success
  end.

Fixpoint close_each (symbols : list string) : M unit :=
  match symbols with
  | [] => ret tt
  | symbol :: rest => _ <- close_hedge_position symbol ;; close_each rest
  end.

Definition check_positions_for_closing : M unit :=
  current_time <- now ;;
  t <- get_self ;;
  let symbols_to_close :=
    List.map fst
      (filter (fun st => Qle_bool (close_time (snd st)) current_time)
              (position_timers t)) in
  close_each symbols_to_close.

(** ** RoundScheduler *)

Definition execute_trading_round : M unit :=
  t <- get_self ;;
  _ <- put_self (set_round t (S (round_counter t))) ;;
  t <- get_self ;;
  let available_wallets := get_available_wallets t in
  let available_symbols := get_available_symbols t in
  if (List.length available_wallets <? 2)%nat
     || match available_symbols with [] => true | _ => false end
  then ret tt
  else
    symbol <- choice available_symbols ;;
    _ <- open_team_hedge_position symbol ;;
    ret tt.

Definition close_all_positions : M unit :=
  t <- get_self ;;
  match active_positions t with
  | [] => ret tt
  | _ => close_each (Py.keys (active_positions t))
  end.

(** The states of the trader that the loop of [run] can pass through:
    from a fresh trader, any sequence of the three methods that [run]
    calls, each in any environment and whether it returns or raises. *)
Inductive loop_step : Trader -> Trader -> Prop :=
| step_check : forall s,
    loop_step (self s) (self (snd (check_positions_for_closing s)))
| step_round : forall s,
    loop_step (self s) (self (snd (execute_trading_round s)))
| step_close_all : forall s,
    loop_step (self s) (self (snd (close_all_positions s))).

Definition fresh (t : Trader) : Prop :=
  active_positions t = [] /\ position_timers t = [] /\ NoDup (wallets t).

Inductive reachable : Trader -> Prop :=
| reach_fresh : forall t, fresh t -> reachable t
| reach_step : forall t t', reachable t -> loop_step t t' -> reachable t'.

(** ** Pair trading and the main loop *)

(** [itertools.combinations(l, 2)]. *)
Fixpoint combinations2 {A} (l : list A) : list (A * A) :=
  match l with
  | [] => []
  | x :: rest => (List.map (pair x) rest ++ combinations2 rest)%list
  end.

Definition get_available_pairs (t : Trader) : list (string * string) :=
  let available_wallets := get_available_wallets t in
  if (List.length available_wallets <? 2)%nat then []
  else combinations2 available_wallets.

(** [open_hedge_position]: one wallet long, one wallet short, the same
    quantity.  The two entries it records carry no ['team'] key; that key
    is never read, and the legs are tagged here by their side. *)
Definition open_hedge_position (wallet_pair : string * string) (symbol : string)
  : M bool :=
  let wallet_a_id := fst wallet_pair in
  let wallet_b_id := snd wallet_pair in
  _ <- wallet_named wallet_a_id ;;
  _ <- wallet_named wallet_b_id ;;
  quantity <- calculate_position_size symbol ;;
  if Qeq_bool quantity 0 then ret false
  else
    _ <- _get_current_price symbol ;;
    order_a <- place_order wallet_a_id symbol BUY quantity ;;
    if negb order_a then ret false
    else
      order_b <- place_order wallet_b_id symbol SELL quantity ;;
      if negb order_b then
        _ <- close_position wallet_a_id symbol BUY quantity ;;
        ret false
      else
        t <- get_self ;;
        hold_time <- uniform (min_hold_time_minutes (config t))
                             (max_hold_time_minutes (config t)) ;;
        _ <- now ;;
        _ <- put_self (set_active t (Py.dict_set (active_positions t) symbol
                         [mkLeg wallet_a_id BUY quantity LONG;
                          mkLeg wallet_b_id SELL quantity SHORT])) ;;
        opened <- now ;;
        closing <- now ;;
        t <- get_self ;;
        _ <- put_self (set_timers t (Py.dict_set (position_timers t) symbol
                         (mkTimer opened (closing + Py.timedelta_minutes hold_time)
                                  hold_time))) ;;
        ret true.

Definition nonempty {A} (l : list A) : bool :=
  match l with [] => false | _ => true end.

(** [DiscordNotifier.send_balance_report] as [run] sees it.  The report
    asks every wallet for its balance, and [get_account_balance] reads
    the reply of the exchange outside any [try]: a reply of another shape
    raises [TypeError], [KeyError] or [ValueError] here.  [outcome] is what
    the replies make of the call.  A report that goes through reads the
    clock once, for its embed; sending the embed cannot raise. *)
Definition send_balance_report (outcome : option Py.Exn) : M unit :=
  match outcome with
  | Some e => raise e
  | None => _ <- now ;; ret tt
  end.

(** [check_and_send_balance_report].  [notifier] is the report interval,
    in minutes, when a notifier is set up; the result is
    [self.last_report_time] as the call leaves it. *)
Definition check_and_send_balance_report (notifier : option Q)
    (last_report_time : Q) (outcome : option Py.Exn) : M Q :=
  match notifier with
  | None => ret last_report_time
  | Some report_interval_minutes =>
      current_time <- now ;;
      let time_since_last_report := (current_time - last_report_time) / 60 in
      if Qle_bool report_interval_minutes time_since_last_report then
        _ <- send_balance_report outcome ;;
        now
      else ret last_report_time
  end.

(** What one turn of the [while] loop of [run] takes from outside: what a
    balance report does if one is sent, and the shutdown flag, which a
    signal handler sets, as the body reads it after the expiry check and
    after the cooldown. *)
Record Turn := mkTurn {
  report : option Py.Exn;
  shutdown_after_check : bool;
  shutdown_after_cooldown : bool
}.

(** The body of the [while] loop of [run].  The mode and the cooldown
    bounds are read from the configuration.  Returns whether the loop was
    left by [break], with [self.last_report_time]. *)
Definition run_iteration (notifier : option Q) (parallel_mode : bool)
    (min_cooldown max_cooldown : Q) (last_report_time : Q) (turn : Turn)
  : M (bool * Q) :=
  _ <- check_positions_for_closing ;;
  last_report_time <-
    check_and_send_balance_report notifier last_report_time (report turn) ;;
  if shutdown_after_check turn then ret (true, last_report_time)
  else if parallel_mode then
    t <- get_self ;;
    let available_pairs := get_available_pairs t in
    let available_symbols := get_available_symbols t in
    if nonempty available_pairs && nonempty available_symbols then
      _ <- execute_trading_round ;; ret (false, last_report_time)
    else ret (false, last_report_time)
  else
    t <- get_self ;;
    if negb (nonempty (active_positions t)) then
      _ <- uniform min_cooldown max_cooldown ;;
      if negb (shutdown_after_cooldown turn) then
        _ <- execute_trading_round ;; ret (false, last_report_time)
      else ret (false, last_report_time)
    else ret (false, last_report_time).

(** The loop, one turn per iteration that the [while] test lets through. *)
Fixpoint run_loop (notifier : option Q) (parallel_mode : bool)
    (min_cooldown max_cooldown : Q) (last_report_time : Q) (turns : list Turn)
  : M unit :=
  match turns with
  | [] => ret tt
  | turn :: rest =>
      ' (broke, last_report_time) <-
        run_iteration notifier parallel_mode min_cooldown max_cooldown
                      last_report_time turn ;;
      if broke then ret tt
      else run_loop notifier parallel_mode min_cooldown max_cooldown
                    last_report_time rest
  end.

(** [run]: the first balance report, ahead of the [try]; then the loop and
    the graceful shutdown inside the [try], and [close_all_positions] once
    more in the handler of [Exception].  [last_report_time] is the reading
    of the clock that [__init__] took.  A second signal makes the handler
    leave the process by [sys.exit]; such a run is not followed here. *)
Definition run (notifier : option Q) (parallel_mode : bool)
    (min_cooldown max_cooldown : Q) (last_report_time : Q)
    (initial_report : option Py.Exn) (turns : list Turn) : M unit :=
  _ <- match notifier with
       | Some _ => send_balance_report initial_report
       | None => ret tt
       end ;;
  fun s =>
    match (_ <- run_loop notifier parallel_mode min_cooldown max_cooldown
                         last_report_time turns ;;
           close_all_positions) s with
    | (Py.Ok tt, s1) => (Py.Ok tt, s1)
    | (Py.Raise _, s1) => close_all_positions s1
    end.

(** ** Vocabulary of the statements *)

(** The world after the orders [os] have been issued and answered. *)
Definition issue (w : World) (os : list Order) : World :=
  mkWorld (raw w) (rpos w) (price_feed w) (ppos w)
          (order_feed w) (List.length os + opos w) (clock w) (cpos w)
          (trace w ++ os)%list.

(** The world after one more answer of the price ticker was consumed. *)
Definition next_price_world (w : World) : World := snd (next_price w).

(** The opening orders for [pairs], answered by [feed] from index [i] on. *)
Fixpoint opening_orders (symbol : string) (side : Side)
    (pairs : list (string * Q)) (feed : nat -> bool) (i : nat) : list Order :=
  match pairs with
  | [] => []
  | (wallet_id, quantity) :: rest =>
      mkOrder wallet_id symbol side quantity (feed i)
      :: opening_orders symbol side rest feed (S i)
  end.

(** The opposite-side orders for [legs], answered by [feed] from [i] on. *)
Fixpoint closing_orders (symbol : string) (legs : list Leg)
    (feed : nat -> bool) (i : nat) : list Order :=
  match legs with
  | [] => []
  | pos :: rest =>
      mkOrder (leg_wallet pos) symbol (close_side (leg_side pos))
              (leg_quantity pos) (feed i)
      :: closing_orders symbol rest feed (S i)
  end.

(** The legs recorded for [pairs] once their orders went through. *)
Definition legs_of (side : Side) (team : Team) (pairs : list (string * Q))
  : list Leg :=
  List.map (fun p => mkLeg (fst p) side (snd p) team) pairs.

(** A computation is quiet when it leaves the trader's fields alone and
    sends no order: it may only draw random numbers, prices and times. *)
Definition quiet {A} (c : M A) : Prop :=
  forall s,
    self (snd (c s)) = self s
    /\ order_feed (env (snd (c s))) = order_feed (env s)
    /\ opos (env (snd (c s))) = opos (env s)
    /\ trace (env (snd (c s))) = trace (env s).

(** Number of leading successes among the [n] answers of [feed] from [i]. *)
Fixpoint successes (n : nat) (feed : nat -> bool) (i : nat) : nat :=
  match n with
  | O => O
  | S n' => if feed i then S (successes n' feed (S i)) else O
  end.

(** The world after [k] more outputs of the random source were consumed. *)
Definition advance_raw (w : World) (k : nat) : World :=
  mkWorld (raw w) (k + rpos w) (price_feed w) (ppos w)
          (order_feed w) (opos w) (clock w) (cpos w) (trace w).

(** The shuffle loop run on given outcomes of [_randbelow], first outcome
    first. *)
Fixpoint shuffle_with {A} (i : nat) (x : list A) (choices : list nat) : list A :=
  match i, choices with
  | S i', j :: rest => shuffle_with i' (Py.swap x i j) rest
  | _, _ => x
  end.

(** The outcomes of [_randbelow] that the shuffle loop draws from the raw
    stream [r] at cursor [pos]. *)
Fixpoint shuffle_draws (i : nat) (r : nat -> Z) (pos : nat) : list nat :=
  match i with
  | O => []
  | S i' => Z.to_nat (r pos mod Z.of_nat (S i)) :: shuffle_draws i' r (S pos)
  end.

(** The outcome of [_randbelow] behind the long-team size. *)
Definition size_draw (n : nat) (r : nat -> Z) (pos : nat) : nat :=
  Z.to_nat (r (n - 1 + pos)%nat mod Z.of_nat (n - 1)).

(** The teams as a function of the outcomes of [_randbelow]. *)
Definition split_with (choices : list nat) (size_choice : nat) (wallets : list string)
  : list string * list string :=
  let shuffled_wallets := shuffle_with (List.length wallets - 1) wallets choices in
  (firstn (1 + size_choice) shuffled_wallets, skipn (1 + size_choice) shuffled_wallets).

(** Outcomes that [_randbelow] can give to the shuffle loop started at
    index [i]: one per index [i, i-1, ..., 1], each at most its index. *)
Fixpoint valid_choices (i : nat) (choices : list nat) : Prop :=
  match i, choices with
  | O, [] => True
  | S i', j :: rest => (j <= i)%nat /\ valid_choices i' rest
  | _, _ => False
  end.

(** The proportions that [allocate] draws from the raw stream [r] at
    cursor [pos]. *)
Fixpoint random_draws (n : nat) (r : nat -> Z) (pos : nat) : list Q :=
  match n with
  | O => []
  | S n' => Qmake (r pos mod Zpos two53) two53 :: random_draws n' r (S pos)
  end.

(** One unit of a symbol's decimal precision, and the quantities that are
    whole multiples of it. *)
Definition precision_unit (decimals : nat) : Q := 1 / Py.pow10 decimals.

Definition at_precision (decimals : nat) (q : Q) : Prop :=
  exists z : Z, q == inject_Z z / Py.pow10 decimals.

(** The mutual exclusion of live positions: wallets are registered once,
    a symbol has one entry, and the legs of all live positions name each
    wallet at most once. *)
Definition exclusive (t : Trader) : Prop :=
  NoDup (wallets t)
  /\ NoDup (Py.keys (active_positions t))
  /\ NoDup (busy_wallets (active_positions t)).

(** Every live position has its timer, and its legs name registered
    wallets. *)
Definition timed (t : Trader) : Prop :=
  incl (Py.keys (active_positions t)) (Py.keys (position_timers t)).

Definition staffed (t : Trader) : Prop :=
  Forall (fun w => In w (wallets t)) (busy_wallets (active_positions t)).

Definition consistent (t : Trader) : Prop :=
  exclusive t /\ timed t /\ staffed t.

(** A computation that respects the consistency of the trader's state,
    whether it returns or raises. *)
Definition keeps {A} (c : M A) : Prop :=
  forall s, consistent (self s) -> consistent (self (snd (c s))).

(** A computation that never assigns a field of the trader. *)
Definition selfless {A} (c : M A) : Prop :=
  forall s, self (snd (c s)) = self s.

(** The reading of the long phase under which a refused BUY order is
    followed by no other order: the run issues the BUY orders up to the
    refused one and nothing else. *)
Definition long_failure_closes_nothing : Prop :=
  forall (symbol : string) (s s1 : Sys) (p : Plan) (k : nat),
    team_hedge_plan symbol s = (Py.Ok (Some p), s1) ->
    let long_pairs := combine (long_team p) (long_quantities p) in
    let feed := order_feed (env s) in
    let o := opos (env s) in
    (1 <= k <= List.length long_pairs)%nat ->
    (forall i, (i < k - 1)%nat -> feed (o + i)%nat = true) ->
    feed (o + (k - 1))%nat = false ->
    let result := open_team_hedge_position symbol s in
    fst result = Py.Ok false
    /\ trace (env (snd result))
       = (trace (env s) ++ opening_orders symbol BUY (firstn k long_pairs) feed o)%list.

(** The run sent no order, changed nothing and returned [False]. *)
Definition aborted (s : Sys) (result : Py.Result bool * Sys) : Prop :=
  fst result = Py.Ok false
  /\ trace (env (snd result)) = trace (env s)
  /\ self (snd result) = self s.

(** The reading under which any missing answer of the price ticker during
    a run of [open_team_hedge_position] aborts the run. *)
Definition any_missing_price_aborts : Prop :=
  forall (symbol : string) (s : Sys),
    let result := open_team_hedge_position symbol s in
    (exists i, (ppos (env s) <= i < ppos (env (snd result)))%nat
               /\ price_feed (env s) i = None) ->
    aborted s result.

(** ** A concrete scenario: three wallets, one symbol *)

Module Scenario.

Definition feed_of {A} (answers : list A) (otherwise : A) : nat -> A :=
  fun i => nth i answers otherwise.

Definition cfg : Config := mkConfig None [] None None (1 # 10) 1 2.

Definition trader : Trader :=
  mkTrader cfg ["wallet_a"; "wallet_b"; "wallet_c"] ["BTCUSDT"] [] [] 0.

(** Raw random outputs: the size variance, the two shuffle swaps, the
    long-team size (two members), then proportions and the hold time. *)
Definition randomness : nat -> Z :=
  feed_of [4503599627370496; 1; 0; 1; 3; 5; 7]%Z 0%Z.

Definition world (prices : list (option Q)) (answers : list bool) : World :=
  mkWorld randomness 0 (feed_of prices None) 0 (feed_of answers true) 0
          (feed_of [100; 101; 102] 0) 0 [].

Definition steady : list (option Q) :=
  [Some 1000; Some 1000; Some 1000; Some 1000].

(** Every price is there and every order is accepted. *)
Definition calm : Sys := mkSys trader (world steady []).

(** The second BUY order is refused. *)
Definition second_buy_refused : Sys := mkSys trader (world steady [true; false]).

(** Both BUY orders go through, the SELL order is refused. *)
Definition sell_refused : Sys := mkSys trader (world steady [true; true; false]).

(** The ticker fails inside [distribute_quantity_in_teams] only. *)
Definition ticker_gap : Sys :=
  mkSys trader (world [Some 1000; Some 1000; None; Some 1000] []).

(** The trader after one trading round in the calm world: one live
    position with three legs. *)
Definition live : Trader :=
  Eval vm_compute in self (snd (execute_trading_round calm)).

(** Of the three closing orders the second is refused. *)
Definition closing_half_refused : Sys :=
  mkSys live (world steady [true; false; true]).

End Scenario.

(** ** Vocabulary of the further statements *)

(** A computation that leaves the answers of the exchange as they are
    predicted. *)
Definition answers_kept {A} (c : M A) : Prop :=
  forall s, order_feed (env (snd (c s))) = order_feed (env s).

(** Every order, from now on, is accepted. *)
Definition all_accepted (w : World) : Prop :=
  forall i, order_feed w i = true.

(** The configuration, the registry and the symbol list are the same. *)
Definition settled (t t' : Trader) : Prop :=
  config t' = config t /\ wallets t' = wallets t /\ symbols t' = symbols t.

(** The accepted order that opened a leg. *)
Definition order_of_leg (symbol : string) (pos : Leg) : Order :=
  mkOrder (leg_wallet pos) symbol (leg_side pos) (leg_quantity pos) true.

(** The hold time that [random.uniform] draws from the raw output [r]. *)
Definition hold_time_of (cfg : Config) (r : Z) : Q :=
  min_hold_time_minutes cfg
  + (max_hold_time_minutes cfg - min_hold_time_minutes cfg)
    * Qmake (r mod Zpos two53) two53.

(** What a trader's state becomes when a position is recorded. *)
Definition with_position (t : Trader) (symbol : string) (legs : list Leg)
    (timer : Timer) : Trader :=
  set_timers (set_active t (Py.dict_set (active_positions t) symbol legs))
             (Py.dict_set (position_timers t) symbol timer).

(** What a trader's state becomes when a position and its timer are
    deleted. *)
Definition without_position (t : Trader) (symbol : string) : Trader :=
  set_timers (set_active t (Py.dict_del (active_positions t) symbol))
             (Py.dict_del (position_timers t) symbol).

(** A computation that does not read the clock. *)
Definition clockless {A} (c : M A) : Prop :=
  forall s,
    clock (env (snd (c s))) = clock (env s)
    /\ cpos (env (snd (c s))) = cpos (env s).

(** ** Further cases of the scenario *)

Module Cases.

(** A world in which every order is accepted and the clock reads [time]
    at every reading. *)
Definition at_time (time : Q) : World :=
  mkWorld Scenario.randomness 0 (Scenario.feed_of Scenario.steady None) 0
          (fun _ => true) 0 (fun _ => time) 0 [].

(** The live position of the scenario, before its hold time is over and
    long after. *)
Definition early : Sys := mkSys Scenario.live (at_time 100).
Definition late : Sys := mkSys Scenario.live (at_time 100000).

(** A fresh trader with every order accepted. *)
Definition accepted : Sys := mkSys Scenario.trader (at_time 100).


End Cases.

(** * Properties *)

(** ** Dictionaries *)

Lemma mem_In (x : string) (l : list string) :
  Py.mem x l = true <-> In x l.
Proof.
  unfold Py.mem. rewrite existsb_exists. split.
  - intros [y [Hy He]]. apply String.eqb_eq in He. now subst.
  - intros H. exists x. split; [assumption | apply String.eqb_refl].
Qed.

Lemma mem_not_In (x : string) (l : list string) :
  Py.mem x l = false <-> ~ In x l.
Proof.
  rewrite <- mem_In. destruct (Py.mem x l); split; congruence.
Qed.

Lemma dict_get_In_keys {V} (d : Py.dict V) (k : string) :
  Py.dict_get d k <> None <-> In k (Py.keys d).
Proof.
  induction d as [| [k' v] d IH]; simpl.
  - tauto.
  - destruct (String.eqb k k') eqn:E.
    + apply String.eqb_eq in E. subst. split; [auto | discriminate].
    + apply String.eqb_neq in E. rewrite IH. split; [auto | intros [H | H]; congruence].
Qed.

Lemma dict_mem_In {V} (d : Py.dict V) (k : string) :
  Py.dict_mem d k = true <-> In k (Py.keys d).
Proof.
  rewrite <- dict_get_In_keys. unfold Py.dict_mem.
  destruct (Py.dict_get d k); split; congruence.
Qed.

Lemma dict_set_fresh {V} (d : Py.dict V) (k : string) (v : V) :
  ~ In k (Py.keys d) -> Py.dict_set d k v = (d ++ [(k, v)])%list.
Proof.
  induction d as [| [k' v'] d IH]; simpl; intros H.
  - reflexivity.
  - destruct (String.eqb k k') eqn:E.
    + apply String.eqb_eq in E. subst. tauto.
    + rewrite IH; tauto.
Qed.

Lemma keys_dict_set {V} (d : Py.dict V) (k : string) (v : V) :
  Py.keys (Py.dict_set d k v)
  = if Py.dict_mem d k then Py.keys d else (Py.keys d ++ [k])%list.
Proof.
  induction d as [| [k' v'] d IH]; simpl.
  - reflexivity.
  - unfold Py.dict_mem in *. simpl. destruct (String.eqb k k') eqn:E.
    + reflexivity.
    + simpl. rewrite IH. now destruct (Py.dict_get d k).
Qed.

Lemma dict_del_absent {V} (d : Py.dict V) (k : string) :
  ~ In k (Py.keys (Py.dict_del d k)).
Proof.
  unfold Py.dict_del, Py.keys. rewrite in_map_iff.
  intros [[k' v] [E H]]. simpl in E. subst k'.
  apply filter_In in H. simpl in H. rewrite String.eqb_refl in H.
  destruct H; discriminate.
Qed.

Lemma dict_get_del {V} (d : Py.dict V) (k : string) :
  Py.dict_get (Py.dict_del d k) k = None.
Proof.
  destruct (Py.dict_get (Py.dict_del d k) k) eqn:E; [| reflexivity].
  exfalso. apply (dict_del_absent d k). apply dict_get_In_keys. congruence.
Qed.

Lemma dict_del_app {V} (d1 d2 : Py.dict V) (k : string) :
  Py.dict_del (d1 ++ d2)%list k = (Py.dict_del d1 k ++ Py.dict_del d2 k)%list.
Proof. apply filter_app. Qed.

Lemma dict_del_fresh {V} (d : Py.dict V) (k : string) :
  ~ In k (Py.keys d) -> Py.dict_del d k = d.
Proof.
  unfold Py.dict_del.
  induction d as [| [k' v'] d IH]; simpl; intros H.
  - reflexivity.
  - destruct (String.eqb k k') eqn:E.
    + apply String.eqb_eq in E. subst. tauto.
    + simpl. rewrite IH; tauto.
Qed.

(** ** SignedClient *)

(** C9.  A signed request carries the caller's parameters in the caller's
    order, then [timestamp] (milliseconds) and [recvWindow = 5000], then
    [signature]: the hex HMAC-SHA256, under the wallet's secret, of the
    [key=value] pairs joined by [&] in that same dict order, any
    [signature] entry of the caller left out; the API key travels in the
    [X-MBX-APIKEY] header. *)
Theorem signed_request_layout
    (hmac_sha256_hex : string -> string -> string) (repr_float : Q -> string)
    (wm : SignedClient.WalletManager) (time_s : Q) (endpoint : string)
    (params : Py.dict SignedClient.Value) :
  let request :=
    SignedClient.prepare_request hmac_sha256_hex repr_float wm time_s endpoint
                                 (Some params) true in
  let timestamp := SignedClient.VInt (Py.int (time_s * 1000)) in
  let stamped :=
    Py.dict_set (Py.dict_set params "timestamp" timestamp)
                "recvWindow" (SignedClient.VInt 5000) in
  let signed_part := Py.dict_del stamped "signature" in
  let signature :=
    hmac_sha256_hex (SignedClient.api_secret wm)
      (Py.join "&"
         (List.map (fun kv => fst kv ++ "=" ++ SignedClient.format repr_float (snd kv))
                   signed_part)) in
  SignedClient.params request
    = (signed_part ++ [("signature", SignedClient.VStr signature)])%list
  /\ SignedClient.headers request = [("X-MBX-APIKEY", SignedClient.api_key wm)]
  /\ SignedClient.url request = SignedClient.base_url wm ++ endpoint
  /\ (~ In "timestamp" (Py.keys params) ->
      ~ In "recvWindow" (Py.keys params) ->
      signed_part
      = (Py.dict_del params "signature"
         ++ [("timestamp", timestamp); ("recvWindow", SignedClient.VInt 5000)])%list).
Proof.
  intros request timestamp stamped signed_part signature.
  assert (Hdel :
    (if Py.dict_mem stamped "signature" then Py.dict_del stamped "signature"
     else stamped) = signed_part).
  { destruct (Py.dict_mem stamped "signature") eqn:E; [reflexivity |].
    unfold signed_part. symmetry. apply dict_del_fresh.
    rewrite <- dict_mem_In. congruence. }
  split; [| split; [| split]].
  - unfold request, SignedClient.prepare_request, SignedClient._generate_signature.
    fold timestamp. fold stamped. rewrite Hdel. simpl.
    rewrite dict_set_fresh by apply dict_del_absent.
    reflexivity.
  - reflexivity.
  - reflexivity.
  - intros Hts Hrw. unfold signed_part, stamped.
    rewrite (dict_set_fresh params) by assumption.
    rewrite dict_set_fresh.
    + rewrite <- app_assoc. simpl. rewrite dict_del_app. reflexivity.
    + unfold Py.keys. rewrite map_app, in_app_iff. simpl.
      intros [H | [H | []]]; [tauto | discriminate].
Qed.

(** ** Orders and the world *)

Lemma issue_nil (w : World) : issue w [] = w.
Proof. destruct w. unfold issue. simpl. now rewrite app_nil_r. Qed.

Lemma issue_issue (w : World) (a b : list Order) :
  issue (issue w a) b = issue w (a ++ b).
Proof.
  unfold issue. simpl. rewrite length_app, <- app_assoc.
  f_equal. lia.
Qed.

Lemma wallet_named_ok (s : Sys) (wallet_id : string) :
  In wallet_id (wallets (self s)) -> wallet_named wallet_id s = (Py.Ok tt, s).
Proof.
  intros H. unfold wallet_named, bind, get_self.
  apply mem_In in H. now rewrite H.
Qed.

Lemma wallet_named_inv (s s' : Sys) (wallet_id : string) (r : Py.Result unit) :
  wallet_named wallet_id s = (r, s') ->
  s' = s /\ (r = Py.Ok tt /\ In wallet_id (wallets (self s))
             \/ r = Py.Raise Py.KeyError /\ ~ In wallet_id (wallets (self s))).
Proof.
  unfold wallet_named, bind, get_self.
  destruct (Py.mem wallet_id (wallets (self s))) eqn:E;
    unfold ret, raise; intros H; inversion H; subst; split; auto.
  - left. split; [reflexivity | now apply mem_In].
  - right. split; [reflexivity | now apply mem_not_In].
Qed.

Lemma wallets_named_ok (s : Sys) (ids : list string) :
  Forall (fun w => In w (wallets (self s))) ids ->
  wallets_named ids s = (Py.Ok tt, s).
Proof.
  induction 1 as [| w ids Hw _ IH]; simpl.
  - reflexivity.
  - unfold bind. now rewrite wallet_named_ok.
Qed.

Lemma wallets_named_inv (ids : list string) (s s' : Sys) (r : Py.Result unit) :
  wallets_named ids s = (r, s') ->
  s' = s /\ (r = Py.Ok tt -> Forall (fun w => In w (wallets (self s))) ids).
Proof.
  induction ids as [| w ids IH]; simpl.
  - unfold ret. intros H. inversion H. auto.
  - unfold bind. destruct (wallet_named w s) as [r1 s1] eqn:E1.
    apply wallet_named_inv in E1. destruct E1 as [-> [[-> Hin] | [-> Hout]]].
    + intros H. apply IH in H. destruct H as [-> H]. split; auto.
    + intros H. inversion H. split; [reflexivity | discriminate].
Qed.

Lemma place_order_eq (s : Sys) (wallet_id symbol : string) (side : Side) (q : Q) :
  place_order wallet_id symbol side q s
  = (Py.Ok (order_feed (env s) (opos (env s))),
     mkSys (self s)
           (issue (env s)
              [mkOrder wallet_id symbol side q (order_feed (env s) (opos (env s)))])).
Proof. reflexivity. Qed.

(** ** Closing a position *)

Lemma close_legs_eq (symbol : string) (positions : list Leg) :
  forall (success : bool) (s : Sys),
    Forall (fun pos => In (leg_wallet pos) (wallets (self s))) positions ->
    let attempts :=
      closing_orders symbol positions (order_feed (env s)) (opos (env s)) in
    close_legs symbol positions success s
    = (Py.Ok (success && forallb o_ok attempts),
       mkSys (self s) (issue (env s) attempts)).
Proof.
  induction positions as [| pos rest IH]; intros success s Hreg; simpl.
  - unfold ret. rewrite issue_nil, andb_true_r. now destruct s.
  - inversion Hreg as [| ? ? Hpos Hrest]; subst.
    unfold bind at 1. rewrite wallet_named_ok by assumption.
    unfold bind at 1. unfold close_position. rewrite place_order_eq.
    rewrite IH by assumption. simpl.
    rewrite issue_issue. simpl.
    destruct (order_feed (env s) (opos (env s))), success; reflexivity.
Qed.

Lemma closing_orders_length symbol legs feed i :
  List.length (closing_orders symbol legs feed i) = List.length legs.
Proof.
  revert i. induction legs as [| pos rest IH]; intros i; simpl; auto.
Qed.

Lemma closing_orders_wallets symbol legs feed i :
  List.map o_wallet (closing_orders symbol legs feed i) = List.map leg_wallet legs.
Proof.
  revert i. induction legs as [| pos rest IH]; intros i; simpl; [| rewrite IH]; auto.
Qed.

(** A position whose legs name registered wallets and that has its timer
    is closed all or nothing. *)
Lemma close_hedge_position_run
    (s : Sys) (symbol : string) (positions : list Leg) :
  Py.dict_get (active_positions (self s)) symbol = Some positions ->
  Forall (fun pos => In (leg_wallet pos) (wallets (self s))) positions ->
  Py.dict_mem (position_timers (self s)) symbol = true ->
  let attempts :=
    closing_orders symbol positions (order_feed (env s)) (opos (env s)) in
  let result := close_hedge_position symbol s in
  trace (env (snd result)) = (trace (env s) ++ attempts)%list
  /\ List.length attempts = List.length positions
  /\ (forallb o_ok attempts = true ->
      fst result = Py.Ok true
      /\ active_positions (self (snd result))
         = Py.dict_del (active_positions (self s)) symbol
      /\ position_timers (self (snd result))
         = Py.dict_del (position_timers (self s)) symbol
      /\ Py.dict_get (active_positions (self (snd result))) symbol = None
      /\ Py.dict_get (position_timers (self (snd result))) symbol = None)
  /\ (forallb o_ok attempts = false ->
      fst result = Py.Ok false /\ self (snd result) = self s).
Proof.
  intros Hlive Hreg Htimer attempts result.
  assert (Hrun : result =
    if forallb o_ok attempts then
      (Py.Ok true,
       mkSys (set_timers (set_active (self s)
                            (Py.dict_del (active_positions (self s)) symbol))
                         (Py.dict_del (position_timers (self s)) symbol))
             (issue (next_price_world (env s)) attempts))
    else (Py.Ok false, mkSys (self s) (issue (next_price_world (env s)) attempts))).
  { unfold result, close_hedge_position.
    unfold bind at 1. unfold get_self at 1. rewrite Hlive.
    unfold bind at 1. unfold _get_current_price, ask. simpl.
    unfold bind at 1. rewrite close_legs_eq by assumption. simpl.
    fold attempts. destruct (forallb o_ok attempts); [| reflexivity].
    unfold bind, get_self, put_self. simpl. rewrite Htimer. reflexivity. }
  split; [| split; [| split]].
  - rewrite Hrun. destruct (forallb o_ok attempts); reflexivity.
  - apply closing_orders_length.
  - intros Hall. rewrite Hrun, Hall. simpl.
    repeat split; apply dict_get_del.
  - intros Hsome. rewrite Hrun, Hsome. split; reflexivity.
Qed.

(** ** Quiet computations *)

Lemma bind_ok_inv {A B} (c : M A) (k : A -> M B) (s s' : Sys) (b : B) :
  bind c k s = (Py.Ok b, s') ->
  exists a s1, c s = (Py.Ok a, s1) /\ k a s1 = (Py.Ok b, s').
Proof.
  unfold bind. destruct (c s) as [[a | e] s1]; intros H.
  - now exists a, s1.
  - discriminate.
Qed.

Lemma quiet_ret {A} (a : A) : quiet (ret a).
Proof. intros s. simpl. auto. Qed.

Lemma quiet_raise {A} (e : Py.Exn) : quiet (@raise A e).
Proof. intros s. simpl. auto. Qed.

Lemma quiet_bind {A B} (c : M A) (k : A -> M B) :
  quiet c -> (forall a, quiet (k a)) -> quiet (bind c k).
Proof.
  intros Hc Hk s. unfold bind. specialize (Hc s).
  destruct (c s) as [[a | e] s1]; simpl in *.
  - specialize (Hk a s1).
    destruct Hc as (H1 & H2 & H3 & H4), Hk as (K1 & K2 & K3 & K4).
    repeat split; congruence.
  - exact Hc.
Qed.

Lemma quiet_get_self : quiet get_self.
Proof. intros s. simpl. auto. Qed.

Lemma quiet_next_raw : quiet (ask next_raw).
Proof. intros s. simpl. auto. Qed.

Lemma quiet_next_price : quiet (ask next_price).
Proof. intros s. simpl. auto. Qed.

Lemma quiet_if {A} (b : bool) (c1 c2 : M A) :
  quiet c1 -> quiet c2 -> quiet (if b then c1 else c2).
Proof. now destruct b. Qed.

Lemma quiet_match_option {A B} (o : option B) (c1 : B -> M A) (c2 : M A) :
  (forall b, quiet (c1 b)) -> quiet c2 ->
  quiet (match o with Some b => c1 b | None => c2 end).
Proof. destruct o; auto. Qed.

Lemma quiet_match_nat {A} (n : nat) (c1 : M A) (c2 : nat -> M A) :
  quiet c1 -> (forall m, quiet (c2 m)) ->
  quiet (match n with O => c1 | S m => c2 m end).
Proof. destruct n; auto. Qed.

Create HintDb quiet.
#[local] Hint Resolve quiet_ret quiet_raise quiet_get_self quiet_next_raw
  quiet_next_price quiet_if quiet_match_option quiet_match_nat : quiet.
#[local] Hint Extern 1 (quiet (bind _ _)) => apply quiet_bind; [| intros ?] : quiet.
#[local] Hint Extern 1 (quiet (let '(_, _) := ?p in _)) => destruct p : quiet.

Lemma quiet_randbelow n : quiet (randbelow n).
Proof. unfold randbelow. auto with quiet. Qed.

Lemma quiet_random : quiet random.
Proof. unfold random. auto with quiet. Qed.
#[local] Hint Resolve quiet_randbelow quiet_random : quiet.

Lemma quiet_uniform a b : quiet (uniform a b).
Proof. unfold uniform. auto with quiet. Qed.

Lemma quiet_randint a b : quiet (randint a b).
Proof. unfold randint. auto with quiet. Qed.

Lemma quiet_shuffle_loop {A} i : forall x : list A, quiet (shuffle_loop i x).
Proof. induction i as [| i IH]; intros x; simpl; auto with quiet. Qed.

Lemma quiet_shuffle {A} (x : list A) : quiet (shuffle x).
Proof. apply quiet_shuffle_loop. Qed.

Lemma quiet_randoms n : quiet (randoms n).
Proof. induction n as [| n IH]; simpl; auto with quiet. Qed.

Lemma quiet_wallet_named w : quiet (wallet_named w).
Proof. unfold wallet_named. auto with quiet. Qed.
#[local] Hint Resolve quiet_uniform quiet_randint quiet_shuffle quiet_randoms
  quiet_wallet_named : quiet.

Lemma quiet_wallets_named ids : quiet (wallets_named ids).
Proof. induction ids as [| w ids IH]; simpl; auto with quiet. Qed.

Lemma quiet_get_current_price symbol : quiet (_get_current_price symbol).
Proof. unfold _get_current_price. auto with quiet. Qed.
#[local] Hint Resolve quiet_wallets_named quiet_get_current_price : quiet.

Lemma quiet_split ws : quiet (split_wallets_into_teams ws).
Proof. unfold split_wallets_into_teams. auto 10 with quiet. Qed.

Lemma quiet_allocate total mq d n : quiet (allocate total mq d n).
Proof. unfold allocate. auto 10 with quiet. Qed.
#[local] Hint Resolve quiet_split quiet_allocate : quiet.

Lemma quiet_distribute total n symbol :
  quiet (distribute_quantity_in_teams total n symbol).
Proof. unfold distribute_quantity_in_teams. auto 10 with quiet. Qed.

Lemma quiet_calculate_position_size symbol : quiet (calculate_position_size symbol).
Proof. unfold calculate_position_size. auto 12 with quiet. Qed.
#[local] Hint Resolve quiet_distribute quiet_calculate_position_size : quiet.

Lemma quiet_team_hedge_allocation symbol : quiet (team_hedge_allocation symbol).
Proof. unfold team_hedge_allocation. auto 20 with quiet. Qed.
#[local] Hint Resolve quiet_team_hedge_allocation : quiet.

Lemma quiet_team_hedge_plan symbol : quiet (team_hedge_plan symbol).
Proof. unfold team_hedge_plan. auto 10 with quiet. Qed.

(** ** Opening and rolling back *)

Lemma successes_le n feed i : (successes n feed i <= n)%nat.
Proof.
  revert i. induction n as [| n IH]; intros i; simpl; [lia |].
  destruct (feed i); [specialize (IH (S i)) |]; lia.
Qed.

Lemma successes_all n feed i :
  (forall j, (j < n)%nat -> feed (i + j)%nat = true) -> successes n feed i = n.
Proof.
  revert i. induction n as [| n IH]; intros i H; simpl; [reflexivity |].
  rewrite <- (Nat.add_0_r i) at 1. rewrite H by lia. f_equal.
  apply IH. intros j Hj. replace (S i + j)%nat with (i + S j)%nat by lia.
  apply H. lia.
Qed.

Lemma successes_first_failure n feed i k :
  (k < n)%nat ->
  (forall j, (j < k)%nat -> feed (i + j)%nat = true) ->
  feed (i + k)%nat = false ->
  successes n feed i = k.
Proof.
  revert i k. induction n as [| n IH]; intros i k Hk Hok Hfail; [lia |].
  simpl. destruct k as [| k].
  - rewrite Nat.add_0_r in Hfail. now rewrite Hfail.
  - rewrite <- (Nat.add_0_r i) at 1. rewrite Hok by lia. f_equal.
    apply IH; [lia | |].
    + intros j Hj. replace (S i + j)%nat with (i + S j)%nat by lia. apply Hok. lia.
    + replace (S i + k)%nat with (i + S k)%nat by lia. exact Hfail.
Qed.

Lemma legs_of_app side team a b :
  legs_of side team (a ++ b) = (legs_of side team a ++ legs_of side team b)%list.
Proof. apply map_app. Qed.

(** The order loop stops at the first refused order: it has then issued
    the orders of the members before it and its own. *)
Lemma open_legs_eq (symbol : string) (side : Side) (team : Team)
    (pairs : list (string * Q)) :
  forall (acc : list Leg) (s : Sys),
    Forall (fun p => In (fst p) (wallets (self s))) pairs ->
    let feed := order_feed (env s) in
    let k := successes (List.length pairs) feed (opos (env s)) in
    let failed := (k <? List.length pairs)%nat in
    open_legs symbol side team pairs acc s
    = (Py.Ok (failed, (acc ++ legs_of side team (firstn k pairs))%list),
       mkSys (self s)
             (issue (env s)
                (opening_orders symbol side
                   (firstn (if failed then S k else k) pairs) feed (opos (env s))))).
Proof.
  induction pairs as [| [wallet_id quantity] rest IH]; intros acc s Hreg.
  - simpl. unfold ret. rewrite issue_nil, app_nil_r. now destruct s.
  - inversion Hreg as [| ? ? Hw Hrest]; subst. simpl in Hw.
    cbn [open_legs]. unfold bind at 1. rewrite wallet_named_ok by assumption.
    unfold bind at 1. rewrite place_order_eq.
    cbn [successes List.length].
    destruct (order_feed (env s) (opos (env s))) eqn:Hfeed; cbn [negb].
    + rewrite IH by assumption. cbn [env self order_feed opos issue List.length Nat.add].
      rewrite issue_issue. cbn [firstn legs_of List.map fst snd].
      rewrite <- app_assoc.
      change (S ?a <? S ?b)%nat with (a <? b)%nat.
      destruct (successes (List.length rest) (order_feed (env s)) (S (opos (env s)))
                <? List.length rest)%nat;
        cbn [firstn opening_orders app]; rewrite Hfeed; reflexivity.
    + unfold ret. cbn [firstn legs_of List.map Nat.ltb Nat.leb opening_orders].
      rewrite app_nil_r, Hfeed. reflexivity.
Qed.

Lemma roll_back_eq (symbol : string) (legs : list Leg) :
  forall s : Sys,
    Forall (fun pos => In (leg_wallet pos) (wallets (self s))) legs ->
    roll_back symbol legs s
    = (Py.Ok tt,
       mkSys (self s)
             (issue (env s)
                (closing_orders symbol legs (order_feed (env s)) (opos (env s))))).
Proof.
  induction legs as [| pos rest IH]; intros s Hreg; simpl.
  - unfold ret. rewrite issue_nil. now destruct s.
  - inversion Hreg as [| ? ? Hpos Hrest]; subst.
    unfold bind at 1. rewrite wallet_named_ok by assumption.
    unfold bind at 1. unfold close_position. rewrite place_order_eq.
    rewrite IH by assumption. simpl. now rewrite issue_issue.
Qed.

Lemma opening_orders_length symbol side pairs feed i :
  List.length (opening_orders symbol side pairs feed i) = List.length pairs.
Proof.
  revert i. induction pairs as [| [w q] rest IH]; intros i; simpl; auto.
Qed.

Lemma opening_orders_wallets symbol side pairs feed i :
  List.map o_wallet (opening_orders symbol side pairs feed i) = List.map fst pairs.
Proof.
  revert i. induction pairs as [| [w q] rest IH]; intros i; simpl; [| rewrite IH]; auto.
Qed.

Lemma legs_of_wallets side team pairs :
  List.map leg_wallet (legs_of side team pairs) = List.map fst pairs.
Proof. unfold legs_of. rewrite map_map. reflexivity. Qed.

Lemma registered_pairs (t : Trader) (team : list string) (quantities : list Q) :
  Forall (fun w => In w (wallets t)) team ->
  Forall (fun p => In (fst p) (wallets t)) (combine team quantities).
Proof.
  rewrite !Forall_forall. intros H [w q] Hin. simpl.
  apply H. eapply in_combine_l. exact Hin.
Qed.

Lemma registered_firstn {A} (P : A -> Prop) (n : nat) (l : list A) :
  Forall P l -> Forall P (firstn n l).
Proof.
  intros H. rewrite <- (firstn_skipn n l) in H. now apply Forall_app in H.
Qed.

Lemma registered_legs (t : Trader) side team pairs :
  Forall (fun p => In (fst p) (wallets t)) pairs ->
  Forall (fun pos => In (leg_wallet pos) (wallets t)) (legs_of side team pairs).
Proof.
  unfold legs_of. rewrite Forall_map. apply Forall_impl. auto.
Qed.

Section Execute.

Variables (symbol : string) (p : Plan) (s : Sys).

Let long_pairs := combine (long_team p) (long_quantities p).
Let short_pairs := combine (short_team p) (short_quantities p).
Let feed := order_feed (env s).
Let o := opos (env s).
Let n := List.length long_pairs.
Let kl := successes n feed o.
Let ks := successes (List.length short_pairs) feed (n + o).

Hypothesis long_registered : Forall (fun w => In w (wallets (self s))) (long_team p).
Hypothesis short_registered : Forall (fun w => In w (wallets (self s))) (short_team p).

(** A refused BUY order: the legs opened before it are closed again. *)
Lemma execute_long_failure :
  (kl < n)%nat ->
  execute_team_hedge symbol p s
  = (Py.Ok false,
     mkSys (self s)
       (issue (env s)
          (opening_orders symbol BUY (firstn (S kl) long_pairs) feed o
           ++ closing_orders symbol (legs_of BUY LONG (firstn kl long_pairs))
                             feed (S kl + o)))).
Proof.
  intros Hk. unfold execute_team_hedge.
  unfold bind at 1. rewrite open_legs_eq by now apply registered_pairs.
  fold long_pairs feed o n kl.
  apply Nat.ltb_lt in Hk as Hb. rewrite Hb. cbn [negb app].
  unfold bind at 1. unfold ret at 1. cbn iota beta.
  unfold bind. rewrite roll_back_eq.
  2:{ apply registered_legs, registered_firstn. now apply registered_pairs. }
  cbn [self env order_feed opos issue]. unfold ret.
  rewrite opening_orders_length, length_firstn, Nat.min_l by lia.
  fold feed o. f_equal. f_equal.
  unfold issue. cbn [raw rpos price_feed ppos order_feed opos clock cpos trace].
  rewrite !length_app, opening_orders_length, length_firstn, Nat.min_l by lia.
  rewrite <- app_assoc. f_equal. lia.
Qed.

(** A refused SELL order: every leg opened so far is closed again. *)
Lemma execute_short_failure :
  kl = n -> (ks < List.length short_pairs)%nat ->
  execute_team_hedge symbol p s
  = (Py.Ok false,
     mkSys (self s)
       (issue (env s)
          (opening_orders symbol BUY long_pairs feed o
           ++ opening_orders symbol SELL (firstn (S ks) short_pairs) feed (n + o)
           ++ closing_orders symbol
                (legs_of BUY LONG long_pairs
                 ++ legs_of SELL SHORT (firstn ks short_pairs))
                feed (S ks + (n + o))))).
Proof.
  intros Hl Hk. unfold execute_team_hedge.
  unfold bind at 1. rewrite open_legs_eq by now apply registered_pairs.
  fold long_pairs feed o n kl. rewrite Hl, Nat.ltb_irrefl.
  replace (firstn n long_pairs) with long_pairs by (symmetry; apply firstn_all).
  cbn [negb app].
  unfold bind at 1. rewrite open_legs_eq by now apply registered_pairs.
  cbn [self env order_feed opos issue]. rewrite opening_orders_length.
  fold short_pairs feed o n ks.
  apply Nat.ltb_lt in Hk as Hb. rewrite Hb.
  unfold bind. rewrite roll_back_eq.
  2:{ cbn [self]. apply Forall_app. split; apply registered_legs.
      - now apply registered_pairs.
      - apply registered_firstn. now apply registered_pairs. }
  cbn [self env order_feed opos issue]. unfold ret.
  rewrite !opening_orders_length, length_firstn, Nat.min_l by lia.
  fold feed o n. f_equal. f_equal.
  unfold issue. cbn [raw rpos price_feed ppos order_feed opos clock cpos trace].
  rewrite !length_app, !opening_orders_length, closing_orders_length.
  rewrite length_firstn, Nat.min_l by lia.
  rewrite <- !app_assoc. f_equal. lia.
Qed.

(** Every order accepted: the legs are recorded under the symbol. *)
Lemma execute_success :
  kl = n -> ks = List.length short_pairs ->
  exists s',
    execute_team_hedge symbol p s = (Py.Ok true, s')
    /\ active_positions (self s')
       = Py.dict_set (active_positions (self s)) symbol
           (legs_of BUY LONG long_pairs ++ legs_of SELL SHORT short_pairs)%list
    /\ (exists timer,
          position_timers (self s')
          = Py.dict_set (position_timers (self s)) symbol timer)
    /\ wallets (self s') = wallets (self s)
    /\ symbols (self s') = symbols (self s)
    /\ config (self s') = config (self s)
    /\ trace (env s')
       = (trace (env s)
          ++ opening_orders symbol BUY long_pairs feed o
          ++ opening_orders symbol SELL short_pairs feed (n + o))%list.
Proof.
  intros Hl Hk. unfold execute_team_hedge.
  unfold bind at 1. rewrite open_legs_eq by now apply registered_pairs.
  fold long_pairs feed o n kl. rewrite Hl, Nat.ltb_irrefl.
  replace (firstn n long_pairs) with long_pairs by (symmetry; apply firstn_all).
  cbn [negb app].
  unfold bind at 1. rewrite open_legs_eq by now apply registered_pairs.
  cbn [self env order_feed opos issue]. rewrite opening_orders_length.
  fold short_pairs feed o n ks. rewrite Hk, Nat.ltb_irrefl, firstn_all.
  fold n.
  unfold bind at 1. unfold get_self at 1.
  unfold bind at 1. unfold uniform, random, bind, ask, ret. cbn [env self next_raw].
  rewrite !wallets_named_ok by assumption.
  cbn. eexists. split; [reflexivity |]. cbn.
  rewrite <- app_assoc.
  split; [reflexivity |]. split; [eexists; reflexivity |].
  repeat split.
Qed.

End Execute.

(** ** Lists updated by index *)

Lemma length_set_nth {A} (l : list A) (i : nat) (v : A) :
  List.length (Py.set_nth l i v) = List.length l.
Proof.
  revert i. induction l as [| h t IH]; intros [| i]; simpl; auto.
Qed.

Lemma set_nth_app_r {A} (l1 l2 : list A) (k : nat) (v : A) :
  Py.set_nth (l1 ++ l2) (List.length l1 + k) v = (l1 ++ Py.set_nth l2 k v)%list.
Proof.
  induction l1 as [| h t IH]; simpl; [reflexivity | now rewrite IH].
Qed.

Lemma nth_set_nth_eq {A} (l : list A) (i : nat) (v d : A) :
  (i < List.length l)%nat -> nth i (Py.set_nth l i v) d = v.
Proof.
  revert i. induction l as [| h t IH]; intros [| i]; simpl; intros H;
    try lia; auto. apply IH. lia.
Qed.

Lemma nth_set_nth_neq {A} (l : list A) (i j : nat) (v d : A) :
  i <> j -> nth i (Py.set_nth l j v) d = nth i l d.
Proof.
  revert i j. induction l as [| h t IH]; intros [| i] [| j]; simpl; intros H;
    try congruence; auto.
Qed.

Lemma length_swap {A} (x : list A) (i j : nat) :
  List.length (Py.swap x i j) = List.length x.
Proof.
  unfold Py.swap. destruct (nth_error x i), (nth_error x j); auto.
  now rewrite !length_set_nth.
Qed.

(** After [x[i], x[j] = x[j], x[i]] position [i] holds the old [x[j]]. *)
Lemma nth_swap_left {A} (x : list A) (i j : nat) (d : A) :
  (i < List.length x)%nat -> (j < List.length x)%nat ->
  nth i (Py.swap x i j) d = nth j x d.
Proof.
  intros Hi Hj. unfold Py.swap.
  destruct (nth_error x i) as [a |] eqn:Ea;
    [| apply nth_error_None in Ea; lia].
  destruct (nth_error x j) as [b |] eqn:Eb;
    [| apply nth_error_None in Eb; lia].
  apply (nth_error_nth _ _ d) in Ea. apply (nth_error_nth _ _ d) in Eb.
  destruct (Nat.eq_dec i j) as [-> | Hne].
  - rewrite nth_set_nth_eq by (rewrite length_set_nth; lia). congruence.
  - rewrite nth_set_nth_neq by assumption.
    rewrite nth_set_nth_eq by lia. congruence.
Qed.

Lemma swap_shape {A} (l1 l2 l3 : list A) (a b : A) :
  let x := (l1 ++ a :: l2 ++ b :: l3)%list in
  let i := List.length l1 in
  let j := (List.length l1 + S (List.length l2))%nat in
  Py.swap x i j = (l1 ++ b :: l2 ++ a :: l3)%list
  /\ Py.swap x j i = (l1 ++ b :: l2 ++ a :: l3)%list.
Proof.
  intros x i j.
  assert (Ea : nth_error x i = Some a).
  { unfold x, i. rewrite nth_error_app2 by lia. now rewrite Nat.sub_diag. }
  assert (Eb : nth_error x j = Some b).
  { unfold x, j. rewrite nth_error_app2 by lia.
    replace (List.length l1 + S (List.length l2) - List.length l1)%nat
      with (S (List.length l2)) by lia.
    simpl. rewrite nth_error_app2 by lia. now rewrite Nat.sub_diag. }
  assert (S1 : forall u v,
    Py.set_nth (l1 ++ u :: l2 ++ v :: l3) i b = (l1 ++ b :: l2 ++ v :: l3)%list).
  { intros u v. unfold i. rewrite <- (Nat.add_0_r (List.length l1)).
    now rewrite set_nth_app_r. }
  assert (S2 : forall u v,
    Py.set_nth (l1 ++ u :: l2 ++ v :: l3) j a = (l1 ++ u :: l2 ++ a :: l3)%list).
  { intros u v. unfold j. rewrite set_nth_app_r. simpl. do 2 f_equal.
    rewrite <- (Nat.add_0_r (List.length l2)). now rewrite set_nth_app_r. }
  unfold Py.swap. rewrite Ea, Eb. fold x. split.
  - unfold x. now rewrite S1, S2.
  - unfold x. now rewrite S2, S1.
Qed.

Lemma swap_same {A} (x : list A) (i : nat) : Py.swap x i i = x.
Proof.
  unfold Py.swap. destruct (nth_error x i) as [a |] eqn:E; [| reflexivity].
  apply nth_error_split in E. destruct E as (l1 & l2 & -> & <-).
  rewrite <- (Nat.add_0_r (List.length l1)).
  rewrite set_nth_app_r. simpl. rewrite set_nth_app_r. reflexivity.
Qed.

Lemma swap_Permutation {A} (x : list A) (i j : nat) :
  Permutation (Py.swap x i j) x.
Proof.
  assert (Hshape : forall (l1 l2 l3 : list A) a b,
    Permutation (l1 ++ b :: l2 ++ a :: l3) (l1 ++ a :: l2 ++ b :: l3)).
  { intros l1 l2 l3 a b. apply Permutation_app_head.
    rewrite <- (Permutation_middle l2 l3 a), <- (Permutation_middle l2 l3 b).
    apply perm_swap. }
  destruct (Nat.lt_trichotomy i j) as [Hlt | [-> | Hgt]].
  - destruct (nth_error x j) as [b |] eqn:Eb.
    + apply nth_error_split in Eb. destruct Eb as (l & l3 & -> & Hj).
      assert (Ei : (i < List.length l)%nat) by lia.
      destruct (nth_error l i) as [a |] eqn:Ea;
        [| apply nth_error_None in Ea; lia].
      apply nth_error_split in Ea. destruct Ea as (l1 & l2 & -> & Hi).
      rewrite <- app_assoc. simpl.
      replace j with (List.length l1 + S (List.length l2))%nat
        by (rewrite <- Hj, length_app; simpl; lia).
      rewrite <- Hi. rewrite (proj1 (swap_shape l1 l2 l3 a b)). apply Hshape.
    + unfold Py.swap. rewrite Eb. now destruct (nth_error x i).
  - now rewrite swap_same.
  - destruct (nth_error x i) as [b |] eqn:Eb.
    + apply nth_error_split in Eb. destruct Eb as (l & l3 & -> & Hi).
      assert (Ej : (j < List.length l)%nat) by lia.
      destruct (nth_error l j) as [a |] eqn:Ea;
        [| apply nth_error_None in Ea; lia].
      apply nth_error_split in Ea. destruct Ea as (l1 & l2 & -> & Hj).
      rewrite <- app_assoc. simpl.
      replace i with (List.length l1 + S (List.length l2))%nat
        by (rewrite <- Hi, length_app; simpl; lia).
      rewrite <- Hj. rewrite (proj2 (swap_shape l1 l2 l3 a b)). apply Hshape.
    + unfold Py.swap. now rewrite Eb.
Qed.

(** ** Shuffling and splitting *)

Lemma advance_raw_0 (w : World) : advance_raw w 0 = w.
Proof. now destruct w. Qed.

Lemma randbelow_eq (n : nat) (s : Sys) :
  randbelow n s
  = (Py.Ok (Z.to_nat (raw (env s) (rpos (env s)) mod Z.of_nat n)),
     mkSys (self s) (advance_raw (env s) 1)).
Proof. reflexivity. Qed.

Lemma shuffle_loop_eq {A} (i : nat) :
  forall (x : list A) (s : Sys),
    shuffle_loop i x s
    = (Py.Ok (shuffle_with i x (shuffle_draws i (raw (env s)) (rpos (env s)))),
       mkSys (self s) (advance_raw (env s) i)).
Proof.
  induction i as [| i IH]; intros x s.
  - simpl. unfold ret. rewrite advance_raw_0. now destruct s.
  - cbn [shuffle_loop shuffle_draws shuffle_with].
    unfold bind. rewrite randbelow_eq, IH. cbn [env self advance_raw raw rpos].
    do 2 f_equal. unfold advance_raw. cbn. f_equal. lia.
Qed.

Lemma shuffle_with_Permutation {A} (i : nat) :
  forall (x : list A) (choices : list nat),
    Permutation (shuffle_with i x choices) x.
Proof.
  induction i as [| i IH]; intros x [| j rest]; simpl; try reflexivity.
  rewrite IH. apply swap_Permutation.
Qed.

Lemma randbelow_bound (r : Z) (n : nat) :
  (0 < n)%nat -> (Z.to_nat (r mod Z.of_nat n) < n)%nat.
Proof.
  intros H. pose proof (Z.mod_pos_bound r (Z.of_nat n)). lia.
Qed.

Lemma split_ok (ws : list string) (s : Sys) :
  (2 <= List.length ws)%nat ->
  Forall (fun w => In w (wallets (self s))) ws ->
  split_wallets_into_teams ws s
  = (Py.Ok (split_with
              (shuffle_draws (List.length ws - 1) (raw (env s)) (rpos (env s)))
              (size_draw (List.length ws) (raw (env s)) (rpos (env s))) ws),
     mkSys (self s) (advance_raw (env s) (List.length ws))).
Proof.
  intros Hlen Hreg. unfold split_wallets_into_teams.
  destruct (List.length ws <? 2)%nat eqn:E; [apply Nat.ltb_lt in E; lia |].
  unfold bind at 1. unfold shuffle. rewrite shuffle_loop_eq.
  unfold bind at 1. unfold randint.
  destruct (List.length ws - 1 <? 1)%nat eqn:E1; [apply Nat.ltb_lt in E1; lia |].
  unfold bind at 1. rewrite randbelow_eq. unfold ret at 1.
  cbn [env self advance_raw raw rpos].
  replace (List.length ws - 1 - 1 + 1)%nat with (List.length ws - 1)%nat by lia.
  set (sh := shuffle_with _ ws _).
  assert (Hsh : Forall (fun w => In w (wallets (self s))) sh).
  { rewrite Forall_forall in *. intros w Hw. apply Hreg.
    eapply Permutation_in; [apply shuffle_with_Permutation | exact Hw]. }
  set (sz := (1 + _)%nat).
  unfold bind. rewrite !wallets_named_ok.
  - unfold ret, split_with, size_draw. fold sh. f_equal.
    unfold advance_raw. cbn. f_equal. f_equal. lia.
  - cbn [self]. rewrite <- (firstn_skipn sz sh) in Hsh. now apply Forall_app in Hsh.
  - cbn [self]. now apply registered_firstn.
Qed.

Lemma split_with_facts (choices : list nat) (r : nat) (ws : list string) :
  (r < List.length ws - 1)%nat ->
  let teams := split_with choices r ws in
  Permutation (fst teams ++ snd teams) ws
  /\ List.length (fst teams) = (1 + r)%nat
  /\ List.length (snd teams) = (List.length ws - (1 + r))%nat.
Proof.
  intros Hr. unfold split_with. cbn [fst snd].
  set (sh := shuffle_with _ ws choices).
  assert (Hlen : List.length sh = List.length ws).
  { apply Permutation_length, shuffle_with_Permutation. }
  split; [| split].
  - rewrite firstn_skipn. apply shuffle_with_Permutation.
  - rewrite length_firstn. lia.
  - rewrite length_skipn. lia.
Qed.

(** Whatever comes back from [split_wallets_into_teams] is the split of
    the outcomes drawn, and every member is a registered wallet. *)
Lemma split_inv (ws long short : list string) (s s' : Sys) :
  split_wallets_into_teams ws s = (Py.Ok (long, short), s') ->
  (2 <= List.length ws)%nat
  /\ (long, short)
     = split_with (shuffle_draws (List.length ws - 1) (raw (env s)) (rpos (env s)))
                  (size_draw (List.length ws) (raw (env s)) (rpos (env s))) ws
  /\ Forall (fun w => In w (wallets (self s))) (long ++ short).
Proof.
  unfold split_wallets_into_teams.
  destruct (List.length ws <? 2)%nat eqn:E; [discriminate |].
  apply Nat.ltb_ge in E.
  unfold bind at 1. unfold shuffle. rewrite shuffle_loop_eq.
  unfold bind at 1. unfold randint.
  destruct (List.length ws - 1 <? 1)%nat eqn:E1; [apply Nat.ltb_lt in E1; lia |].
  unfold bind at 1. rewrite randbelow_eq. unfold ret at 1.
  cbn [env self advance_raw raw rpos].
  replace (List.length ws - 1 - 1 + 1)%nat with (List.length ws - 1)%nat by lia.
  set (sh := shuffle_with _ ws _). set (sz := (1 + _)%nat).
  unfold bind.
  destruct (wallets_named (firstn sz sh) _) as [[[] | e] s1] eqn:W1; [| discriminate].
  apply wallets_named_inv in W1. destruct W1 as [-> W1].
  destruct (wallets_named (skipn sz sh) _) as [[[] | e] s2] eqn:W2; [| discriminate].
  apply wallets_named_inv in W2. destruct W2 as [-> W2].
  unfold ret. intros H. inversion H; subst. clear H.
  split; [assumption |]. split.
  - unfold split_with, size_draw. fold sh. now rewrite Nat.add_comm.
  - apply Forall_app. split; [apply W1 | apply W2]; reflexivity.
Qed.

(** ** What a plan is made of *)

Lemma allocation_inv (symbol : string) (s s1 : Sys) (p : Plan) :
  team_hedge_allocation symbol s = (Py.Ok (Some p), s1) ->
  exists sa sb sc,
    self sa = self s
    /\ split_wallets_into_teams (get_available_wallets (self s)) sa
       = (Py.Ok (long_team p, short_team p), sb)
    /\ distribute_quantity_in_teams (total_quantity p)
         (List.length (long_team p)) symbol sb
       = (Py.Ok (long_quantities p), sc)
    /\ distribute_quantity_in_teams (total_quantity p)
         (List.length (short_team p)) symbol sc
       = (Py.Ok (short_quantities p), s1).
Proof.
  unfold team_hedge_allocation. intros H.
  apply bind_ok_inv in H. destruct H as (t & s0 & Ht & H).
  unfold get_self in Ht. inversion Ht; subst t s0. clear Ht.
  destruct (List.length (get_available_wallets (self s)) <? 2)%nat;
    [discriminate |].
  apply bind_ok_inv in H. destruct H as (total & s2 & Hsize & H).
  destruct (Qeq_bool total 0); [discriminate |].
  apply bind_ok_inv in H. destruct H as (price & s3 & Hprice & H).
  destruct (truthy price) as [pr |]; [| discriminate].
  destruct (Py.Qlt_bool total _); [discriminate |].
  apply bind_ok_inv in H. destruct H as ([long short] & s4 & Hsplit & H).
  apply bind_ok_inv in H. destruct H as (lq & s5 & Hlq & H).
  apply bind_ok_inv in H. destruct H as (sq & s6 & Hsq & H).
  unfold ret in H. inversion H; subst. clear H. cbn [long_team short_team
    long_quantities short_quantities total_quantity].
  exists s3, s4, s5. repeat split; try assumption.
  pose proof (quiet_calculate_position_size symbol s) as Q1.
  pose proof (quiet_get_current_price symbol s2) as Q2.
  rewrite Hsize in Q1. rewrite Hprice in Q2. cbn [snd] in *.
  destruct Q1 as [Q1 _], Q2 as [Q2 _]. congruence.
Qed.

Lemma plan_inv (symbol : string) (s s1 : Sys) (p : Plan) :
  team_hedge_plan symbol s = (Py.Ok (Some p), s1) ->
  exists s0 price,
    team_hedge_allocation symbol s = (Py.Ok (Some p), s0)
    /\ truthy (price_feed (env s0) (ppos (env s0))) = Some price
    /\ s1 = mkSys (self s0) (next_price_world (env s0)).
Proof.
  unfold team_hedge_plan. intros H.
  apply bind_ok_inv in H. destruct H as ([p' |] & s0 & Ha & H); [| discriminate].
  unfold bind, _get_current_price, ask in H. cbn in H.
  destruct (truthy (price_feed (env s0) (ppos (env s0)))) as [price |] eqn:E;
    [| discriminate].
  unfold ret in H. inversion H; subst. now exists s0, price.
Qed.

(** The facts about a plan that the order loops rely on. *)
Lemma plan_facts (symbol : string) (s s1 : Sys) (p : Plan) :
  team_hedge_plan symbol s = (Py.Ok (Some p), s1) ->
  self s1 = self s
  /\ order_feed (env s1) = order_feed (env s)
  /\ opos (env s1) = opos (env s)
  /\ trace (env s1) = trace (env s)
  /\ Forall (fun w => In w (wallets (self s))) (long_team p)
  /\ Forall (fun w => In w (wallets (self s))) (short_team p)
  /\ Permutation (long_team p ++ short_team p) (get_available_wallets (self s))
  /\ long_team p <> [] /\ short_team p <> [].
Proof.
  intros H. pose proof (quiet_team_hedge_plan symbol s) as Q.
  rewrite H in Q. cbn [snd] in Q. destruct Q as (Q1 & Q2 & Q3 & Q4).
  repeat (split; [assumption |]).
  apply plan_inv in H. destruct H as (s0 & price & H & _ & _).
  apply allocation_inv in H. destruct H as (sa & sb & sc & Hself & Hsplit & _).
  apply split_inv in Hsplit. destruct Hsplit as (Hlen & Hteams & Hreg).
  rewrite Hself in Hreg. apply Forall_app in Hreg.
  destruct Hreg as [Hl Hs]. repeat (split; [assumption |]).
  set (ws := get_available_wallets (self s)) in *.
  pose proof (split_with_facts
                (shuffle_draws (List.length ws - 1) (raw (env sa)) (rpos (env sa)))
                (size_draw (List.length ws) (raw (env sa)) (rpos (env sa))) ws) as F.
  rewrite <- Hteams in F. cbn [fst snd] in F.
  destruct F as (F1 & F2 & F3).
  { unfold size_draw. apply randbelow_bound. lia. }
  split; [assumption |].
  split; intros E; rewrite E in *; simpl in *; try lia.
  assert (size_draw (List.length ws) (raw (env sa)) (rpos (env sa))
          < List.length ws - 1)%nat
    by (unfold size_draw; apply randbelow_bound; lia).
  lia.
Qed.

Lemma open_after_plan (symbol : string) (s s1 : Sys) (p : Plan) :
  team_hedge_plan symbol s = (Py.Ok (Some p), s1) ->
  open_team_hedge_position symbol s = execute_team_hedge symbol p s1.
Proof.
  intros H. unfold open_team_hedge_position, bind. now rewrite H.
Qed.

(** ** Failures while opening *)

(** C1, as the code has it.  When the BUY order of long-team member [k] is
    refused, the run issues no further BUY order and no SELL order for the
    short team, closes the [k - 1] long legs opened before it with one
    opposite-side order each, in the order they were opened, leaves the
    trader's state as it was and returns [False].  Nothing is closed only
    when [k = 1]. *)
Theorem long_leg_failure_rolls_back
    (symbol : string) (s s1 : Sys) (p : Plan) (k : nat) :
  team_hedge_plan symbol s = (Py.Ok (Some p), s1) ->
  let long_pairs := combine (long_team p) (long_quantities p) in
  let feed := order_feed (env s) in
  let o := opos (env s) in
  (1 <= k <= List.length long_pairs)%nat ->
  (forall i, (i < k - 1)%nat -> feed (o + i)%nat = true) ->
  feed (o + (k - 1))%nat = false ->
  let opened := legs_of BUY LONG (firstn (k - 1) long_pairs) in
  let result := open_team_hedge_position symbol s in
  fst result = Py.Ok false
  /\ trace (env (snd result))
     = (trace (env s)
        ++ opening_orders symbol BUY (firstn k long_pairs) feed o
        ++ closing_orders symbol opened feed (k + o))%list
  /\ List.length opened = (k - 1)%nat
  /\ self (snd result) = self s.
Proof.
  intros Hplan long_pairs feed o Hk Hok Hfail opened result.
  destruct (plan_facts _ _ _ _ Hplan) as (Hself & Hfeed & Hopos & Htrace & Hl & Hs & _).
  unfold result. rewrite (open_after_plan _ _ _ _ Hplan).
  rewrite <- Hself in Hl, Hs.
  assert (Hsucc : successes (List.length long_pairs) feed o = (k - 1)%nat).
  { apply successes_first_failure; [lia | assumption | assumption]. }
  rewrite execute_long_failure; try assumption;
    rewrite Hfeed, Hopos; fold long_pairs feed o; rewrite Hsucc; [| lia].
  replace (S (k - 1)) with k by lia.
  cbn [fst snd env self issue trace]. rewrite Htrace.
  repeat split; try assumption.
  unfold opened, legs_of. rewrite length_map, length_firstn. lia.
Qed.

(** C2.  When every BUY order is accepted and the SELL order of short-team
    member [k] is refused, the run issues no further SELL order, closes
    every leg opened so far (all long legs, then the [k - 1] short legs)
    with one opposite-side order each, in the order they were opened,
    leaves the trader's state, and so its live positions, as it was and
    returns [False]. *)
Theorem short_leg_failure_rolls_back
    (symbol : string) (s s1 : Sys) (p : Plan) (k : nat) :
  team_hedge_plan symbol s = (Py.Ok (Some p), s1) ->
  let long_pairs := combine (long_team p) (long_quantities p) in
  let short_pairs := combine (short_team p) (short_quantities p) in
  let feed := order_feed (env s) in
  let o := opos (env s) in
  let n := List.length long_pairs in
  (1 <= k <= List.length short_pairs)%nat ->
  (forall i, (i < n + (k - 1))%nat -> feed (o + i)%nat = true) ->
  feed (o + (n + (k - 1)))%nat = false ->
  let opened :=
    (legs_of BUY LONG long_pairs
     ++ legs_of SELL SHORT (firstn (k - 1) short_pairs))%list in
  let result := open_team_hedge_position symbol s in
  fst result = Py.Ok false
  /\ trace (env (snd result))
     = (trace (env s)
        ++ opening_orders symbol BUY long_pairs feed o
        ++ opening_orders symbol SELL (firstn k short_pairs) feed (n + o)
        ++ closing_orders symbol opened feed (k + (n + o)))%list
  /\ List.length opened = (n + (k - 1))%nat
  /\ self (snd result) = self s
  /\ active_positions (self (snd result)) = active_positions (self s).
Proof.
  intros Hplan long_pairs short_pairs feed o n Hk Hok Hfail opened result.
  destruct (plan_facts _ _ _ _ Hplan) as (Hself & Hfeed & Hopos & Htrace & Hl & Hs & _).
  unfold result. rewrite (open_after_plan _ _ _ _ Hplan).
  rewrite <- Hself in Hl, Hs.
  assert (Hlong : successes n feed o = n).
  { apply successes_all. intros j Hj. apply Hok. lia. }
  assert (Hshort : successes (List.length short_pairs) feed (n + o) = (k - 1)%nat).
  { apply successes_first_failure; [lia | |].
    - intros j Hj. replace (n + o + j)%nat with (o + (n + j))%nat by lia.
      apply Hok. lia.
    - replace (n + o + (k - 1))%nat with (o + (n + (k - 1)))%nat by lia.
      exact Hfail. }
  rewrite execute_short_failure; try assumption;
    rewrite Hfeed, Hopos; fold long_pairs short_pairs feed o n;
    try rewrite Hshort; try assumption; [| lia].
  replace (S (k - 1)) with k by lia.
  cbn [fst snd env self issue trace]. rewrite Htrace, Hself.
  repeat split; try assumption.
  unfold opened, legs_of. rewrite length_app, !length_map, length_firstn.
  fold n. lia.
Qed.

(** With two long members and the second BUY order refused, the first leg
    is closed again: the run does issue an opposite-side order. *)
Lemma long_failure_counterexample : ~ long_failure_closes_nothing.
Proof.
  intros H.
  assert (E : exists p s1,
    team_hedge_plan "BTCUSDT" Scenario.second_buy_refused = (Py.Ok (Some p), s1))
    by (vm_compute; eauto).
  destruct E as (p & s1 & E).
  pose proof (H _ _ _ _ 2%nat E) as C. cbv zeta in C.
  vm_compute in E. injection E as <- <-.
  vm_compute in C. destruct C as [_ C].
  - lia.
  - intros [| [| x]] Hx; try reflexivity; lia.
  - reflexivity.
  - discriminate C.
Qed.

(** ** Teams longer than their allocation *)

Lemma map_fst_combine {A B} (l1 : list A) (l2 : list B) :
  List.map fst (combine l1 l2) = firstn (List.length l2) l1.
Proof.
  revert l2. induction l1 as [| a l1 IH]; intros [| b l2]; simpl; auto.
  now rewrite IH.
Qed.

Lemma NoDup_app_disjoint {A} (l1 l2 : list A) (x : A) :
  NoDup (l1 ++ l2) -> In x l1 -> In x l2 -> False.
Proof.
  induction l1 as [| a l1 IH]; simpl; intros H H1 H2; [assumption |].
  inversion H as [| ? ? Hnot Hrest]; subst.
  destruct H1 as [-> | H1].
  - apply Hnot, in_or_app. now right.
  - now apply IH.
Qed.

Lemma dict_get_set {V} (d : Py.dict V) (k : string) (v : V) :
  Py.dict_get (Py.dict_set d k v) k = Some v.
Proof.
  induction d as [| [k' v'] d IH]; simpl.
  - now rewrite String.eqb_refl.
  - destruct (String.eqb k k') eqn:E; simpl; rewrite E; auto.
Qed.

(** Served and skipped members of the two teams never coincide. *)
Lemma served_skipped_disjoint (long short : list string) (a b : nat) (w : string) :
  NoDup (long ++ short) ->
  In w (skipn a long ++ skipn b short) ->
  ~ In w (firstn a long ++ firstn b short).
Proof.
  intros Hnd Hskip Hserved.
  assert (P : Permutation (long ++ short)
                ((firstn a long ++ firstn b short)
                 ++ (skipn a long ++ skipn b short))).
  { rewrite <- (firstn_skipn a long) at 1. rewrite <- (firstn_skipn b short) at 1.
    rewrite <- !app_assoc. apply Permutation_app_head.
    rewrite !app_assoc. apply Permutation_app_tail. apply Permutation_app_comm. }
  eapply NoDup_app_disjoint; [| exact Hserved | exact Hskip].
  eapply Permutation_NoDup; [exact P | exact Hnd].
Qed.

(** C10.  [zip] pairs a team with its allocation and stops at the shorter
    of the two: every order of the run, opening or closing, goes to one of
    the first [len(allocation)] members of a team; the members after them
    receive no order and, when the position is recorded, are not among its
    legs. *)
Theorem orders_follow_the_allocation
    (symbol : string) (s s1 : Sys) (p : Plan) :
  team_hedge_plan symbol s = (Py.Ok (Some p), s1) ->
  NoDup (wallets (self s)) ->
  let served :=
    (firstn (List.length (long_quantities p)) (long_team p)
     ++ firstn (List.length (short_quantities p)) (short_team p))%list in
  let skipped :=
    (skipn (List.length (long_quantities p)) (long_team p)
     ++ skipn (List.length (short_quantities p)) (short_team p))%list in
  let result := open_team_hedge_position symbol s in
  exists issued,
    trace (env (snd result)) = (trace (env s) ++ issued)%list
    /\ Forall (fun o => In (o_wallet o) served) issued
    /\ (forall w, In w skipped -> ~ In w (List.map o_wallet issued))
    /\ (fst result = Py.Ok true ->
        exists legs,
          Py.dict_get (active_positions (self (snd result))) symbol = Some legs
          /\ List.map leg_wallet legs = served
          /\ forall w, In w skipped -> ~ In w (List.map leg_wallet legs)).
Proof.
  intros Hplan Hnd served skipped result.
  destruct (plan_facts _ _ _ _ Hplan)
    as (Hself & Hfeed & Hopos & Htrace & Hl & Hs & Hperm & _).
  assert (Hteams : NoDup (long_team p ++ short_team p)).
  { eapply Permutation_NoDup; [symmetry; exact Hperm |].
    now apply List.NoDup_filter. }
  assert (Hdisj : forall w, In w skipped -> ~ In w served).
  { intros w. now apply served_skipped_disjoint. }
  set (long_pairs := combine (long_team p) (long_quantities p)).
  set (short_pairs := combine (short_team p) (short_quantities p)).
  assert (Hserved : served = (List.map fst long_pairs ++ List.map fst short_pairs)%list).
  { unfold served, long_pairs, short_pairs. now rewrite !map_fst_combine. }
  assert (Hcut : forall k, incl (List.map fst (firstn k long_pairs)) served
                           /\ incl (List.map fst (firstn k short_pairs)) served).
  { intros k. rewrite Hserved. split; intros w Hw; apply in_or_app; [left | right];
      rewrite <- firstn_map in Hw;
      (rewrite <- (firstn_skipn k (List.map fst _)); apply in_or_app; now left). }
  assert (Hgoal : forall issued,
    incl (List.map o_wallet issued) served ->
    Forall (fun o => In (o_wallet o) served) issued
    /\ (forall w, In w skipped -> ~ In w (List.map o_wallet issued))).
  { intros issued Hincl. split.
    - rewrite Forall_forall. intros o Ho. apply Hincl. now apply in_map.
    - intros w Hw Hin. exact (Hdisj w Hw (Hincl w Hin)). }
  unfold result. rewrite (open_after_plan _ _ _ _ Hplan).
  rewrite <- Hself in Hl, Hs.
  set (n := List.length long_pairs).
  set (kl := successes n (order_feed (env s1)) (opos (env s1))).
  set (ks := successes (List.length short_pairs) (order_feed (env s1))
                       (n + opos (env s1))).
  destruct (Nat.lt_ge_cases kl n) as [Hkl | Hkl].
  - rewrite execute_long_failure by assumption.
    eexists. cbn [fst snd env self issue trace]. rewrite Htrace.
    split; [reflexivity |]. rewrite <- and_assoc. split; [| discriminate].
    apply Hgoal. rewrite map_app, opening_orders_wallets, closing_orders_wallets,
      legs_of_wallets.
    apply incl_app; apply Hcut.
  - assert (Hkl' : kl = n) by (pose proof (successes_le n (order_feed (env s1))
                                 (opos (env s1))); fold kl in H; lia).
    destruct (Nat.lt_ge_cases ks (List.length short_pairs)) as [Hks | Hks].
    + rewrite execute_short_failure by assumption.
      eexists. cbn [fst snd env self issue trace]. rewrite Htrace.
      split; [reflexivity |]. rewrite <- and_assoc. split; [| discriminate].
      apply Hgoal.
      rewrite !map_app, !opening_orders_wallets, closing_orders_wallets, map_app,
        !legs_of_wallets.
      repeat apply incl_app; try apply Hcut.
      all: rewrite Hserved; apply incl_appl, incl_refl.
    + assert (Hks' : ks = List.length short_pairs).
      { pose proof (successes_le (List.length short_pairs) (order_feed (env s1))
                                 (n + opos (env s1))). fold ks in H. lia. }
      destruct (execute_success symbol p s1 Hl Hs Hkl' Hks')
        as (s' & -> & Hact & _ & _ & _ & _ & Htr).
      eexists. cbn [fst snd]. rewrite Htr, Htrace.
      split; [reflexivity |]. rewrite <- and_assoc. split.
      * apply Hgoal. rewrite map_app, !opening_orders_wallets.
        rewrite Hserved. apply incl_refl.
      * intros _. eexists. rewrite Hact, dict_get_set.
        split; [reflexivity |].
        assert (Hw : List.map leg_wallet
                       (legs_of BUY LONG long_pairs ++ legs_of SELL SHORT short_pairs)
                     = served)
          by (rewrite map_app, !legs_of_wallets; symmetry; exact Hserved).
        split; [exact Hw |]. intros w Hskip Hin. apply (Hdisj w Hskip).
        rewrite <- Hw. exact Hin.
Qed.

(** ** A price that cannot be obtained *)

Lemma calculate_position_size_run (symbol : string) (s : Sys) :
  exists total s2,
    calculate_position_size symbol s = (Py.Ok total, s2)
    /\ self s2 = self s
    /\ price_feed (env s2) = price_feed (env s)
    /\ ppos (env s2) = S (ppos (env s))
    /\ (price_feed (env s) (ppos (env s)) = None -> Qeq_bool total 0 = true).
Proof.
  unfold calculate_position_size, bind, get_self, _get_current_price, ask.
  cbn [next_price env self fst snd].
  destruct (price_feed (env s) (ppos (env s))) as [price |] eqn:E; cbn [truthy].
  - destruct (Qeq_bool price 0).
    + do 2 eexists. unfold ret. split; [reflexivity |].
      cbn. repeat split.
    + unfold uniform, random, bind, ask, ret. cbn [next_raw env self fst snd].
      destruct (Py.contains "BTC" symbol || Py.contains "ETH" symbol);
        [| destruct (Py.contains "SOL" symbol || Py.contains "ASTER" symbol)];
        do 2 eexists; (split; [reflexivity |]); cbn; repeat split; discriminate.
  - do 2 eexists. unfold ret. split; [reflexivity |]. cbn. repeat split.
Qed.

Lemma distribute_without_price (total : Q) (n : nat) (symbol : string) (s : Sys) :
  n <> 1%nat ->
  truthy (price_feed (env s) (ppos (env s))) = None ->
  distribute_quantity_in_teams total n symbol s
  = (Py.Ok [total], mkSys (self s) (next_price_world (env s))).
Proof.
  intros Hn Hp. unfold distribute_quantity_in_teams.
  apply Nat.eqb_neq in Hn. rewrite Hn.
  unfold bind, _get_current_price, ask. cbn [next_price fst snd].
  now rewrite Hp.
Qed.

(** C7, as the code has it.  A price that cannot be obtained aborts the
    run, with no order sent and nothing changed, at three places: the
    sizing of the position, the check before opening, and the fetch for
    recording that comes after the allocation.  Inside
    [distribute_quantity_in_teams] it does not: the function falls back to
    the single allocation [[total_quantity]] and the run goes on. *)
Theorem missing_price_aborts_outside_distribution (symbol : string) (s : Sys) :
  let result := open_team_hedge_position symbol s in
  (price_feed (env s) (ppos (env s)) = None -> aborted s result)
  /\ (price_feed (env s) (S (ppos (env s))) = None -> aborted s result)
  /\ (forall p s0,
        team_hedge_allocation symbol s = (Py.Ok (Some p), s0) ->
        price_feed (env s0) (ppos (env s0)) = None ->
        aborted s result)
  /\ (forall total n s',
        n <> 1%nat ->
        price_feed (env s') (ppos (env s')) = None ->
        distribute_quantity_in_teams total n symbol s'
        = (Py.Ok [total], mkSys (self s') (next_price_world (env s')))).
Proof.
  intros result.
  assert (Hquiet : forall s2,
    team_hedge_allocation symbol s = (Py.Ok None, s2) -> aborted s result).
  { intros s2 H. pose proof (quiet_team_hedge_allocation symbol s) as Q.
    rewrite H in Q. cbn [snd] in Q. destruct Q as (Q1 & _ & _ & Q4).
    unfold result, open_team_hedge_position, team_hedge_plan, bind.
    rewrite H. unfold ret, aborted. cbn. auto. }
  destruct (calculate_position_size_run symbol s)
    as (total & s2 & Hsize & Hself & Hfeed & Hpos & Hzero).
  split; [| split; [| split]].
  - intros Hnone.
    assert (E : exists s3, team_hedge_allocation symbol s = (Py.Ok None, s3)).
    { unfold team_hedge_allocation.
      unfold bind at 1. unfold get_self at 1.
      destruct (List.length (get_available_wallets (self s)) <? 2)%nat;
        [eexists; reflexivity |].
      unfold bind at 1. rewrite Hsize, (Hzero Hnone). eexists. reflexivity. }
    destruct E as [s3 E]. exact (Hquiet s3 E).
  - intros Hnone.
    assert (E : exists s3, team_hedge_allocation symbol s = (Py.Ok None, s3)).
    { unfold team_hedge_allocation.
      unfold bind at 1. unfold get_self at 1.
      destruct (List.length (get_available_wallets (self s)) <? 2)%nat;
        [eexists; reflexivity |].
      unfold bind at 1. rewrite Hsize.
      destruct (Qeq_bool total 0); [eexists; reflexivity |].
      unfold bind, _get_current_price, ask. cbn [next_price fst snd].
      rewrite Hfeed, Hpos, Hnone. eexists. reflexivity. }
    destruct E as [s3 E]. exact (Hquiet s3 E).
  - intros p s0 Halloc Hnone.
    pose proof (quiet_team_hedge_allocation symbol s) as Q.
    rewrite Halloc in Q. cbn [snd] in Q. destruct Q as (Q1 & _ & _ & Q4).
    unfold result, open_team_hedge_position, team_hedge_plan, bind.
    rewrite Halloc. unfold _get_current_price, ask. cbn [next_price fst snd].
    rewrite Hnone. unfold ret, aborted. cbn. auto.
  - intros tq n s' Hn Hnone. apply distribute_without_price; [assumption |].
    now rewrite Hnone.
Qed.

(** The ticker fails only inside the distribution for the long team: the
    run still places its orders and returns [True]. *)
Lemma missing_price_counterexample : ~ any_missing_price_aborts.
Proof.
  intros H. destruct (H "BTCUSDT" Scenario.ticker_gap) as [C _].
  - exists 2%nat. vm_compute. repeat split; lia.
  - vm_compute in C. discriminate C.
Qed.

(** ** Rounding *)

Lemma Qlt_bool_iff (x y : Q) : Py.Qlt_bool x y = true <-> x < y.
Proof.
  unfold Py.Qlt_bool. rewrite negb_true_iff.
  destruct (Qle_bool y x) eqn:E.
  - apply Qle_bool_iff in E. split; [discriminate | intros H; lra].
  - split; [intros _ | reflexivity].
    apply Qnot_le_lt. intros H. apply Qle_bool_iff in H. congruence.
Qed.

Lemma Qlt_bool_false (x y : Q) : Py.Qlt_bool x y = false <-> y <= x.
Proof.
  rewrite <- not_true_iff_false, Qlt_bool_iff. split; intros H; lra.
Qed.

Lemma max_lower (a b : Q) : b <= Py.max a b.
Proof.
  unfold Py.max. destruct (Py.Qlt_bool a b) eqn:E.
  - lra.
  - now apply Qlt_bool_false in E.
Qed.

Lemma pow10_pos (d : nat) : 0 < Py.pow10 d.
Proof.
  unfold Py.pow10. change 0 with (inject_Z 0). rewrite <- Zlt_Qlt.
  apply Z.pow_pos_nonneg; lia.
Qed.

Lemma round_half_even_near (x : Q) :
  inject_Z (Py.round_half_even x) - (1 # 2) <= x
  /\ x <= inject_Z (Py.round_half_even x) + (1 # 2).
Proof.
  unfold Py.round_half_even.
  pose proof (Qfloor_le x) as Hlo. pose proof (Qlt_floor x) as Hhi.
  rewrite inject_Z_plus in Hhi. change (inject_Z 1) with 1 in Hhi.
  destruct (Qcompare (x - inject_Z (Qfloor x)) (1 # 2)) eqn:E.
  - apply Qeq_alt in E.
    destruct (Z.even (Qfloor x)); [| rewrite inject_Z_plus; change (inject_Z 1) with 1];
      lra.
  - apply Qlt_alt in E. lra.
  - apply Qgt_alt in E. rewrite inject_Z_plus. change (inject_Z 1) with 1. lra.
Qed.

Lemma round_half_even_floor (x : Q) : (Qfloor x <= Py.round_half_even x)%Z.
Proof.
  unfold Py.round_half_even.
  destruct (Qcompare _ _); [destruct (Z.even _) | |]; lia.
Qed.

Lemma round_half_even_ge (z : Z) (x : Q) :
  inject_Z z <= x -> (z <= Py.round_half_even x)%Z.
Proof.
  intros H. apply Qfloor_resp_le in H. rewrite Qfloor_Z in H.
  pose proof (round_half_even_floor x). lia.
Qed.

Lemma round_half_even_comp (x y : Q) :
  x == y -> Py.round_half_even x = Py.round_half_even y.
Proof.
  intros H. unfold Py.round_half_even.
  rewrite (Qfloor_comp x y H).
  assert (E : x - inject_Z (Qfloor y) == y - inject_Z (Qfloor y)) by (rewrite H; reflexivity).
  now rewrite (Qcompare_comp _ _ E _ _ (Qeq_refl (1 # 2))).
Qed.

Lemma round_comp (x y : Q) (d : nat) : x == y -> Py.round x d = Py.round y d.
Proof.
  intros H. unfold Py.round.
  rewrite (round_half_even_comp (x * Py.pow10 d) (y * Py.pow10 d)); [reflexivity |].
  now rewrite H.
Qed.

Lemma round_at_precision (x : Q) (d : nat) : at_precision d (Py.round x d).
Proof. eexists. reflexivity. Qed.

(** Rounding moves a value by at most half a unit. *)
Lemma round_error (x : Q) (d : nat) :
  Qabs (Py.round x d - x) <= (1 # 2) * precision_unit d.
Proof.
  unfold Py.round, precision_unit.
  pose proof (pow10_pos d) as Hp.
  destruct (round_half_even_near (x * Py.pow10 d)) as [Hlo Hhi].
  set (r := inject_Z (Py.round_half_even (x * Py.pow10 d))) in *.
  set (P := Py.pow10 d) in *.
  assert (Hinv : 0 < / P) by now apply Qinv_lt_0_compat.
  assert (E : r / P - x == (r - x * P) * / P) by (field; lra).
  rewrite E. apply Qabs_case; intros _.
  - unfold Qdiv. rewrite Qmult_1_l.
    apply Qmult_le_compat_r; lra.
  - unfold Qdiv. rewrite Qmult_1_l.
    setoid_replace (- ((r - x * P) * / P)) with ((x * P - r) * / P) by ring.
    apply Qmult_le_compat_r; lra.
Qed.

(** Rounding never goes below a multiple of the unit that the value has
    reached. *)
Lemma round_ge_multiple (z : Z) (x : Q) (d : nat) :
  inject_Z z / Py.pow10 d <= x -> inject_Z z / Py.pow10 d <= Py.round x d.
Proof.
  intros H. unfold Py.round. pose proof (pow10_pos d) as Hp.
  assert (Hz : inject_Z z <= x * Py.pow10 d).
  { setoid_replace (inject_Z z) with (inject_Z z / Py.pow10 d * Py.pow10 d)
      by (field; lra).
    apply Qmult_le_compat_r; lra. }
  apply round_half_even_ge in Hz. apply Qmult_le_compat_r.
  - now rewrite <- Zle_Qle.
  - apply Qlt_le_weak. now apply Qinv_lt_0_compat.
Qed.

Lemma round_ge_at_precision (m x : Q) (d : nat) :
  at_precision d m -> m <= x -> m <= Py.round x d.
Proof.
  intros [z Hz] H. rewrite Hz in *. now apply round_ge_multiple.
Qed.

(** ** Binary64 *)

Lemma pow2_pos (e : Z) : 0 < Py.pow2 e.
Proof. unfold Py.pow2. apply Qpower_0_lt. reflexivity. Qed.

Lemma pow2_add (a b : Z) : Py.pow2 (a + b) == Py.pow2 a * Py.pow2 b.
Proof. unfold Py.pow2. apply Qpower_plus. discriminate. Qed.

Lemma pow2_succ (e : Z) : Py.pow2 (e + 1) == 2 * Py.pow2 e.
Proof. rewrite pow2_add. change (Py.pow2 1) with 2. ring. Qed.

Lemma pow2_le (a b : Z) : (a <= b)%Z -> Py.pow2 a <= Py.pow2 b.
Proof.
  intros H. unfold Py.pow2. apply Qpower_le_compat_l; [exact H | discriminate].
Qed.

Lemma pow2_nat (n : Z) : (0 <= n)%Z -> Py.pow2 n == inject_Z (2 ^ n).
Proof. intros H. unfold Py.pow2. symmetry. now apply Zpower_Qpower. Qed.

Lemma exponent_rough (x : Q) :
  0 < x ->
  let e := (Z.log2 (Qnum x) - Z.log2 (Zpos (Qden x)) - 53)%Z in
  Py.pow2 52 * Py.pow2 e < x /\ x < Py.pow2 54 * Py.pow2 e.
Proof.
  intros Hx. destruct x as [a b]. cbn [Qnum Qden].
  assert (Ha : (0 < a)%Z) by (unfold Qlt in Hx; simpl in Hx; lia).
  set (la := Z.log2 a). set (lb := Z.log2 (Zpos b)).
  destruct (Z.log2_spec a Ha) as [Ha1 Ha2]. fold la in Ha1, Ha2.
  destruct (Z.log2_spec (Zpos b) eq_refl) as [Hb1 Hb2]. fold lb in Hb1, Hb2.
  assert (Hla : (0 <= la)%Z) by apply Z.log2_nonneg.
  assert (Hlb : (0 <= lb)%Z) by apply Z.log2_nonneg.
  rewrite <- !pow2_add.
  assert (E1 : Py.pow2 (52 + (la - lb - 53)) * Py.pow2 (lb + 1) == Py.pow2 la)
    by (rewrite <- pow2_add; f_equiv; lia).
  assert (E2 : Py.pow2 (54 + (la - lb - 53)) * Py.pow2 lb == Py.pow2 (la + 1))
    by (rewrite <- pow2_add; f_equiv; lia).
  rewrite (pow2_nat la) in E1 by lia. rewrite (pow2_nat (lb + 1)) in E1 by lia.
  rewrite (pow2_nat (la + 1)) in E2 by lia. rewrite (pow2_nat lb) in E2 by lia.
  pose proof (pow2_pos (52 + (la - lb - 53))) as P1.
  pose proof (pow2_pos (54 + (la - lb - 53))) as P2.
  set (p1 := Py.pow2 (52 + (la - lb - 53))) in *.
  set (p2 := Py.pow2 (54 + (la - lb - 53))) in *.
  rewrite Zle_Qle in Ha1, Hb1. rewrite Zlt_Qlt in Ha2, Hb2.
  change (Z.succ la) with (la + 1)%Z in Ha2.
  change (Z.succ lb) with (lb + 1)%Z in Hb2.
  assert (Hb : 0 < inject_Z (Zpos b)) by reflexivity.
  assert (Hq : a # b == inject_Z a / inject_Z (Zpos b)) by apply Qmake_Qdiv.
  rewrite Hq. split.
  - apply Qlt_shift_div_l; [exact Hb |].
    apply Qlt_le_trans with (p1 * inject_Z (2 ^ (lb + 1))).
    + apply Qmult_lt_l; assumption.
    + rewrite E1. exact Ha1.
  - apply Qlt_shift_div_r; [exact Hb |].
    apply Qlt_le_trans with (p2 * inject_Z (2 ^ lb)).
    + rewrite E2. exact Ha2.
    + apply Qmult_le_l; assumption.
Qed.

Lemma Qle_div_inv (a b c : Q) : 0 < c -> a <= b / c -> a * c <= b.
Proof.
  intros Hc H. apply (Qmult_le_compat_r _ _ c) in H; [| lra].
  setoid_replace (b / c * c) with b in H by (field; lra). exact H.
Qed.

Lemma Qlt_div_inv (a b c : Q) : 0 < c -> b / c < a -> b < a * c.
Proof.
  intros Hc H. apply (Qmult_lt_compat_r _ _ c) in H; [| exact Hc].
  setoid_replace (b / c * c) with b in H by (field; lra). exact H.
Qed.

(** The significand of a positive [x] at its exponent is in
    [[2^52, 2^53)]. *)
Lemma exponent_spec (x : Q) :
  0 < x ->
  Py.pow2 52 * Py.pow2 (Py.exponent x) <= x
  /\ x < Py.pow2 53 * Py.pow2 (Py.exponent x).
Proof.
  intros Hx. destruct (exponent_rough x Hx) as [H1 H2]. cbv zeta in H1, H2.
  unfold Py.exponent.
  set (e := (Z.log2 (Qnum x) - Z.log2 (Zpos (Qden x)) - 53)%Z) in *.
  pose proof (pow2_pos e) as Pe. pose proof (pow2_succ e) as Se.
  assert (E53 : inject_Z (2 ^ 53) == Py.pow2 53) by reflexivity.
  assert (E54 : Py.pow2 54 == 2 * Py.pow2 53) by reflexivity.
  assert (E52 : Py.pow2 53 == 2 * Py.pow2 52) by reflexivity.
  destruct (Qle_bool (inject_Z (2 ^ 53)) (x / Py.pow2 e)) eqn:E.
  - apply Qle_bool_iff in E. rewrite E53 in E.
    apply Qle_div_inv in E; [| exact Pe].
    rewrite Se. rewrite E54 in H2. rewrite E52 in E.
    set (p := Py.pow2 e) in *. set (a := Py.pow2 52) in *.
    set (b := Py.pow2 53) in *.
    split.
    + setoid_replace (a * (2 * p)) with (2 * a * p) by ring. exact E.
    + setoid_replace (b * (2 * p)) with (2 * b * p) by ring. exact H2.
  - assert (H : x / Py.pow2 e < inject_Z (2 ^ 53)).
    { apply Qnot_le_lt. intros H. apply Qle_bool_iff in H. congruence. }
    rewrite E53 in H. split; [apply Qlt_le_weak, H1 |].
    apply Qlt_div_inv in H; [exact H | exact Pe].
Qed.

Lemma exponent_unique (x : Q) (e : Z) :
  0 < x ->
  Py.pow2 52 * Py.pow2 e <= x -> x < Py.pow2 53 * Py.pow2 e ->
  Py.exponent x = e.
Proof.
  intros Hx H1 H2. destruct (exponent_spec x Hx) as [G1 G2].
  set (f := Py.exponent x) in *.
  assert (E52 : Py.pow2 53 == 2 * Py.pow2 52) by reflexivity.
  assert (P : 0 < Py.pow2 52) by apply pow2_pos.
  destruct (Z.lt_trichotomy f e) as [H | [H | H]]; [| exact H |]; exfalso.
  - assert (L : Py.pow2 (f + 1) <= Py.pow2 e) by (apply pow2_le; lia).
    rewrite pow2_succ in L. rewrite E52 in G2.
    set (a := Py.pow2 52) in *. set (pf := Py.pow2 f) in *.
    set (pe := Py.pow2 e) in *.
    assert (a * (2 * pf) <= a * pe) by (apply Qmult_le_l; assumption).
    assert (2 * a * pf == a * (2 * pf)) by ring. lra.
  - assert (L : Py.pow2 (e + 1) <= Py.pow2 f) by (apply pow2_le; lia).
    rewrite pow2_succ in L. rewrite E52 in H2.
    set (a := Py.pow2 52) in *. set (pf := Py.pow2 f) in *.
    set (pe := Py.pow2 e) in *.
    assert (a * (2 * pe) <= a * pf) by (apply Qmult_le_l; assumption).
    assert (2 * a * pe == a * (2 * pe)) by ring. lra.
Qed.

Lemma exponent_comp (x y : Q) : 0 < x -> x == y -> Py.exponent x = Py.exponent y.
Proof.
  intros Hx E. assert (Hy : 0 < y) by (rewrite <- E; exact Hx).
  destruct (exponent_spec y Hy) as [H1 H2].
  apply exponent_unique; [exact Hx | rewrite E; exact H1 | rewrite E; exact H2].
Qed.

Lemma exponent_mono (x y : Q) :
  0 < x -> x <= y -> (Py.exponent x <= Py.exponent y)%Z.
Proof.
  intros Hx Hxy. assert (Hy : 0 < y) by lra.
  destruct (exponent_spec x Hx) as [G1 _]. destruct (exponent_spec y Hy) as [_ H2].
  set (f := Py.exponent x) in *. set (e := Py.exponent y) in *.
  destruct (Z.le_gt_cases f e) as [H | H]; [exact H | exfalso].
  assert (L : Py.pow2 (e + 1) <= Py.pow2 f) by (apply pow2_le; lia).
  rewrite pow2_succ in L.
  assert (E52 : Py.pow2 53 == 2 * Py.pow2 52) by reflexivity.
  assert (P : 0 < Py.pow2 52) by apply pow2_pos.
  rewrite E52 in H2.
  set (a := Py.pow2 52) in *. set (pf := Py.pow2 f) in *. set (pe := Py.pow2 e) in *.
  assert (a * (2 * pe) <= a * pf) by (apply Qmult_le_l; assumption).
  assert (2 * a * pe == a * (2 * pe)) by ring. lra.
Qed.

Lemma round_half_even_Z (z : Z) : Py.round_half_even (inject_Z z) = z.
Proof.
  unfold Py.round_half_even. rewrite Qfloor_Z.
  assert (E : inject_Z z - inject_Z z == 0) by ring.
  rewrite (Qcompare_comp _ _ E _ _ (Qeq_refl (1 # 2))). reflexivity.
Qed.

Lemma round_half_even_mono (x y : Q) :
  x <= y -> (Py.round_half_even x <= Py.round_half_even y)%Z.
Proof.
  intros H. pose proof (Qfloor_resp_le x y H) as Hf.
  pose proof (round_half_even_floor y) as Hy.
  destruct (Z.eq_dec (Qfloor x) (Qfloor y)) as [E | N].
  - unfold Py.round_half_even. rewrite <- E.
    destruct (Qcompare (x - inject_Z (Qfloor x)) (1 # 2)) eqn:Cx;
      destruct (Qcompare (y - inject_Z (Qfloor x)) (1 # 2)) eqn:Cy;
      try (destruct (Z.even (Qfloor x))); try lia; exfalso;
      repeat match goal with
             | C : Qcompare _ _ = Eq |- _ => apply Qeq_alt in C
             | C : Qcompare _ _ = Lt |- _ => apply Qlt_alt in C
             | C : Qcompare _ _ = Gt |- _ => apply Qgt_alt in C
             end; lra.
  - assert (Hx : (Py.round_half_even x <= Qfloor x + 1)%Z).
    { unfold Py.round_half_even.
      destruct (Qcompare _ _); [destruct (Z.even _) | |]; lia. }
    lia.
Qed.

Lemma round_half_even_le (z : Z) (x : Q) :
  x <= inject_Z z -> (Py.round_half_even x <= z)%Z.
Proof.
  intros H. apply round_half_even_mono in H. now rewrite round_half_even_Z in H.
Qed.

(** The float nearest to a positive number, between the powers of two
    that enclose it. *)
Lemma nearest_bounds (x : Q) :
  0 < x ->
  Py.pow2 52 * Py.pow2 (Py.exponent x) <= Py.nearest x
  /\ Py.nearest x <= Py.pow2 53 * Py.pow2 (Py.exponent x).
Proof.
  intros Hx. destruct (exponent_spec x Hx) as [H1 H2]. unfold Py.nearest.
  set (e := Py.exponent x) in *. pose proof (pow2_pos e) as Pe.
  assert (L : (2 ^ 52 <= Py.round_half_even (x / Py.pow2 e))%Z).
  { apply round_half_even_ge. apply Qle_shift_div_l; [exact Pe | exact H1]. }
  assert (U : (Py.round_half_even (x / Py.pow2 e) <= 2 ^ 53)%Z).
  { apply round_half_even_le. apply Qle_shift_div_r; [exact Pe |].
    apply Qlt_le_weak. exact H2. }
  rewrite Zle_Qle in L, U.
  change (inject_Z (2 ^ 52)) with (Py.pow2 52) in L.
  change (inject_Z (2 ^ 53)) with (Py.pow2 53) in U.
  split; apply Qmult_le_compat_r; try assumption; apply Qlt_le_weak, Pe.
Qed.

Lemma nearest_pos (x : Q) : 0 < x -> 0 < Py.nearest x.
Proof.
  intros Hx. destruct (nearest_bounds x Hx) as [H _].
  pose proof (pow2_pos 52). pose proof (pow2_pos (Py.exponent x)).
  apply Qlt_le_trans with (Py.pow2 52 * Py.pow2 (Py.exponent x)); [| exact H].
  apply Qmult_lt_0_compat; assumption.
Qed.

Lemma nearest_comp (x y : Q) : 0 < x -> x == y -> Py.nearest x = Py.nearest y.
Proof.
  intros Hx E. unfold Py.nearest. rewrite (exponent_comp x y Hx E).
  rewrite (round_half_even_comp (x / Py.pow2 (Py.exponent y))
                                (y / Py.pow2 (Py.exponent y))); [reflexivity |].
  now rewrite E.
Qed.

Lemma nearest_mono (x y : Q) : 0 < x -> x <= y -> Py.nearest x <= Py.nearest y.
Proof.
  intros Hx Hxy. assert (Hy : 0 < y) by lra.
  pose proof (exponent_mono x y Hx Hxy) as He.
  destruct (Z.eq_dec (Py.exponent x) (Py.exponent y)) as [E | N].
  - unfold Py.nearest. rewrite E. set (e := Py.exponent y).
    pose proof (pow2_pos e) as Pe.
    apply Qmult_le_compat_r; [| apply Qlt_le_weak, Pe].
    rewrite <- Zle_Qle. apply round_half_even_mono.
    apply Qmult_le_compat_r; [exact Hxy |].
    apply Qlt_le_weak, Qinv_lt_0_compat, Pe.
  - destruct (nearest_bounds x Hx) as [_ U]. destruct (nearest_bounds y Hy) as [L _].
    assert (P : Py.pow2 (Py.exponent x + 1) <= Py.pow2 (Py.exponent y))
      by (apply pow2_le; lia).
    rewrite pow2_succ in P.
    assert (E52 : Py.pow2 53 == 2 * Py.pow2 52) by reflexivity.
    assert (P52 : 0 < Py.pow2 52) by apply pow2_pos.
    rewrite E52 in U.
    set (a := Py.pow2 52) in *. set (px := Py.pow2 (Py.exponent x)) in *.
    set (py := Py.pow2 (Py.exponent y)) in *.
    assert (a * (2 * px) <= a * py) by (apply Qmult_le_l; assumption).
    assert (2 * a * px == a * (2 * px)) by ring. lra.
Qed.

(** A number that is a float already is the float nearest to itself. *)
Lemma nearest_fixed (m e : Z) :
  (0 < m <= 2 ^ 53)%Z ->
  Py.nearest (inject_Z m * Py.pow2 e) == inject_Z m * Py.pow2 e.
Proof.
  intros [Hm0 Hm].
  set (v := inject_Z m * Py.pow2 e).
  pose proof (pow2_pos e) as Pe.
  assert (Hm0' : 0 < inject_Z m) by (change 0 with (inject_Z 0); now rewrite <- Zlt_Qlt).
  assert (Hv : 0 < v) by (apply Qmult_lt_0_compat; assumption).
  destruct (exponent_spec v Hv) as [H1 H2]. unfold Py.nearest.
  set (f := Py.exponent v) in *. pose proof (pow2_pos f) as Pf.
  assert (E52 : Py.pow2 53 == 2 * Py.pow2 52) by reflexivity.
  assert (P52 : 0 < Py.pow2 52) by apply pow2_pos.
  assert (Hm' : inject_Z m <= Py.pow2 53)
    by (change (Py.pow2 53) with (inject_Z (2 ^ 53)); now rewrite <- Zle_Qle).
  destruct (Z.le_gt_cases f e) as [Hfe | Hfe].
  - assert (Ee : Py.pow2 e == Py.pow2 f * inject_Z (2 ^ (e - f))).
    { rewrite <- pow2_nat by lia. rewrite <- pow2_add. f_equiv. lia. }
    assert (Ev : v / Py.pow2 f == inject_Z (m * 2 ^ (e - f))).
    { unfold v. rewrite Ee, inject_Z_mult. field. lra. }
    rewrite (round_half_even_comp _ _ Ev), round_half_even_Z.
    unfold v. rewrite Ee, inject_Z_mult. ring.
  - assert (L : Py.pow2 (e + 1) <= Py.pow2 f) by (apply pow2_le; lia).
    rewrite pow2_succ in L.
    assert (Hm53 : inject_Z m == Py.pow2 53).
    { apply Qle_antisym; [exact Hm' |].
      apply Qnot_lt_le. intros Hlt.
      assert (A : inject_Z m * Py.pow2 e < Py.pow2 53 * Py.pow2 e)
        by (apply Qmult_lt_compat_r; assumption).
      assert (B : Py.pow2 52 * (2 * Py.pow2 e) <= Py.pow2 52 * Py.pow2 f)
        by (apply Qmult_le_l; assumption).
      fold v in A. rewrite E52 in A.
      set (a := Py.pow2 52) in *. set (pe := Py.pow2 e) in *.
      set (pf := Py.pow2 f) in *.
      assert (2 * a * pe == a * (2 * pe)) by ring. lra. }
    assert (Hf : f = (e + 1)%Z).
    { destruct (Z.eq_dec f (e + 1)) as [E | N]; [exact E | exfalso].
      assert (L2 : Py.pow2 (e + 1 + 1) <= Py.pow2 f) by (apply pow2_le; lia).
      rewrite !pow2_succ in L2.
      assert (B : Py.pow2 52 * (2 * (2 * Py.pow2 e)) <= Py.pow2 52 * Py.pow2 f)
        by (apply Qmult_le_l; assumption).
      unfold v in H1. rewrite Hm53, E52 in H1.
      set (a := Py.pow2 52) in *. set (pe := Py.pow2 e) in *.
      set (pf := Py.pow2 f) in *.
      assert (0 < a * pe) by (apply Qmult_lt_0_compat; assumption).
      assert (a * (2 * (2 * pe)) == 4 * (a * pe)) by ring.
      assert (2 * a * pe == 2 * (a * pe)) by ring. lra. }
    rewrite Hf. rewrite Hf in Pf.
    assert (Ev : v / Py.pow2 (e + 1) == inject_Z (2 ^ 52)).
    { unfold v. rewrite Hm53, pow2_succ, E52.
      change (inject_Z (2 ^ 52)) with (Py.pow2 52). field. lra. }
    rewrite (round_half_even_comp _ _ Ev), round_half_even_Z.
    unfold v. rewrite Hm53, pow2_succ, E52.
    change (inject_Z (2 ^ 52)) with (Py.pow2 52). ring.
Qed.

Lemma double_pos_eq (x : Q) : 0 < x -> Py.double x = Py.nearest x.
Proof.
  intros H. unfold Py.double.
  assert (E : (x ?= 0) = Gt) by (apply Qgt_alt; exact H). now rewrite E.
Qed.

Lemma double_neg_eq (x : Q) : x < 0 -> Py.double x = - Py.nearest (- x).
Proof.
  intros H. unfold Py.double.
  assert (E : (x ?= 0) = Lt) by (apply Qlt_alt; exact H). now rewrite E.
Qed.

Lemma double_zero_eq (x : Q) : x == 0 -> Py.double x = 0.
Proof.
  intros H. unfold Py.double.
  assert (E : (x ?= 0) = Eq) by (apply Qeq_alt; exact H). now rewrite E.
Qed.

Lemma double_pos (x : Q) : 0 < x -> 0 < Py.double x.
Proof. intros H. rewrite double_pos_eq by exact H. now apply nearest_pos. Qed.

Lemma double_neg (x : Q) : x < 0 -> Py.double x < 0.
Proof.
  intros H. rewrite double_neg_eq by exact H.
  assert (0 < Py.nearest (- x)) by (apply nearest_pos; lra). lra.
Qed.

Lemma double_comp (x y : Q) : x == y -> Py.double x = Py.double y.
Proof.
  intros E. destruct (Q_dec x 0) as [[H | H] | H].
  - rewrite !double_neg_eq by lra. f_equal. apply nearest_comp; [lra | now rewrite E].
  - rewrite !double_pos_eq by lra. now apply nearest_comp.
  - rewrite !double_zero_eq; [reflexivity | now rewrite <- E | exact H].
Qed.

(** Rounding to the nearest float keeps the order. *)
Lemma double_mono (x y : Q) : x <= y -> Py.double x <= Py.double y.
Proof.
  intros Hxy. destruct (Q_dec x 0) as [[Hx | Hx] | Hx].
  - pose proof (double_neg x Hx) as Nx.
    destruct (Q_dec y 0) as [[Hy | Hy] | Hy].
    + rewrite (double_neg_eq x), (double_neg_eq y) by assumption.
      assert (Py.nearest (- y) <= Py.nearest (- x)) by (apply nearest_mono; lra).
      lra.
    + pose proof (double_pos y Hy). lra.
    + rewrite (double_zero_eq y Hy). lra.
  - assert (Hy : 0 < y) by lra.
    rewrite !double_pos_eq by assumption. now apply nearest_mono.
  - rewrite (double_zero_eq x Hx).
    destruct (Q_dec y 0) as [[Hy | Hy] | Hy]; [lra | |].
    + pose proof (double_pos y Hy). lra.
    + rewrite (double_zero_eq y Hy). lra.
Qed.

Lemma nearest_idem (x : Q) : 0 < x -> Py.nearest (Py.nearest x) == Py.nearest x.
Proof.
  intros Hx. destruct (exponent_spec x Hx) as [H1 H2].
  pose proof (pow2_pos (Py.exponent x)) as Pe.
  unfold Py.nearest at 2 3. apply nearest_fixed. split.
  - apply Z.lt_le_trans with (2 ^ 52)%Z; [reflexivity |].
    apply round_half_even_ge. apply Qle_shift_div_l; [exact Pe | exact H1].
  - apply round_half_even_le. apply Qle_shift_div_r; [exact Pe |].
    apply Qlt_le_weak. exact H2.
Qed.

(** A float is the float nearest to itself. *)
Lemma double_idem (x : Q) : Py.double (Py.double x) == Py.double x.
Proof.
  destruct (Q_dec x 0) as [[Hx | Hx] | Hx].
  - assert (P : 0 < Py.nearest (- x)) by (apply nearest_pos; lra).
    rewrite (double_neg_eq x Hx).
    rewrite (double_neg_eq (- Py.nearest (- x))) by lra.
    rewrite (nearest_comp (- - Py.nearest (- x)) (Py.nearest (- x)));
      [| lra | ring].
    rewrite nearest_idem by lra. reflexivity.
  - assert (P : 0 < Py.nearest x) by now apply nearest_pos.
    rewrite (double_pos_eq x Hx). rewrite (double_pos_eq _ P).
    now apply nearest_idem.
  - rewrite (double_zero_eq x Hx). reflexivity.
Qed.

(** Integers up to [2^53] are floats. *)
Lemma double_int (k : Z) : (0 <= k <= 2 ^ 53)%Z -> Py.double (inject_Z k) == inject_Z k.
Proof.
  intros [H0 H1]. destruct (Z.eq_dec k 0) as [-> | N]; [reflexivity |].
  assert (Hk : 0 < inject_Z k)
    by (change 0 with (inject_Z 0); rewrite <- Zlt_Qlt; lia).
  rewrite double_pos_eq by exact Hk.
  assert (E : inject_Z k == inject_Z k * Py.pow2 0)
    by (change (Py.pow2 0) with 1; ring).
  rewrite (nearest_comp _ _ Hk E).
  rewrite nearest_fixed by lia. symmetry. exact E.
Qed.

Lemma round_mono (x y : Q) (d : nat) : x <= y -> Py.round x d <= Py.round y d.
Proof.
  intros H. unfold Py.round. pose proof (pow10_pos d) as Hp.
  apply Qmult_le_compat_r; [| apply Qlt_le_weak, Qinv_lt_0_compat, Hp].
  rewrite <- Zle_Qle. apply round_half_even_mono.
  apply Qmult_le_compat_r; [exact H | lra].
Qed.

(** ** The minimum quantity and the team size *)

Lemma symbol_precision_unit (symbol : string) :
  fst (symbol_precision symbol) == precision_unit (snd (symbol_precision symbol)).
Proof.
  unfold symbol_precision.
  destruct (Py.contains "BTC" symbol || Py.contains "ETH" symbol);
    [| destruct (Py.contains "SOL" symbol || Py.contains "ASTER" symbol)];
    reflexivity.
Qed.

Lemma min_quantity_of_formula (cfg : Config) (price : Q) (symbol : string) :
  min_quantity_of cfg price symbol
  = Py.round
      (Py.fadd (Py.max (Py.fdiv (or_default (minimum_order_size_usdt cfg) 5) price)
                       (Py.double (fst (symbol_precision symbol))))
               (fst (symbol_precision symbol)))
      (snd (symbol_precision symbol)).
Proof.
  unfold min_quantity_of. now destruct (symbol_precision symbol).
Qed.

Lemma min_quantity_at_precision (cfg : Config) (price : Q) (symbol : string) :
  at_precision (snd (symbol_precision symbol)) (min_quantity_of cfg price symbol).
Proof. rewrite min_quantity_of_formula. apply round_at_precision. Qed.

Lemma min_quantity_lower (a step : Q) (d : nat) :
  Py.round (Py.double (Py.double step + Py.double step)) d
  <= Py.round (Py.fadd (Py.max a (Py.double step)) step) d.
Proof.
  apply round_mono. unfold Py.fadd. apply double_mono.
  pose proof (max_lower a (Py.double step)) as Hm.
  apply double_mono in Hm. rewrite double_idem in Hm. lra.
Qed.

(** The minimum quantity is at least two steps, hence positive. *)
Lemma min_quantity_pos (cfg : Config) (price : Q) (symbol : string) :
  0 < min_quantity_of cfg price symbol.
Proof.
  rewrite min_quantity_of_formula.
  eapply Qlt_le_trans; [| apply min_quantity_lower].
  unfold symbol_precision.
  destruct (Py.contains "BTC" symbol || Py.contains "ETH" symbol);
    [| destruct (Py.contains "SOL" symbol || Py.contains "ASTER" symbol)];
    vm_compute; reflexivity.
Qed.




Lemma randoms_eq (n : nat) :
  forall s : Sys,
    randoms n s
    = (Py.Ok (random_draws n (raw (env s)) (rpos (env s))),
       mkSys (self s) (advance_raw (env s) n)).
Proof.
  induction n as [| n IH]; intros s.
  - simpl. unfold ret. rewrite advance_raw_0. now destruct s.
  - cbn [randoms random_draws]. unfold bind at 1.
    unfold random, bind, ask, ret. cbn [next_raw env self fst snd].
    rewrite IH. cbn [env self raw rpos]. do 2 f_equal.
    unfold advance_raw. cbn. f_equal. lia.
Qed.

Lemma random_draws_length (n : nat) (r : nat -> Z) (pos : nat) :
  List.length (random_draws n r pos) = n.
Proof. revert pos. induction n as [| n IH]; intros pos; simpl; auto. Qed.

Lemma random_draws_nonneg (n : nat) (r : nat -> Z) (pos : nat) :
  Forall (fun p => 0 <= p) (random_draws n r pos).
Proof.
  revert pos. induction n as [| n IH]; intros pos; simpl; constructor; auto.
  unfold Qle. simpl. pose proof (Z.mod_pos_bound (r pos) (Zpos two53)). lia.
Qed.

Lemma set_last_length (l : list Q) (v : Q) :
  l <> [] -> List.length (set_last l v) = List.length l.
Proof.
  intros H. unfold set_last. rewrite length_app. simpl.
  rewrite (app_removelast_last 0 H) at 2. rewrite length_app. reflexivity.
Qed.

Lemma spread_length (total mq : Q) (d n : nat) (ps : list Q) :
  (0 < n)%nat -> List.length ps = n ->
  List.length (spread total mq d n ps) = n.
Proof.
  intros Hn Hps. unfold spread, raise_to_minimum.
  rewrite length_map, set_last_length.
  - rewrite !length_map, length_combine, repeat_length, length_map. lia.
  - intros E. apply (f_equal (@List.length Q)) in E.
    rewrite !length_map, length_combine, repeat_length, length_map in E.
    simpl in E. lia.
Qed.

Lemma allocate_length (total mq : Q) (d n : nat) (s s2 : Sys) (qs : list Q) :
  allocate total mq d n s = (Py.Ok qs, s2) -> List.length qs = n.
Proof.
  unfold allocate.
  destruct (Qle_bool _ 0).
  - destruct n as [| n]; [discriminate |].
    unfold ret. intros H. inversion H; subst.
    rewrite length_map, set_last_length; [| discriminate].
    apply (repeat_length mq (S n)).
  - unfold bind. rewrite randoms_eq.
    destruct n as [| n]; [discriminate |].
    destruct (Qeq_bool _ 0); [discriminate |].
    unfold ret. intros H. inversion H; subst.
    apply spread_length; [lia |].
    apply (random_draws_length (S n)).
Qed.


(** ** Sums of allocations *)

Lemma sum_from (l : list Q) (a : Q) : fold_left Qplus l a == a + Py.sum l.
Proof.
  unfold Py.sum. revert a. induction l as [| x l IH]; intros a; simpl.
  - ring.
  - rewrite (IH (a + x)), (IH (0 + x)). ring.
Qed.

Lemma sum_cons (x : Q) (l : list Q) : Py.sum (x :: l) == x + Py.sum l.
Proof. unfold Py.sum at 1. simpl. rewrite sum_from. ring. Qed.

Lemma sum_app_last (l : list Q) (x : Q) : Py.sum (l ++ [x]) = Py.sum l + x.
Proof. unfold Py.sum. now rewrite fold_left_app. Qed.

Lemma sum_nonneg (l : list Q) : Forall (fun p => 0 <= p) l -> 0 <= Py.sum l.
Proof.
  induction 1 as [| x l Hx _ IH].
  - apply Qle_refl.
  - rewrite sum_cons. lra.
Qed.

Lemma round_fixed (m : Q) (d : nat) : at_precision d m -> Py.round m d == m.
Proof.
  intros [z Hz]. pose proof (pow10_pos d) as Hp.
  unfold Py.round.
  rewrite (round_half_even_comp (m * Py.pow10 d) (inject_Z z)).
  - assert (E : Py.round_half_even (inject_Z z) = z).
    { unfold Py.round_half_even. rewrite Qfloor_Z.
      assert (C : Qcompare (inject_Z z - inject_Z z) (1 # 2) = Lt).
      { apply Qlt_alt. setoid_replace (inject_Z z - inject_Z z) with 0 by ring.
        reflexivity. }
      now rewrite C. }
    rewrite E. now symmetry.
  - rewrite Hz. field. lra.
Qed.

Lemma sum_map_round_fixed (l : list Q) (d : nat) :
  Forall (at_precision d) l ->
  Py.sum (List.map (fun q => Py.round q d) l) == Py.sum l.
Proof.
  induction 1 as [| x l Hx _ IH]; simpl.
  - reflexivity.
  - rewrite !sum_cons, IH, (round_fixed x d Hx). reflexivity.
Qed.

(** The forced last element brings the sum within half a unit of the total. *)
Lemma forced_last_sum (others : list Q) (total : Q) (d : nat) :
  Qabs (Py.sum (others ++ [Py.round (total - Py.sum others) d]) - total)
  <= (1 # 2) * precision_unit d.
Proof.
  rewrite sum_app_last.
  pose proof (round_error (total - Py.sum others) d) as H.
  setoid_replace (Py.sum others + Py.round (total - Py.sum others) d - total)
    with (Py.round (total - Py.sum others) d - (total - Py.sum others)) by ring.
  exact H.
Qed.

(** A forced last element below the minimum is raised to it, and the sum
    then exceeds the total. *)
Lemma raised_last_sum (others : list Q) (total mq : Q) (d : nat) :
  at_precision d mq ->
  Py.round (total - Py.sum others) d < mq ->
  Py.sum (others ++ [mq]) - total == mq - (total - Py.sum others)
  /\ total < Py.sum (others ++ [mq]).
Proof.
  intros [m Hm] Hlt. rewrite sum_app_last. split; [ring |].
  pose proof (pow10_pos d) as Hp.
  pose proof (round_error (total - Py.sum others) d) as He.
  set (y := total - Py.sum others) in *.
  unfold Py.round in Hlt. fold y in Hlt.
  set (f := Py.round_half_even (y * Py.pow10 d)) in *.
  assert (Hfm : (f + 1 <= m)%Z).
  { rewrite Hm in Hlt. unfold Qdiv in Hlt.
    apply Qmult_lt_r in Hlt; [| now apply Qinv_lt_0_compat].
    rewrite <- Zlt_Qlt in Hlt. lia. }
  assert (Hstep : inject_Z f / Py.pow10 d + precision_unit d <= mq).
  { rewrite Hm. unfold precision_unit.
    setoid_replace (inject_Z f / Py.pow10 d + 1 / Py.pow10 d)
      with (inject_Z (f + 1) / Py.pow10 d)
      by (rewrite inject_Z_plus; change (inject_Z 1) with 1; field; lra).
    unfold Qdiv. apply Qmult_le_compat_r.
    - now rewrite <- Zle_Qle.
    - apply Qlt_le_weak. now apply Qinv_lt_0_compat. }
  assert (Hu : 0 < precision_unit d).
  { unfold precision_unit. apply Qlt_shift_div_l; [exact Hp | lra]. }
  unfold Py.round in He. fold f in He.
  apply Qabs_Qle_condition in He. destruct He as [He _].
  set (q := inject_Z f / Py.pow10 d) in *.
  set (u := precision_unit d) in *.
  unfold y in He. lra.
Qed.

(** ** The allocation of a team *)

Lemma In_removelast {A} (l : list A) (x : A) : In x (removelast l) -> In x l.
Proof.
  destruct l as [| a l]; [auto |]. intros H.
  rewrite (app_removelast_last a (l := a :: l)) by discriminate.
  apply in_or_app. now left.
Qed.

Lemma raise_to_minimum_above (mq : Q) (l : list Q) :
  Forall (fun q => mq <= q) l -> raise_to_minimum mq l = l.
Proof.
  unfold raise_to_minimum. induction 1 as [| q l Hq _ IH]; simpl; [reflexivity |].
  apply Qlt_bool_false in Hq. now rewrite Hq, IH.
Qed.

(** Past the minimum every member but the last keeps its rounded share;
    the last is forced, and raised to the minimum when it falls below. *)
Lemma spread_shape (total mq : Q) (d n : nat) (ps : list Q) :
  (1 <= n)%nat -> List.length ps = n ->
  Forall (fun p => 0 <= p) ps -> 0 < Py.sum ps ->
  0 < total - mq * inject_Z (Z.of_nat n) ->
  at_precision d mq ->
  exists others,
    Forall (at_precision d) others
    /\ spread total mq d n ps
       = (others
          ++ [let forced := Py.round (total - Py.sum others) d in
              if Py.Qlt_bool forced mq then mq else forced])%list.
Proof.
  intros Hn Hlen Hps Htp Hrem Hmq. unfold spread.
  set (remaining := total - mq * inject_Z (Z.of_nat n)) in *.
  set (tp := Py.sum ps) in *.
  set (shares := List.map (fun qn => fst qn + remaining * snd qn)
                          (combine (repeat mq n) (List.map (fun p => p / tp) ps))).
  set (rounded := List.map (fun q => Py.round q d) shares).
  assert (Hshares : Forall (fun q => mq <= q) shares).
  { unfold shares. rewrite Forall_map, Forall_forall. intros [q w] Hin. simpl.
    assert (q = mq) by (apply in_combine_l in Hin; eapply repeat_spec; exact Hin).
    subst q. apply in_combine_r in Hin. apply in_map_iff in Hin.
    destruct Hin as (pr & <- & Hpr).
    rewrite Forall_forall in Hps. specialize (Hps pr Hpr).
    assert (0 <= remaining * (pr / tp)).
    { apply Qmult_le_0_compat; [lra |]. apply Qle_shift_div_l; lra. }
    lra. }
  assert (Hrounded : Forall (fun q => mq <= q) rounded).
  { unfold rounded. rewrite Forall_map. eapply Forall_impl; [| exact Hshares].
    intros q Hq. now apply round_ge_at_precision. }
  assert (Hprec : Forall (at_precision d) rounded).
  { unfold rounded. rewrite Forall_map. rewrite Forall_forall. intros q _.
    apply round_at_precision. }
  assert (Hsub : forall P : Q -> Prop,
    Forall P rounded -> Forall P (removelast rounded)).
  { intros P H. rewrite Forall_forall in *. intros q Hq.
    apply H. now apply In_removelast. }
  exists (removelast rounded). split; [now apply Hsub |].
  unfold set_last, raise_to_minimum. rewrite map_app. cbn [List.map].
  f_equal. apply raise_to_minimum_above. now apply Hsub.
Qed.

(** What [allocate] returns for a team of at least one member. *)
Lemma allocate_spec (total mq : Q) (d n : nat) (s : Sys) :
  (1 <= n)%nat -> at_precision d mq ->
  let result := fst (allocate total mq d n s) in
  (result = Py.Raise Py.ZeroDivisionError
   /\ Py.sum (random_draws n (raw (env s)) (rpos (env s))) == 0)
  \/ exists others last,
       result = Py.Ok (others ++ [last])%list
       /\ Forall (at_precision d) others
       /\ let forced := Py.round (total - Py.sum others) d in
          (last = forced
           /\ Qabs (Py.sum (others ++ [last]) - total) <= (1 # 2) * precision_unit d)
          \/ (forced < mq /\ last = mq
              /\ Py.sum (others ++ [last]) - total == mq - (total - Py.sum others)
              /\ total < Py.sum (others ++ [last])).
Proof.
  intros Hn Hmq result. unfold result, allocate.
  destruct n as [| n]; [lia |].
  destruct (Qle_bool (total - mq * inject_Z (Z.of_nat (S n))) 0) eqn:Hrem.
  - right. unfold ret. cbn [fst].
    set (others := repeat mq n).
    assert (Hl : removelast (repeat mq (S n)) = others).
    { unfold others. replace (repeat mq (S n)) with (repeat mq n ++ [mq])%list.
      - apply removelast_last.
      - change [mq] with (repeat mq 1). rewrite <- repeat_app. f_equal. lia. }
    unfold set_last. rewrite Hl, map_app. cbn [List.map].
    assert (Hprec : Forall (at_precision d) others).
    { unfold others. rewrite Forall_forall. intros q Hq.
      apply repeat_spec in Hq. now subst. }
    exists (List.map (fun q => Py.round q d) others), (Py.round (total - Py.sum others) d).
    split; [reflexivity |]. split.
    + rewrite Forall_map, Forall_forall. intros q _. apply round_at_precision.
    + left.
      assert (E : Py.round (total - Py.sum others) d
                  = Py.round (total - Py.sum (List.map (fun q => Py.round q d) others)) d).
      { apply round_comp. now rewrite sum_map_round_fixed. }
      split; [exact E |]. rewrite E. apply forced_last_sum.
  - unfold bind. rewrite randoms_eq.
    set (ps := random_draws (S n) (raw (env s)) (rpos (env s))).
    destruct (Qeq_bool (Py.sum ps) 0) eqn:Hz.
    + left. split; [reflexivity |]. now apply Qeq_bool_iff.
    + right. unfold ret. cbn [fst].
      assert (Hpos : 0 < Py.sum ps).
      { pose proof (sum_nonneg ps (random_draws_nonneg _ _ _)) as H0.
        apply Qeq_bool_neq in Hz. apply Qle_lt_or_eq in H0.
        destruct H0 as [H0 | H0]; [exact H0 | now symmetry in H0]. }
      assert (Hr : 0 < total - mq * inject_Z (Z.of_nat (S n))).
      { apply Qnot_le_lt. intros H. apply Qle_bool_iff in H. congruence. }
      destruct (spread_shape total mq d (S n) ps)
        as (others & Hprec & Hshape); try assumption;
        [apply random_draws_length | apply random_draws_nonneg |].
      rewrite Hshape. cbv zeta.
      exists others. eexists. split; [reflexivity |]. split; [exact Hprec |].
      cbv zeta.
      destruct (Py.Qlt_bool (Py.round (total - Py.sum others) d) mq) eqn:Hlow.
      * right. apply Qlt_bool_iff in Hlow.
        destruct (raised_last_sum others total mq d Hmq Hlow) as [E1 E2].
        repeat split; assumption.
      * left. split; [reflexivity | apply forced_last_sum].
Qed.

Lemma effective_team_size_ge (total mq : Q) (team_size n : nat) :
  (1 <= team_size)%nat -> team_size <> 1%nat ->
  effective_team_size total mq team_size = Some n -> (2 <= n)%nat.
Proof.
  intros H1 H2. unfold effective_team_size.
  destruct (Py.flt total _).
  - destruct (Py.int (Py.fdiv total mq) <=? 1)%Z eqn:E; [discriminate |].
    apply Z.leb_gt in E. intros H. inversion H. lia.
  - intros H. inversion H. lia.
Qed.



(** ** The shuffle reaches every order exactly once *)

Lemma set_nth_app_l {A} (l1 l2 : list A) (i : nat) (v : A) :
  (i < List.length l1)%nat ->
  Py.set_nth (l1 ++ l2) i v = (Py.set_nth l1 i v ++ l2)%list.
Proof.
  revert i. induction l1 as [| h t IH]; intros [| i] H; simpl in *; try lia; auto.
  rewrite IH by lia. reflexivity.
Qed.

Lemma swap_app_l {A} (x post : list A) (i j : nat) :
  (i < List.length x)%nat -> (j < List.length x)%nat ->
  Py.swap (x ++ post) i j = (Py.swap x i j ++ post)%list.
Proof.
  intros Hi Hj. unfold Py.swap. rewrite !nth_error_app1 by assumption.
  destruct (nth_error x i) as [a |]; [| reflexivity].
  destruct (nth_error x j) as [b |]; [| reflexivity].
  rewrite set_nth_app_l by assumption.
  rewrite set_nth_app_l by (rewrite length_set_nth; assumption).
  reflexivity.
Qed.

Lemma valid_choices_length (i : nat) (choices : list nat) :
  valid_choices i choices -> List.length choices = i.
Proof.
  revert choices. induction i as [| i IH]; intros [| j rest]; simpl; try tauto.
  intros [_ H]. f_equal. now apply IH.
Qed.

(** The loop started at index [i] never touches what lies beyond it. *)
Lemma shuffle_with_app {A} (i : nat) :
  forall (x post : list A) (choices : list nat),
    (i < List.length x)%nat -> valid_choices i choices ->
    shuffle_with i (x ++ post) choices = (shuffle_with i x choices ++ post)%list.
Proof.
  induction i as [| i IH]; intros x post [| j rest] Hlen Hvalid; simpl in *;
    try reflexivity.
  destruct Hvalid as [Hj Hrest].
  rewrite swap_app_l by lia. apply IH; [| assumption].
  rewrite length_swap. lia.
Qed.

(** One round of the loop on a list of [i + 1] elements moves [x[j]] to
    the end. *)
Lemma swap_last_shape {A} (x : list A) (i j : nat) (d : A) :
  List.length x = S i -> (j <= i)%nat ->
  exists pre, Py.swap x i j = (pre ++ [nth j x d])%list /\ List.length pre = i.
Proof.
  intros Hlen Hj.
  assert (Hy : List.length (Py.swap x i j) = S i) by now rewrite length_swap.
  destruct (exists_last (l := Py.swap x i j)) as (pre & a & E).
  { intros E. rewrite E in Hy. discriminate. }
  assert (Hpre : List.length pre = i).
  { rewrite E, length_app in Hy. simpl in Hy. lia. }
  exists pre. split; [| exact Hpre].
  rewrite E. do 2 f_equal.
  rewrite <- (nth_swap_left x i j d) by lia.
  rewrite E, app_nth2 by lia. now rewrite Hpre, Nat.sub_diag.
Qed.

Lemma shuffle_with_injective {A} (i : nat) :
  forall (x : list A) (c c' : list nat),
    List.length x = S i -> NoDup x ->
    valid_choices i c -> valid_choices i c' ->
    shuffle_with i x c = shuffle_with i x c' -> c = c'.
Proof.
  induction i as [| i IH]; intros x [| j r] [| j' r'] Hlen Hnd Hv Hv' E;
    simpl in Hv, Hv'; try tauto.
  destruct Hv as [Hj Hr], Hv' as [Hj' Hr'].
  destruct x as [| d x0]; [discriminate |]. set (x := d :: x0) in *.
  destruct (swap_last_shape x (S i) j d Hlen Hj) as (pre & Hs & Hpre).
  destruct (swap_last_shape x (S i) j' d Hlen Hj') as (pre' & Hs' & Hpre').
  cbn [shuffle_with] in E. rewrite Hs, Hs' in E.
  rewrite !shuffle_with_app in E by (assumption || lia).
  apply app_inj_tail in E. destruct E as [E Eb].
  assert (j = j').
  { eapply (proj1 (NoDup_nth x d)); [exact Hnd | lia | lia | exact Eb]. }
  subst j'. rewrite Hs in Hs'. apply app_inj_tail in Hs'. destruct Hs' as [<- _].
  f_equal. apply (IH pre); try assumption.
  assert (Hy : NoDup (pre ++ [nth j x d])).
  { rewrite <- Hs. eapply Permutation_NoDup; [| exact Hnd].
    symmetry. apply swap_Permutation. }
  apply NoDup_app_remove_r in Hy. exact Hy.
Qed.

Lemma shuffle_with_surjective {A} (i : nat) :
  forall (x t : list A),
    List.length x = S i -> Permutation t x ->
    exists c, valid_choices i c /\ shuffle_with i x c = t.
Proof.
  induction i as [| i IH]; intros x t Hlen Hperm.
  - exists []. split; [exact I |]. simpl.
    destruct x as [| a [| b x]]; try discriminate.
    symmetry. apply Permutation_length_1_inv. now symmetry.
  - destruct x as [| d x0]; [discriminate |]. set (x := d :: x0) in *.
    assert (Ht : List.length t = S (S i))
      by (rewrite (Permutation_length Hperm); exact Hlen).
    destruct (exists_last (l := t)) as (t' & b & Et).
    { intros E. rewrite E in Ht. discriminate. }
    assert (Hb : In b x).
    { eapply Permutation_in; [exact Hperm |]. rewrite Et. apply in_or_app.
      right. now left. }
    destruct (In_nth x b d Hb) as (j & Hj & Hjb).
    assert (Hj' : (j <= S i)%nat) by lia.
    destruct (swap_last_shape x (S i) j d Hlen Hj') as (pre & Hs & Hpre).
    rewrite Hjb in Hs.
    assert (Hpt : Permutation t' pre).
    { apply (Permutation_app_inv_r [b]). rewrite <- Et, <- Hs.
      rewrite Hperm. symmetry. apply swap_Permutation. }
    destruct (IH pre t' Hpre Hpt) as (c & Hc & Ec).
    exists (j :: c). split; [split; assumption |].
    cbn [shuffle_with]. rewrite Hs, shuffle_with_app by (assumption || lia).
    now rewrite Ec, Et.
Qed.

Lemma shuffle_draws_valid (i : nat) (r : nat -> Z) (pos : nat) :
  valid_choices i (shuffle_draws i r pos).
Proof.
  revert pos. induction i as [| i IH]; intros pos; simpl; [exact I |].
  split; [| apply IH].
  pose proof (randbelow_bound (r pos) (S (S i))). lia.
Qed.

Lemma shuffle_draws_ext (i : nat) (r r' : nat -> Z) (pos pos' : nat) :
  (forall k, (k < i)%nat -> r' (pos' + k)%nat = r (pos + k)%nat) ->
  shuffle_draws i r' pos' = shuffle_draws i r pos.
Proof.
  revert pos pos'. induction i as [| i IH]; intros pos pos' H; simpl; [reflexivity |].
  f_equal.
  - specialize (H 0%nat). rewrite !Nat.add_0_r in H. rewrite H by lia. reflexivity.
  - apply IH. intros k Hk. specialize (H (S k)).
    replace (S pos' + k)%nat with (pos' + S k)%nat by lia.
    replace (S pos + k)%nat with (pos + S k)%nat by lia. apply H. lia.
Qed.

(** C5.  For at least two distinct registered wallets and any state of the
    random source, [split_wallets_into_teams] returns two non-empty,
    disjoint teams that together are the input.  The long team has
    [1 + r] members, [r] being the outcome of [_randbelow(N - 1)], cut from
    the shuffled copy; every order of the wallets and every size in
    [[1, N - 1]] comes from exactly one vector of outcomes of [_randbelow],
    so the size is uniform over [[1, N - 1]] and the shuffled copy uniform
    over the orders whenever the outcomes are; and the teams depend on
    nothing but the input and the [N] raw outputs at the cursor of the
    random source. *)
Theorem split_wallets_into_teams_covers_and_is_fair
    (s : Sys) (ws : list string) :
  (2 <= List.length ws)%nat ->
  NoDup ws ->
  Forall (fun w => In w (wallets (self s))) ws ->
  let N := List.length ws in
  let choices := shuffle_draws (N - 1) (raw (env s)) (rpos (env s)) in
  let size_choice := size_draw N (raw (env s)) (rpos (env s)) in
  let teams := split_with choices size_choice ws in
  split_wallets_into_teams ws s
  = (Py.Ok teams, mkSys (self s) (advance_raw (env s) N))
  /\ (fst teams <> [] /\ snd teams <> []
      /\ Permutation (fst teams ++ snd teams) ws
      /\ (forall w, In w (fst teams) -> ~ In w (snd teams))
      /\ List.length (fst teams) = (1 + size_choice)%nat
      /\ (1 <= List.length (fst teams) <= N - 1)%nat)
  /\ (valid_choices (N - 1) choices /\ (size_choice < N - 1)%nat)
  /\ (forall (order : list string) (k : nat),
        Permutation order ws -> (1 <= k <= N - 1)%nat ->
        exists! outcomes : list nat * nat,
          valid_choices (N - 1) (fst outcomes)
          /\ (snd outcomes < N - 1)%nat
          /\ split_with (fst outcomes) (snd outcomes) ws
             = (firstn k order, skipn k order))
  /\ (forall s',
        wallets (self s') = wallets (self s) ->
        (forall i, (i < N)%nat ->
                   raw (env s') (rpos (env s') + i)%nat
                   = raw (env s) (rpos (env s) + i)%nat) ->
        fst (split_wallets_into_teams ws s') = Py.Ok teams).
Proof.
  intros Hlen Hnd Hreg N choices size_choice teams.
  assert (Hsize : (size_choice < N - 1)%nat).
  { unfold size_choice, size_draw. apply randbelow_bound. unfold N. lia. }
  destruct (split_with_facts choices size_choice ws Hsize) as (Hperm & Hl & Hs).
  fold teams in Hperm, Hl, Hs.
  split; [now apply split_ok |].
  split; [| split; [| split]].
  - split; [intros E; rewrite E in Hl; discriminate |].
    split; [intros E; rewrite E in Hs; simpl in Hs; unfold N in *; lia |].
    split; [exact Hperm |].
    split; [| split; [exact Hl | unfold N in *; lia]].
    intros w H1 H2. eapply NoDup_app_disjoint; [| exact H1 | exact H2].
    eapply Permutation_NoDup; [symmetry; exact Hperm | exact Hnd].
  - split; [apply shuffle_draws_valid | exact Hsize].
  - intros order k Horder Hk.
    assert (HN : List.length ws = S (N - 1)) by (unfold N; lia).
    assert (Hol : List.length order = N) by (apply Permutation_length, Horder).
    destruct (shuffle_with_surjective (N - 1) ws order HN Horder) as (c & Hc & Ec).
    exists (c, (k - 1)%nat). split.
    + cbn [fst snd]. split; [exact Hc |]. split; [lia |].
      unfold split_with. fold N. rewrite Ec.
      replace (1 + (k - 1))%nat with k by lia. reflexivity.
    + intros [c' r'] (Hc' & Hr' & E). cbn [fst snd] in *.
      unfold split_with in E. fold N in E.
      set (sh := shuffle_with (N - 1) ws c') in *.
      assert (Hsh : List.length sh = N).
      { apply Permutation_length, shuffle_with_Permutation. }
      pose proof (f_equal fst E) as E1. pose proof (f_equal snd E) as E2.
      cbn [fst snd] in E1, E2.
      assert (Heq : sh = order).
      { rewrite <- (firstn_skipn (1 + r') sh), <- (firstn_skipn k order).
        now rewrite E1, E2. }
      assert (Hr : (1 + r' = k)%nat).
      { apply (f_equal (@List.length string)) in E1.
        rewrite !length_firstn in E1. lia. }
      f_equal; [| lia].
      apply (shuffle_with_injective (N - 1) ws); try assumption.
      rewrite Ec. symmetry. exact Heq.
  - intros s' Hw Hraw.
    rewrite split_ok; [| assumption | now rewrite Hw]. cbn [fst].
    f_equal. unfold teams, choices, size_choice. fold N. f_equal.
    + apply shuffle_draws_ext. intros k Hk. apply Hraw. lia.
    + unfold size_draw. rewrite !(Nat.add_comm (N - 1)).
      rewrite Hraw by lia. reflexivity.
Qed.

(** ** Mutual exclusion of live positions *)

Lemma selfless_keeps {A} (c : M A) : selfless c -> keeps c.
Proof. intros H s Hs. now rewrite H. Qed.

Lemma quiet_selfless {A} (c : M A) : quiet c -> selfless c.
Proof. intros H s. apply H. Qed.

Lemma selfless_bind {A B} (c : M A) (k : A -> M B) :
  selfless c -> (forall a, selfless (k a)) -> selfless (bind c k).
Proof.
  intros Hc Hk s. unfold bind. specialize (Hc s).
  destruct (c s) as [[a | e] s1]; simpl in *; [| exact Hc].
  rewrite (Hk a s1). exact Hc.
Qed.

Lemma keeps_bind {A B} (c : M A) (k : A -> M B) :
  keeps c -> (forall a, keeps (k a)) -> keeps (bind c k).
Proof.
  intros Hc Hk s Hs. unfold bind. specialize (Hc s Hs).
  destruct (c s) as [[a | e] s1]; simpl in *; [| exact Hc].
  now apply Hk.
Qed.

Lemma selfless_place_order w symbol side q : selfless (place_order w symbol side q).
Proof. intros s. reflexivity. Qed.

Lemma selfless_close_legs symbol positions :
  forall success, selfless (close_legs symbol positions success).
Proof.
  induction positions as [| pos rest IH]; intros success; simpl.
  - intros s. reflexivity.
  - apply selfless_bind; [apply quiet_selfless, quiet_wallet_named | intros _].
    apply selfless_bind; [apply selfless_place_order | intros order]. apply IH.
Qed.

Lemma keys_dict_del_NoDup {V} (d : Py.dict V) (k : string) :
  NoDup (Py.keys d) -> NoDup (Py.keys (Py.dict_del d k)).
Proof.
  unfold Py.keys, Py.dict_del.
  induction d as [| [k' v] d IH]; simpl; intros H; [constructor |].
  inversion H as [| ? ? Hnot Hrest]; subst.
  destruct (negb (String.eqb k k')); [| auto].
  simpl. constructor; [| auto].
  intros Hin. apply Hnot. apply in_map_iff in Hin.
  destruct Hin as (kv & E & Hkv). apply filter_In in Hkv.
  apply in_map_iff. exists kv. tauto.
Qed.

Lemma busy_wallets_cons (k : string) (legs : list Leg) (d : Py.dict (list Leg)) :
  busy_wallets ((k, legs) :: d) = (List.map leg_wallet legs ++ busy_wallets d)%list.
Proof. reflexivity. Qed.

Lemma busy_wallets_del_incl (d : Py.dict (list Leg)) (k : string) :
  incl (busy_wallets (Py.dict_del d k)) (busy_wallets d).
Proof.
  unfold Py.dict_del.
  induction d as [| [k' legs] d IH]; simpl; [apply incl_refl |].
  destruct (negb (String.eqb k k')).
  - rewrite !busy_wallets_cons. apply incl_app; [apply incl_appl, incl_refl |].
    now apply incl_appr.
  - rewrite busy_wallets_cons. now apply incl_appr.
Qed.

Lemma busy_wallets_del_NoDup (d : Py.dict (list Leg)) (k : string) :
  NoDup (busy_wallets d) -> NoDup (busy_wallets (Py.dict_del d k)).
Proof.
  induction d as [| [k' legs] d IH]; intros H; [constructor |].
  rewrite busy_wallets_cons in H.
  pose proof (NoDup_app_remove_l _ _ H) as Hd.
  pose proof (NoDup_app_remove_r _ _ H) as Hl.
  unfold Py.dict_del in *. simpl.
  destruct (negb (String.eqb k k')); [| auto].
  rewrite busy_wallets_cons. apply NoDup_app; [assumption | auto |].
  intros w Hw Hin. apply (NoDup_app_disjoint _ _ w H Hw).
  now apply (busy_wallets_del_incl d k).
Qed.

Lemma exclusive_del (t : Trader) (symbol : string) :
  exclusive t ->
  exclusive (set_active t (Py.dict_del (active_positions t) symbol)).
Proof.
  intros (Hw & Hk & Hb). repeat split; cbn.
  - exact Hw.
  - now apply keys_dict_del_NoDup.
  - now apply busy_wallets_del_NoDup.
Qed.

Lemma In_keys_dict_del {V} (d : Py.dict V) (k x : string) :
  In x (Py.keys (Py.dict_del d k)) <-> In x (Py.keys d) /\ x <> k.
Proof.
  unfold Py.keys, Py.dict_del. rewrite !in_map_iff. split.
  - intros ([k' v] & <- & Hin). apply filter_In in Hin. destruct Hin as [Hin Hne].
    cbn in *. apply negb_true_iff, String.eqb_neq in Hne.
    split; [now exists (k', v) | congruence].
  - intros [([k' v] & <- & Hin) Hne]. exists (k', v). split; [reflexivity |].
    apply filter_In. split; [exact Hin |]. cbn in *.
    apply negb_true_iff, String.eqb_neq. congruence.
Qed.

Lemma staffed_del (t : Trader) (symbol : string) :
  staffed t -> staffed (set_active t (Py.dict_del (active_positions t) symbol)).
Proof.
  unfold staffed. cbn. rewrite !Forall_forall. intros H w Hw.
  apply H. now apply (busy_wallets_del_incl _ symbol).
Qed.

(** Deleting a position, with or without its timer, keeps the state
    consistent. *)
Lemma consistent_del (t : Trader) (symbol : string) :
  consistent t ->
  consistent (set_active t (Py.dict_del (active_positions t) symbol))
  /\ consistent
       (set_timers (set_active t (Py.dict_del (active_positions t) symbol))
                   (Py.dict_del (position_timers t) symbol)).
Proof.
  intros (He & Ht & Hst).
  pose proof (exclusive_del t symbol He) as He'.
  pose proof (staffed_del t symbol Hst) as Hst'.
  split; (split; [exact He' | split; [| exact Hst']]).
  - intros x Hx. cbn in *. apply In_keys_dict_del in Hx. apply Ht. tauto.
  - intros x Hx. cbn in *. apply In_keys_dict_del in Hx.
    apply In_keys_dict_del. split; [apply Ht |]; tauto.
Qed.

Lemma keeps_close_hedge_position symbol : keeps (close_hedge_position symbol).
Proof.
  intros s Hs. unfold close_hedge_position.
  unfold bind at 1. unfold get_self at 1.
  destruct (Py.dict_get (active_positions (self s)) symbol) as [positions |];
    [| exact Hs].
  unfold bind at 1. unfold _get_current_price, ask. cbn [next_price fst snd].
  set (s1 := mkSys (self s) _).
  unfold bind at 1.
  pose proof (selfless_close_legs symbol positions true s1) as Hself.
  destruct (close_legs symbol positions true s1) as [[success | e] s2];
    cbn [snd] in Hself; [| cbn; now rewrite Hself].
  destruct success; [| cbn; now rewrite Hself].
  unfold bind, get_self, put_self, ret, raise. cbn [self env].
  rewrite Hself. cbn [self].
  destruct (consistent_del (self s) symbol Hs) as [Hkept Hboth].
  destruct (Py.dict_mem _ symbol); cbn [snd self]; assumption.
Qed.

Lemma keeps_close_each symbols : keeps (close_each symbols).
Proof.
  induction symbols as [| symbol rest IH]; simpl.
  - intros s Hs. exact Hs.
  - apply keeps_bind; [apply keeps_close_hedge_position | intros _; exact IH].
Qed.

Lemma keeps_check_positions_for_closing : keeps check_positions_for_closing.
Proof.
  unfold check_positions_for_closing.
  apply keeps_bind; [apply selfless_keeps; intros s; reflexivity | intros current_time].
  apply keeps_bind; [apply selfless_keeps; intros s; reflexivity | intros t].
  apply keeps_close_each.
Qed.

Lemma keeps_close_all_positions : keeps close_all_positions.
Proof.
  unfold close_all_positions.
  apply keeps_bind; [apply selfless_keeps; intros s; reflexivity | intros t].
  destruct (active_positions t); [intros s Hs; exact Hs | apply keeps_close_each].
Qed.

Lemma teams_served_skipped (long short : list string) (a b : nat) :
  Permutation (long ++ short)
    ((firstn a long ++ firstn b short) ++ (skipn a long ++ skipn b short)).
Proof.
  rewrite <- (firstn_skipn a long) at 1. rewrite <- (firstn_skipn b short) at 1.
  rewrite <- !app_assoc. apply Permutation_app_head.
  rewrite !app_assoc. apply Permutation_app_tail. apply Permutation_app_comm.
Qed.

Lemma busy_wallets_snoc (d : Py.dict (list Leg)) (k : string) (legs : list Leg) :
  busy_wallets (d ++ [(k, legs)])%list
  = (busy_wallets d ++ List.map leg_wallet legs)%list.
Proof.
  unfold busy_wallets, Py.values. rewrite map_app, flat_map_app. simpl.
  now rewrite app_nil_r.
Qed.

Lemma available_not_busy (t : Trader) (w : string) :
  In w (get_available_wallets t) -> ~ In w (busy_wallets (active_positions t)).
Proof.
  unfold get_available_wallets. rewrite filter_In. intros [_ H].
  apply negb_true_iff in H. now apply mem_not_In.
Qed.

(** A new position on a symbol that is not live keeps the exclusion: its
    legs are cut from the wallets that no live position names. *)
Lemma keeps_open_team_hedge_position (symbol : string) (s : Sys) :
  consistent (self s) ->
  ~ In symbol (Py.keys (active_positions (self s))) ->
  consistent (self (snd (open_team_hedge_position symbol s))).
Proof.
  intros Hs Hfree.
  pose proof (quiet_team_hedge_plan symbol s) as Q.
  destruct (team_hedge_plan symbol s) as [[[p |] | e] s1] eqn:Hplan;
    cbn [snd] in Q; destruct Q as (Qself & _).
  2,3: unfold open_team_hedge_position, bind; rewrite Hplan; cbn;
       now rewrite Qself.
  rewrite (open_after_plan _ _ _ _ Hplan).
  destruct (plan_facts _ _ _ _ Hplan)
    as (_ & _ & _ & _ & Hl & Hsh & Hperm & _).
  rewrite <- Qself in Hl, Hsh.
  set (long_pairs := combine (long_team p) (long_quantities p)).
  set (short_pairs := combine (short_team p) (short_quantities p)).
  set (n := List.length long_pairs).
  set (kl := successes n (order_feed (env s1)) (opos (env s1))).
  set (ks := successes (List.length short_pairs) (order_feed (env s1))
                       (n + opos (env s1))).
  destruct (Nat.lt_ge_cases kl n) as [Hkl | Hkl].
  { rewrite execute_long_failure by assumption. cbn. now rewrite Qself. }
  assert (Hkl' : kl = n).
  { pose proof (successes_le n (order_feed (env s1)) (opos (env s1))) as H.
    fold kl in H. lia. }
  destruct (Nat.lt_ge_cases ks (List.length short_pairs)) as [Hks | Hks].
  { rewrite execute_short_failure by assumption. cbn. now rewrite Qself. }
  assert (Hks' : ks = List.length short_pairs).
  { pose proof (successes_le (List.length short_pairs) (order_feed (env s1))
                             (n + opos (env s1))) as H. fold ks in H. lia. }
  destruct (execute_success symbol p s1 Hl Hsh Hkl' Hks')
    as (s' & -> & Hact & (timer & Htimers) & Hw & _ & _ & _).
  cbn [snd]. destruct Hs as ((Hwallets & Hkeys & Hbusy) & Htimed & Hstaffed).
  rewrite Qself in Hact, Hw, Htimers. rewrite Qself in Hl, Hsh.
  set (legs := (legs_of BUY LONG long_pairs ++ legs_of SELL SHORT short_pairs)%list) in *.
  assert (Hserved : List.map leg_wallet legs
                    = (firstn (List.length (long_quantities p)) (long_team p)
                       ++ firstn (List.length (short_quantities p)) (short_team p))%list).
  { unfold legs. rewrite map_app, !legs_of_wallets.
    unfold long_pairs, short_pairs. now rewrite !map_fst_combine. }
  assert (Hteams : NoDup (long_team p ++ short_team p)).
  { eapply Permutation_NoDup; [symmetry; exact Hperm |].
    now apply List.NoDup_filter. }
  repeat split.
  - now rewrite Hw.
  - rewrite Hact, keys_dict_set.
    destruct (Py.dict_mem (active_positions (self s)) symbol) eqn:E;
      [assumption |].
    apply NoDup_app; [assumption | repeat constructor; auto |].
    intros k Hk [<- | []]. contradiction.
  - rewrite Hact, dict_set_fresh by assumption.
    rewrite busy_wallets_snoc.
    change (NoDup (busy_wallets (active_positions (self s))
                   ++ List.map leg_wallet legs)).
    rewrite Hserved.
    apply NoDup_app; [assumption | |].
    + eapply NoDup_app_remove_r. eapply Permutation_NoDup; [| exact Hteams].
      apply teams_served_skipped.
    + intros w Hw1 Hw2. apply (available_not_busy (self s) w); [| exact Hw1].
      eapply Permutation_in; [exact Hperm |].
      eapply Permutation_in; [symmetry; apply teams_served_skipped |].
      apply in_or_app. left. exact Hw2.
  - intros x Hx. unfold timed in Htimed.
    rewrite Hact, keys_dict_set in Hx. rewrite Htimers, keys_dict_set.
    assert (Hsym : In symbol
              (if Py.dict_mem (position_timers (self s)) symbol
               then Py.keys (position_timers (self s))
               else (Py.keys (position_timers (self s)) ++ [symbol])%list)).
    { destruct (Py.dict_mem (position_timers (self s)) symbol) eqn:E;
        [now apply dict_mem_In | apply in_or_app; right; now left]. }
    assert (Hold : forall y, In y (Py.keys (active_positions (self s))) ->
              In y (if Py.dict_mem (position_timers (self s)) symbol
                    then Py.keys (position_timers (self s))
                    else (Py.keys (position_timers (self s)) ++ [symbol])%list)).
    { intros y Hy. apply Htimed in Hy.
      destruct (Py.dict_mem (position_timers (self s)) symbol);
        [exact Hy | apply in_or_app; now left]. }
    destruct (Py.dict_mem (active_positions (self s)) symbol);
      [now apply Hold |].
    apply in_app_or in Hx. destruct Hx as [Hx | [<- | []]];
      [now apply Hold | exact Hsym].
  - unfold staffed. rewrite Hact, dict_set_fresh by assumption.
    rewrite busy_wallets_snoc, Hw. apply Forall_app. split; [exact Hstaffed |].
    change (Forall (fun w => In w (wallets (self s))) (List.map leg_wallet legs)).
    rewrite Hserved. apply Forall_app.
    split; apply registered_firstn; assumption.
Qed.

Lemma choice_inv (seq : list string) (s s' : Sys) (x : string) :
  choice seq s = (Py.Ok x, s') -> In x seq /\ self s' = self s.
Proof.
  unfold choice. destruct seq as [| a rest]; [discriminate |].
  set (seq := a :: rest).
  assert (Hlen : (0 < List.length seq)%nat) by (unfold seq; simpl; lia).
  clearbody seq.
  unfold bind. rewrite randbelow_eq. unfold ret. intros H.
  injection H as <- <-. split; [| reflexivity].
  apply nth_In. now apply randbelow_bound.
Qed.

Lemma keeps_execute_trading_round : keeps execute_trading_round.
Proof.
  intros s Hs. unfold execute_trading_round.
  unfold bind at 1. unfold get_self at 1.
  unfold bind at 1. unfold put_self at 1.
  unfold bind at 1. unfold get_self at 1. cbn [self env].
  set (t := set_round (self s) (S (round_counter (self s)))).
  assert (Ht : consistent t) by exact Hs.
  destruct ((List.length (get_available_wallets t) <? 2)%nat
            || match get_available_symbols t with [] => true | _ => false end);
    [exact Ht |].
  unfold bind at 1.
  destruct (choice (get_available_symbols t) (mkSys t (env s)))
    as [[symbol | e] s1] eqn:Hc.
  - apply choice_inv in Hc. destruct Hc as [Hin Hself]. cbn [self] in Hself.
    assert (Hfree : ~ In symbol (Py.keys (active_positions (self s1)))).
    { rewrite Hself. unfold get_available_symbols in Hin.
      apply filter_In in Hin. destruct Hin as [_ Hin].
      apply negb_true_iff in Hin. intros H. apply dict_mem_In in H. congruence. }
    assert (H1 : consistent (self s1)) by now rewrite Hself.
    pose proof (keeps_open_team_hedge_position symbol s1 H1 Hfree) as K.
    unfold bind. destruct (open_team_hedge_position symbol s1) as [[b | e] s2];
      exact K.
  - pose proof (quiet_selfless _ (quiet_randbelow
                  (List.length (get_available_symbols t))) (mkSys t (env s))) as Q.
    unfold choice in Hc. destruct (get_available_symbols t) as [| a rest].
    + unfold raise in Hc. inversion Hc; subst. exact Ht.
    + unfold bind in Hc. rewrite randbelow_eq in Hc. discriminate.
Qed.

Lemma consistent_reachable (t : Trader) : reachable t -> consistent t.
Proof.
  induction 1 as [t (Ha & _ & Hw) | t t' _ IH Hstep].
  - unfold consistent, exclusive, timed, staffed. rewrite Ha.
    repeat split; [exact Hw | constructor | constructor | | constructor].
    intros x [].
  - inversion Hstep as [s E1 E2 | s E1 E2 | s E1 E2]; subst.
    + now apply keeps_check_positions_for_closing.
    + now apply keeps_execute_trading_round.
    + now apply keeps_close_all_positions.
Qed.

Lemma live_legs_are_busy (d : Py.dict (list Leg)) (k : string) (legs : list Leg) :
  Py.dict_get d k = Some legs -> incl (List.map leg_wallet legs) (busy_wallets d).
Proof.
  induction d as [| [k' legs'] d IH]; simpl; [discriminate |].
  rewrite busy_wallets_cons. destruct (String.eqb k k').
  - intros H. inversion H; subst. apply incl_appl, incl_refl.
  - intros H. apply incl_appr. now apply IH.
Qed.

(** C6.  On a live position of a running trader, [close_hedge_position]
    sends one opposite-side order per recorded leg whatever the earlier
    answers were; it deletes the position and its timer exactly when every
    answer was a success, and otherwise leaves the trader's state, the
    position and its timer included, as it was. *)
Theorem close_hedge_position_all_or_nothing
    (s : Sys) (symbol : string) (positions : list Leg) :
  reachable (self s) ->
  Py.dict_get (active_positions (self s)) symbol = Some positions ->
  let attempts :=
    closing_orders symbol positions (order_feed (env s)) (opos (env s)) in
  let result := close_hedge_position symbol s in
  trace (env (snd result)) = (trace (env s) ++ attempts)%list
  /\ List.length attempts = List.length positions
  /\ (forallb o_ok attempts = true ->
      fst result = Py.Ok true
      /\ active_positions (self (snd result))
         = Py.dict_del (active_positions (self s)) symbol
      /\ position_timers (self (snd result))
         = Py.dict_del (position_timers (self s)) symbol
      /\ Py.dict_get (active_positions (self (snd result))) symbol = None
      /\ Py.dict_get (position_timers (self (snd result))) symbol = None)
  /\ (forallb o_ok attempts = false ->
      fst result = Py.Ok false /\ self (snd result) = self s).
Proof.
  intros Hreach Hlive.
  destruct (consistent_reachable _ Hreach) as (_ & Htimed & Hstaffed).
  apply close_hedge_position_run; [exact Hlive | |].
  - unfold staffed in Hstaffed. rewrite Forall_forall in *.
    intros pos Hpos. apply Hstaffed.
    apply (live_legs_are_busy _ _ _ Hlive). now apply in_map.
  - apply dict_mem_In, Htimed. apply dict_get_In_keys. congruence.
Qed.

Lemma NoDup_flat_map_owner {A B} (f : A -> list B) (l : list A) (a b : A) (w : B) :
  NoDup (flat_map f l) -> In a l -> In b l -> In w (f a) -> In w (f b) -> a = b.
Proof.
  induction l as [| x l IH]; simpl; intros Hnd Ha Hb Hwa Hwb; [contradiction |].
  pose proof (NoDup_app_remove_l _ _ Hnd) as Hrest.
  assert (Hcross : forall y, In y l -> In w (f x) -> In w (f y) -> False).
  { intros y Hy H1 H2. apply (NoDup_app_disjoint _ _ w Hnd H1).
    apply in_flat_map. now exists y. }
  destruct Ha as [-> | Ha], Hb as [-> | Hb]; auto.
  - exfalso. eauto.
  - exfalso. eauto.
Qed.

Lemma owner_symbol (d : Py.dict (list Leg)) (k1 k2 : string)
    (pos : Leg) (rest : list Leg) :
  NoDup (busy_wallets d) ->
  In (k1, pos :: rest) d -> In (k2, pos :: rest) d -> k1 = k2.
Proof.
  assert (Hbusy : forall (d' : Py.dict (list Leg)) k,
    In (k, pos :: rest) d' -> In (leg_wallet pos) (busy_wallets d')).
  { intros d' k Hin. unfold busy_wallets. apply in_flat_map.
    exists (pos :: rest). split; [| now left].
    unfold Py.values. apply in_map_iff. now exists (k, pos :: rest). }
  induction d as [| [k legs] d IH]; intros Hnd H1 H2; [contradiction |].
  rewrite busy_wallets_cons in Hnd.
  destruct H1 as [H1 | H1], H2 as [H2 | H2].
  - congruence.
  - exfalso. inversion H1; subst.
    apply (NoDup_app_disjoint _ _ (leg_wallet pos) Hnd); [now left |].
    now apply (Hbusy d k2).
  - exfalso. inversion H2; subst.
    apply (NoDup_app_disjoint _ _ (leg_wallet pos) Hnd); [now left |].
    now apply (Hbusy d k1).
  - apply IH; try assumption. eapply NoDup_app_remove_l. exact Hnd.
Qed.

(** C8.  In every state that the loop of [run] can reach, a symbol has at
    most one entry among the live positions and no wallet is named by the
    legs of two live positions (nor twice by one); and the teams of a new
    position are drawn from wallets that no live position names. *)
Theorem live_positions_are_exclusive (t : Trader) :
  reachable t ->
  NoDup (Py.keys (active_positions t))
  /\ NoDup (busy_wallets (active_positions t))
  /\ (forall symbol1 legs1 symbol2 legs2 w,
        In (symbol1, legs1) (active_positions t) ->
        In (symbol2, legs2) (active_positions t) ->
        In w (List.map leg_wallet legs1) ->
        In w (List.map leg_wallet legs2) ->
        symbol1 = symbol2 /\ legs1 = legs2)
  /\ (forall s symbol p s1,
        self s = t ->
        team_hedge_plan symbol s = (Py.Ok (Some p), s1) ->
        forall w, In w (long_team p ++ short_team p) ->
                  ~ In w (busy_wallets (active_positions t))).
Proof.
  intros Hreach.
  destruct (consistent_reachable t Hreach) as ((Hw & Hk & Hb) & _ & _).
  split; [exact Hk |]. split; [exact Hb |]. split.
  - intros symbol1 legs1 symbol2 legs2 w H1 H2 W1 W2.
    unfold busy_wallets in Hb.
    assert (E : legs1 = legs2).
    { apply (NoDup_flat_map_owner (fun positions => List.map leg_wallet positions)
               (Py.values (active_positions t)) legs1 legs2 w Hb);
        try assumption; unfold Py.values; apply in_map_iff;
        [now exists (symbol1, legs1) | now exists (symbol2, legs2)]. }
    split; [| exact E]. subst legs2.
    destruct legs1 as [| pos rest]; [contradiction |].
    apply (owner_symbol (active_positions t) symbol1 symbol2 pos rest);
      assumption.
  - intros s symbol p s1 <- Hplan w Hin.
    destruct (plan_facts _ _ _ _ Hplan) as (_ & _ & _ & _ & _ & _ & Hperm & _).
    apply available_not_busy. eapply Permutation_in; [exact Hperm | exact Hin].
Qed.

(** ** The statements at work on the scenario *)

(** Two long members, the second BUY refused: one SELL closes the first leg. *)
Lemma long_leg_failure_witness :
  fst (open_team_hedge_position "BTCUSDT" Scenario.second_buy_refused) = Py.Ok false
  /\ List.map (fun o => (o_wallet o, o_side o, o_ok o))
       (trace (env (snd (open_team_hedge_position "BTCUSDT"
                           Scenario.second_buy_refused))))
     = [("wallet_c", BUY, true); ("wallet_a", BUY, false); ("wallet_c", SELL, true)].
Proof.
  assert (E : exists p s1,
    team_hedge_plan "BTCUSDT" Scenario.second_buy_refused = (Py.Ok (Some p), s1))
    by (vm_compute; eauto).
  destruct E as (p & s1 & E).
  pose proof (long_leg_failure_rolls_back _ _ _ _ 2%nat E) as C. cbv zeta in C.
  vm_compute in E. injection E as <- <-.
  destruct C as (C1 & C2 & _).
  - vm_compute. lia.
  - intros [| i] Hi; [reflexivity | lia].
  - reflexivity.
  - split; [exact C1 | rewrite C2; reflexivity].
Defined.

(** Both BUY orders accepted, the SELL refused: both long legs are closed. *)
Lemma short_leg_failure_witness :
  fst (open_team_hedge_position "BTCUSDT" Scenario.sell_refused) = Py.Ok false
  /\ List.map (fun o => (o_wallet o, o_side o, o_ok o))
       (trace (env (snd (open_team_hedge_position "BTCUSDT" Scenario.sell_refused))))
     = [("wallet_c", BUY, true); ("wallet_a", BUY, true); ("wallet_b", SELL, false);
        ("wallet_c", SELL, true); ("wallet_a", SELL, true)]
  /\ active_positions
       (self (snd (open_team_hedge_position "BTCUSDT" Scenario.sell_refused))) = [].
Proof.
  assert (E : exists p s1,
    team_hedge_plan "BTCUSDT" Scenario.sell_refused = (Py.Ok (Some p), s1))
    by (vm_compute; eauto).
  destruct E as (p & s1 & E).
  pose proof (short_leg_failure_rolls_back _ _ _ _ 1%nat E) as C. cbv zeta in C.
  vm_compute in E. injection E as <- <-.
  destruct C as (C1 & C2 & _ & _ & C5).
  - vm_compute. lia.
  - intros [| [| i]] Hi; try reflexivity. vm_compute in Hi. lia.
  - reflexivity.
  - split; [exact C1 |]. split; [rewrite C2; reflexivity | rewrite C5; reflexivity].
Defined.



(** The three wallets of the scenario. *)
Lemma split_wallets_into_teams_witness :
  (2 <= List.length (wallets Scenario.trader))%nat
  /\ fst (split_wallets_into_teams (wallets Scenario.trader) Scenario.calm)
     = Py.Ok (["wallet_a"], ["wallet_c"; "wallet_b"]).
Proof.
  assert (H2 : (2 <= List.length (wallets Scenario.trader))%nat) by (simpl; lia).
  assert (Hnd : NoDup (wallets Scenario.trader)).
  { repeat constructor; simpl; intuition discriminate. }
  assert (Hreg : Forall (fun w => In w (wallets (self Scenario.calm)))
                        (wallets Scenario.trader)).
  { cbn. repeat (apply Forall_cons; [cbn; tauto |]). apply Forall_nil. }
  split; [exact H2 |].
  destruct (split_wallets_into_teams_covers_and_is_fair Scenario.calm
              (wallets Scenario.trader) H2 Hnd Hreg) as (C & _).
  rewrite C. reflexivity.
Defined.

(** The second closing order is refused: all three are sent, nothing is
    deleted. *)
Lemma close_hedge_position_witness :
  reachable Scenario.live
  /\ fst (close_hedge_position "BTCUSDT" Scenario.closing_half_refused) = Py.Ok false
  /\ self (snd (close_hedge_position "BTCUSDT" Scenario.closing_half_refused))
     = Scenario.live
  /\ List.map (fun o => (o_wallet o, o_side o, o_ok o))
       (trace (env (snd (close_hedge_position "BTCUSDT"
                           Scenario.closing_half_refused))))
     = [("wallet_c", SELL, true); ("wallet_b", SELL, false); ("wallet_a", BUY, true)].
Proof.
  assert (R : reachable (self Scenario.closing_half_refused)).
  { assert (L : self Scenario.closing_half_refused
                = self (snd (execute_trading_round Scenario.calm)))
      by (vm_compute; reflexivity).
    rewrite L.
    apply (reach_step (self Scenario.calm)); [| apply step_round].
    apply reach_fresh. split; [reflexivity |]. split; [reflexivity |].
    cbn. repeat constructor; cbn; intuition discriminate. }
  assert (E : exists positions,
    Py.dict_get (active_positions (self Scenario.closing_half_refused)) "BTCUSDT"
    = Some positions) by (vm_compute; eauto).
  destruct E as (positions & E).
  pose proof (close_hedge_position_all_or_nothing _ _ _ R E) as C. cbv zeta in C.
  vm_compute in E. injection E as <-.
  destruct C as (C1 & _ & _ & C4).
  destruct C4 as [C4 C5]; [reflexivity |].
  split; [exact R |]. split; [exact C4 |]. split; [exact C5 |].
  rewrite C1. reflexivity.
Defined.

(** No price at the sizing: the run is aborted. *)
Lemma missing_price_witness :
  price_feed (env (mkSys Scenario.trader (Scenario.world [None] []))) 0%nat = None
  /\ aborted (mkSys Scenario.trader (Scenario.world [None] []))
       (open_team_hedge_position "BTCUSDT"
          (mkSys Scenario.trader (Scenario.world [None] []))).
Proof.
  split; [reflexivity |].
  apply (missing_price_aborts_outside_distribution "BTCUSDT"
           (mkSys Scenario.trader (Scenario.world [None] []))).
  reflexivity.
Defined.

(** The state after one trading round from a fresh trader. *)
Lemma live_positions_witness :
  reachable (self (snd (execute_trading_round Scenario.calm)))
  /\ Py.keys (active_positions (self (snd (execute_trading_round Scenario.calm))))
     = ["BTCUSDT"]
  /\ NoDup (busy_wallets
              (active_positions (self (snd (execute_trading_round Scenario.calm))))).
Proof.
  assert (R : reachable (self (snd (execute_trading_round Scenario.calm)))).
  { apply (reach_step (self Scenario.calm)); [| apply step_round].
    apply reach_fresh. split; [reflexivity |]. split; [reflexivity |].
    cbn. repeat constructor; cbn; intuition discriminate. }
  split; [exact R |]. split; [reflexivity |].
  apply (live_positions_are_exclusive _ R).
Defined.

(** A market order as [place_order] builds it. *)
Lemma signed_request_witness :
  let wm := SignedClient.mkWalletManager "key" "secret" "Wallet A" "wallet_a"
                                         "https://fapi.example" in
  let request :=
    SignedClient.prepare_request (fun k m => k ++ "|" ++ m) (fun _ => "0.01")
      wm (1700000000 # 1) "/fapi/v1/order"
      (Some (SignedClient.place_order_params "BTCUSDT" "BUY" (1 # 100))) true in
  ~ In "timestamp" (Py.keys (SignedClient.place_order_params "BTCUSDT" "BUY" (1 # 100)))
  /\ ~ In "recvWindow" (Py.keys (SignedClient.place_order_params "BTCUSDT" "BUY" (1 # 100)))
  /\ Py.keys (SignedClient.params request)
     = ["symbol"; "side"; "type"; "quantity"; "timestamp"; "recvWindow"; "signature"]
  /\ SignedClient.headers request = [("X-MBX-APIKEY", "key")].
Proof.
  intros wm request.
  assert (H1 : ~ In "timestamp"
                 (Py.keys (SignedClient.place_order_params "BTCUSDT" "BUY" (1 # 100))))
    by (cbn; intuition discriminate).
  assert (H2 : ~ In "recvWindow"
                 (Py.keys (SignedClient.place_order_params "BTCUSDT" "BUY" (1 # 100))))
    by (cbn; intuition discriminate).
  destruct (signed_request_layout (fun k m => k ++ "|" ++ m) (fun _ => "0.01")
              wm (1700000000 # 1) "/fapi/v1/order"
              (SignedClient.place_order_params "BTCUSDT" "BUY" (1 # 100)))
    as (C1 & C2 & _ & C4).
  specialize (C4 H1 H2).
  split; [exact H1 |]. split; [exact H2 |]. split; [| exact C2].
  unfold request. rewrite C1, C4. reflexivity.
Defined.

(** The long team has two members and the single allocation of the
    fallback: its second member gets no order and no leg. *)
Lemma orders_follow_the_allocation_witness :
  NoDup (wallets (self Scenario.ticker_gap))
  /\ fst (open_team_hedge_position "BTCUSDT" Scenario.ticker_gap) = Py.Ok true
  /\ exists legs,
       Py.dict_get
         (active_positions
            (self (snd (open_team_hedge_position "BTCUSDT" Scenario.ticker_gap))))
         "BTCUSDT" = Some legs
       /\ List.map leg_wallet legs = ["wallet_c"; "wallet_b"]
       /\ ~ In "wallet_a" (List.map leg_wallet legs).
Proof.
  assert (Hnd : NoDup (wallets (self Scenario.ticker_gap))).
  { cbn. repeat constructor; cbn; intuition discriminate. }
  assert (E : exists p s1,
    team_hedge_plan "BTCUSDT" Scenario.ticker_gap = (Py.Ok (Some p), s1))
    by (vm_compute; eauto).
  destruct E as (p & s1 & E).
  pose proof (orders_follow_the_allocation _ _ _ _ E Hnd) as C. cbv zeta in C.
  vm_compute in E. injection E as <- <-.
  destruct C as (issued & _ & _ & _ & C).
  assert (Hok : fst (open_team_hedge_position "BTCUSDT" Scenario.ticker_gap)
                = Py.Ok true) by (vm_compute; reflexivity).
  destruct (C Hok) as (legs & L1 & L2 & L3).
  split; [exact Hnd |]. split; [exact Hok |].
  exists legs. split; [exact L1 |]. split; [exact L2 |].
  apply L3. cbn. auto.
Defined.

(** * Further properties of the code *)

(** ** Signing a dict that was signed before *)

Lemma dict_set_same {V} (d : Py.dict V) (k : string) (v : V) :
  Py.dict_get d k = Some v -> Py.dict_set d k v = d.
Proof.
  induction d as [| [k' v'] d IH]; simpl; [discriminate |].
  destruct (String.eqb k k') eqn:E.
  - intros H. inversion H. reflexivity.
  - intros H. now rewrite IH.
Qed.

Lemma dict_get_set_other {V} (d : Py.dict V) (k k' : string) (v : V) :
  k <> k' -> Py.dict_get (Py.dict_set d k' v) k = Py.dict_get d k.
Proof.
  intros Hne. assert (Hb : String.eqb k k' = false) by now apply String.eqb_neq.
  induction d as [| [k0 v0] d IH]; simpl.
  - now rewrite Hb.
  - destruct (String.eqb k' k0) eqn:E; simpl.
    + apply String.eqb_eq in E. subst k0. now rewrite Hb.
    + now rewrite IH.
Qed.

Lemma dict_get_del_other {V} (d : Py.dict V) (k k' : string) :
  k <> k' -> Py.dict_get (Py.dict_del d k') k = Py.dict_get d k.
Proof.
  intros Hne. unfold Py.dict_del.
  induction d as [| [k0 v0] d IH]; simpl; [reflexivity |].
  destruct (String.eqb k' k0) eqn:E; simpl.
  - apply String.eqb_eq in E. subst k0.
    apply String.eqb_neq in Hne. now rewrite Hne.
  - now rewrite IH.
Qed.

Lemma dict_get_app_l {V} (d e : Py.dict V) (k : string) (v : V) :
  Py.dict_get d k = Some v -> Py.dict_get (d ++ e)%list k = Some v.
Proof.
  induction d as [| [k0 v0] d IH]; simpl; [discriminate |].
  destruct (String.eqb k k0); auto.
Qed.

Lemma keys_dict_set_present {V} (d : Py.dict V) (k : string) (v : V) :
  In k (Py.keys d) -> Py.keys (Py.dict_set d k v) = Py.keys d.
Proof.
  intros H. rewrite keys_dict_set. apply dict_mem_In in H. now rewrite H.
Qed.

(** X1.  A parameter dict that [_make_request] has signed can be handed to
    it again (the method mutates the caller's dict): the keys keep their
    order whatever the clock reads, and at the same reading the request is
    the very same, old signature replaced by an equal one. *)
Theorem signing_again_keeps_the_layout
    (hmac_sha256_hex : string -> string -> string) (repr_float : Q -> string)
    (wm : SignedClient.WalletManager) (time_s time_s' : Q) (endpoint : string)
    (params : Py.dict SignedClient.Value) :
  let sign := SignedClient.prepare_request hmac_sha256_hex repr_float wm in
  let first := sign time_s endpoint (Some params) true in
  let again := sign time_s' endpoint (Some (SignedClient.params first)) true in
  Py.keys (SignedClient.params again) = Py.keys (SignedClient.params first)
  /\ (Py.int (time_s' * 1000) = Py.int (time_s * 1000) -> again = first).
Proof.
  intros sign first again.
  set (ts := SignedClient.VInt (Py.int (time_s * 1000))).
  set (ts' := SignedClient.VInt (Py.int (time_s' * 1000))).
  set (rw := SignedClient.VInt 5000).
  set (stamped := Py.dict_set (Py.dict_set params "timestamp" ts) "recvWindow" rw).
  set (sp := Py.dict_del stamped "signature").
  assert (Hdel : forall d : Py.dict SignedClient.Value,
    (if Py.dict_mem d "signature" then Py.dict_del d "signature" else d)
    = Py.dict_del d "signature").
  { intros d. destruct (Py.dict_mem d "signature") eqn:E; [reflexivity |].
    symmetry. apply dict_del_fresh. rewrite <- dict_mem_In. congruence. }
  assert (Hfirst : exists sig,
    SignedClient.params first = (sp ++ [("signature", SignedClient.VStr sig)])%list
    /\ sig = hmac_sha256_hex (SignedClient.api_secret wm)
               (SignedClient.query_string repr_float sp)).
  { eexists. split; [| reflexivity].
    unfold first, sign, SignedClient.prepare_request, SignedClient._generate_signature.
    fold ts rw. fold stamped. rewrite Hdel. fold sp.
    now rewrite dict_set_fresh by apply dict_del_absent. }
  destruct Hfirst as (sig & Hfirst & Hsig).
  assert (Hts : Py.dict_get sp "timestamp" = Some ts).
  { unfold sp, stamped. rewrite dict_get_del_other by discriminate.
    rewrite dict_get_set_other by discriminate. apply dict_get_set. }
  assert (Hrw : Py.dict_get sp "recvWindow" = Some rw).
  { unfold sp, stamped. rewrite dict_get_del_other by discriminate.
    apply dict_get_set. }
  assert (Hkeys : forall v d,
    d = Py.dict_set (Py.dict_set (sp ++ [("signature", SignedClient.VStr sig)])%list
                                 "timestamp" v) "recvWindow" rw ->
    Py.keys (Py.dict_del d "signature") = Py.keys sp
    /\ (v = ts -> Py.dict_del d "signature" = sp)).
  { intros v d ->.
    assert (S1 : Py.dict_set (sp ++ [("signature", SignedClient.VStr sig)])%list
                             "timestamp" ts
                 = (sp ++ [("signature", SignedClient.VStr sig)])%list).
    { apply dict_set_same. now apply dict_get_app_l. }
    assert (S2 : Py.dict_set (sp ++ [("signature", SignedClient.VStr sig)])%list
                             "recvWindow" rw
                 = (sp ++ [("signature", SignedClient.VStr sig)])%list).
    { apply dict_set_same. now apply dict_get_app_l. }
    assert (D : Py.dict_del (sp ++ [("signature", SignedClient.VStr sig)])%list
                            "signature" = sp).
    { rewrite dict_del_app, dict_del_fresh by apply dict_del_absent.
      cbn. apply app_nil_r. }
    split.
    - assert (K : forall (e : Py.dict SignedClient.Value) k,
        Py.keys (Py.dict_del e k) = filter (fun x => negb (String.eqb k x)) (Py.keys e)).
      { intros e k. unfold Py.keys, Py.dict_del.
        induction e as [| [k0 v0] e IH]; simpl; [reflexivity |].
        destruct (String.eqb k k0); simpl; now rewrite IH. }
      rewrite K, !keys_dict_set_present.
      + rewrite <- K, D. reflexivity.
      + unfold Py.keys. rewrite map_app, in_app_iff. left.
        apply dict_get_In_keys. rewrite Hts. discriminate.
      + rewrite keys_dict_set_present.
        * unfold Py.keys. rewrite map_app, in_app_iff. left.
          apply dict_get_In_keys. rewrite Hrw. discriminate.
        * unfold Py.keys. rewrite map_app, in_app_iff. left.
          apply dict_get_In_keys. rewrite Hts. discriminate.
    - intros ->. now rewrite S1, S2, D. }
  unfold again, sign, SignedClient.prepare_request, SignedClient._generate_signature.
  fold ts' rw. rewrite Hfirst, Hdel.
  destruct (Hkeys ts' _ eq_refl) as [K1 K2].
  split.
  - cbn [SignedClient.params].
    rewrite dict_set_fresh by apply dict_del_absent.
    unfold Py.keys in *. rewrite !map_app, K1. reflexivity.
  - intros Ht. assert (E : ts' = ts) by (unfold ts, ts'; now rewrite Ht).
    rewrite (K2 E). rewrite dict_set_fresh by (subst sp; apply dict_del_absent).
    unfold first, sign, SignedClient.prepare_request. f_equal.
    fold ts rw. fold stamped. unfold SignedClient._generate_signature.
    rewrite Hdel. fold sp.
    rewrite dict_set_fresh by apply dict_del_absent.
    unfold SignedClient.query_string. reflexivity.
Qed.

(** ** Wallet pairs *)

Lemma combinations2_length {A} (l : list A) :
  (2 * List.length (combinations2 l) = List.length l * (List.length l - 1))%nat.
Proof.
  induction l as [| x rest IH]; simpl; [reflexivity |].
  rewrite length_app, length_map, Nat.sub_0_r.
  destruct rest as [| y rest']; [reflexivity |].
  simpl List.length in *. nia.
Qed.

Lemma combinations2_In {A} (l : list A) (a b : A) :
  In (a, b) (combinations2 l) ->
  exists l1 l2 l3, l = (l1 ++ a :: l2 ++ b :: l3)%list.
Proof.
  induction l as [| x rest IH]; simpl; [contradiction |].
  rewrite in_app_iff, in_map_iff. intros [(y & E & Hy) | H].
  - inversion E; subst. apply in_split in Hy. destruct Hy as (l2 & l3 & ->).
    now exists [], l2, l3.
  - destruct (IH H) as (l1 & l2 & l3 & ->). now exists (x :: l1), l2, l3.
Qed.

(** X2.  [get_available_pairs] is empty exactly when fewer than two
    wallets are idle -- so the guard of the parallel mode of [run] admits
    a round exactly when [execute_trading_round] will not turn it down for
    lack of wallets -- and otherwise lists each unordered pair of idle
    wallets once: [n (n - 1) / 2] pairs of two different idle wallets. *)
Theorem available_pairs_are_the_idle_pairs (t : Trader) :
  let idle := get_available_wallets t in
  let pairs := get_available_pairs t in
  (nonempty pairs = true <-> (2 <= List.length idle)%nat)
  /\ (2 * List.length pairs = List.length idle * (List.length idle - 1))%nat
  /\ (forall a b, In (a, b) pairs -> In a idle /\ In b idle)
  /\ (NoDup (wallets t) -> forall a b, In (a, b) pairs -> a <> b).
Proof.
  intros idle pairs.
  assert (Hp : pairs = combinations2 idle \/ (pairs = [] /\ (List.length idle < 2)%nat)).
  { unfold pairs, get_available_pairs. fold idle.
    destruct (List.length idle <? 2)%nat eqn:E.
    - right. split; [reflexivity | now apply Nat.ltb_lt].
    - now left. }
  pose proof (combinations2_length idle) as Hlen.
  split; [| split; [| split]].
  - destruct Hp as [-> | [-> Hs]].
    + destruct (combinations2 idle) eqn:E; simpl in *.
      * split; [discriminate |]. intros H.
        destruct idle as [| x [| y r]]; simpl in *; try lia; discriminate.
      * split; [| reflexivity]. intros _.
        destruct idle as [| x [| y r]]; simpl in *; try discriminate; lia.
    + simpl. split; [discriminate | lia].
  - destruct Hp as [-> | [-> Hs]]; [exact Hlen |].
    destruct idle as [| x [| y r]]; simpl in *; lia.
  - intros a b H. destruct Hp as [Hp | [Hp _]]; rewrite Hp in H; [| contradiction].
    apply combinations2_In in H. destruct H as (l1 & l2 & l3 & ->).
    split; apply in_or_app; right; [now left |].
    right. apply in_or_app. right. now left.
  - intros Hnd a b H. destruct Hp as [Hp | [Hp _]]; rewrite Hp in H; [| contradiction].
    apply combinations2_In in H. destruct H as (l1 & l2 & l3 & E).
    assert (Hidle : NoDup idle) by now apply List.NoDup_filter.
    rewrite E in Hidle. apply NoDup_app_remove_l in Hidle.
    inversion Hidle as [| ? ? Hnot _]; subst. intros ->.
    apply Hnot, in_or_app. right. now left.
Qed.

(** ** The size of a position *)


Lemma precision_unit_pos (d : nat) : 0 < precision_unit d.
Proof.
  unfold precision_unit. apply Qlt_shift_div_l; [apply pow10_pos | lra].
Qed.


(** ** Allocations: how many and how small *)

Lemma sum_repeat (x : Q) (n : nat) :
  Py.sum (repeat x n) == x * inject_Z (Z.of_nat n).
Proof.
  induction n as [| n IH].
  - unfold Py.sum. simpl. ring.
  - cbn [repeat]. rewrite sum_cons, IH, Nat2Z.inj_succ.
    unfold Z.succ. rewrite inject_Z_plus. change (inject_Z 1) with 1. ring.
Qed.

(** A team size that a float holds exactly is never enlarged. *)
Lemma effective_team_size_le (total mq : Q) (team_size n : nat) :
  0 < mq -> (Z.of_nat team_size < 2 ^ 53)%Z ->
  effective_team_size total mq team_size = Some n -> (n <= team_size)%nat.
Proof.
  intros Hmq Hk. unfold effective_team_size.
  destruct (Py.flt total (Py.fmul mq (inject_Z (Z.of_nat team_size)))) eqn:E.
  - destruct (Py.int (Py.fdiv total mq) <=? 1)%Z eqn:E1; [discriminate |].
    apply Z.leb_gt in E1. intros H. injection H as <-.
    unfold Py.flt, Py.fmul in E. apply Qlt_bool_iff in E.
    rewrite double_idem in E.
    pose proof (double_pos mq Hmq) as HM.
    assert (HK : Py.double (inject_Z (Z.of_nat team_size))
                 == inject_Z (Z.of_nat team_size)) by (apply double_int; lia).
    assert (Ec : Py.double mq * Py.double (inject_Z (Z.of_nat team_size))
                 == Py.double mq * inject_Z (Z.of_nat team_size))
      by (apply Qmult_comp; [reflexivity | exact HK]).
    rewrite (double_comp _ _ Ec) in E.
    assert (HTle : Py.double total <= Py.double mq * inject_Z (Z.of_nat team_size)).
    { apply Qnot_lt_le. intros Hlt. apply Qlt_le_weak, double_mono in Hlt.
      rewrite double_idem in Hlt. lra. }
    assert (Hx : Py.fdiv total mq <= inject_Z (Z.of_nat team_size)).
    { unfold Py.fdiv.
      apply Qle_trans with (Py.double (inject_Z (Z.of_nat team_size)));
        [| rewrite HK; apply Qle_refl].
      apply double_mono. apply Qle_shift_div_r; [exact HM |].
      rewrite Qmult_comm. exact HTle. }
    set (x := Py.fdiv total mq) in *.
    assert (Hint : (Py.int x <= Z.of_nat team_size)%Z).
    { unfold Py.int in *. destruct (Py.Qlt_bool x 0) eqn:Eneg.
      - apply Qlt_bool_iff in Eneg. assert (H0 : 0 <= - x) by lra.
        apply Qfloor_resp_le in H0. change (Qfloor 0) with 0%Z in H0. lia.
      - apply Qfloor_resp_le in Hx. rewrite Qfloor_Z in Hx. exact Hx. }
    lia.
  - intros H. injection H as <-. lia.
Qed.

(** Without the shrink the whole team is served. *)
Lemma effective_team_size_full (total mq : Q) (team_size : nat) :
  Py.flt total (Py.fmul mq (inject_Z (Z.of_nat team_size))) = false ->
  effective_team_size total mq team_size = Some team_size.
Proof. intros H. unfold effective_team_size. now rewrite H. Qed.

Lemma raise_to_minimum_spec (mq : Q) (d : nat) (l : list Q) :
  at_precision d mq -> Forall (at_precision d) l ->
  Forall (fun q => mq <= q /\ at_precision d q) (raise_to_minimum mq l).
Proof.
  intros Hmq. unfold raise_to_minimum. induction 1 as [| q l Hq _ IH]; simpl;
    constructor; auto.
  destruct (Py.Qlt_bool q mq) eqn:E.
  - split; [lra | exact Hmq].
  - apply Qlt_bool_false in E. now split.
Qed.

(** With the minimum covered for every member, [allocate] gives each of
    them at least the minimum, at the symbol's precision. *)
Lemma allocate_minimum (total mq : Q) (d n : nat) (s s' : Sys) (qs : list Q) :
  at_precision d mq -> mq * inject_Z (Z.of_nat n) <= total ->
  allocate total mq d n s = (Py.Ok qs, s') ->
  Forall (fun q => mq <= q /\ at_precision d q) qs.
Proof.
  intros Hmq Hcover. unfold allocate.
  destruct (Qle_bool (total - mq * inject_Z (Z.of_nat n)) 0) eqn:Hrem.
  - apply Qle_bool_iff in Hrem.
    destruct n as [| n]; [discriminate |].
    unfold ret. intros H. injection H as <- _.
    change (Forall (fun q => mq <= q /\ at_precision d q)
              (List.map (fun q => Py.round q d)
                 (set_last (repeat mq (S n))
                    (total - Py.sum (removelast (repeat mq (S n))))))).
    assert (Hl : removelast (repeat mq (S n)) = repeat mq n).
    { replace (repeat mq (S n)) with (repeat mq n ++ [mq])%list.
      - apply removelast_last.
      - change [mq] with (repeat mq 1). rewrite <- repeat_app. f_equal. lia. }
    unfold set_last. rewrite Hl, map_app. apply Forall_app. split.
    + rewrite Forall_map, Forall_forall. intros q Hq. apply repeat_spec in Hq.
      subst q. split; [| apply round_at_precision].
      apply round_ge_at_precision; [exact Hmq | lra].
    + repeat constructor; [| apply round_at_precision].
      apply round_ge_at_precision; [exact Hmq |].
      rewrite sum_repeat. rewrite Nat2Z.inj_succ in Hcover, Hrem.
      unfold Z.succ in *. rewrite inject_Z_plus in Hcover, Hrem.
      change (inject_Z 1) with 1 in *. lra.
  - unfold bind. rewrite randoms_eq.
    destruct n as [| n]; [discriminate |].
    destruct (Qeq_bool _ 0); [discriminate |].
    unfold ret. intros H. injection H as <- _.
    unfold spread. apply raise_to_minimum_spec; [exact Hmq |].
    unfold set_last. apply Forall_app. split.
    + rewrite Forall_forall. intros q Hq. apply In_removelast in Hq.
      apply in_map_iff in Hq. destruct Hq as (x & <- & _).
      apply round_at_precision.
    + repeat constructor. apply round_at_precision.
Qed.

Lemma allocate_at_precision (total mq : Q) (d n : nat) (s s' : Sys) (qs : list Q) :
  (1 <= n)%nat -> at_precision d mq ->
  allocate total mq d n s = (Py.Ok qs, s') -> Forall (at_precision d) qs.
Proof.
  intros Hn Hmq Ha.
  destruct (allocate_spec total mq d n s Hn Hmq) as [[H _] | (others & last & H & Ho & Hl)];
    rewrite Ha in H; cbn [fst] in H; [discriminate |].
  injection H as ->. apply Forall_app. split; [exact Ho |].
  constructor; [| constructor]. cbv zeta in Hl.
  destruct Hl as [[-> _] | (_ & -> & _)]; [apply round_at_precision | exact Hmq].
Qed.

Lemma distribute_nonempty
    (s : Sys) (total : Q) (team_size : nat) (symbol : string) (qs : list Q) :
  (1 <= team_size)%nat ->
  fst (distribute_quantity_in_teams total team_size symbol s) = Py.Ok qs ->
  (1 <= List.length qs)%nat.
Proof.
  intros Hts. unfold distribute_quantity_in_teams.
  destruct (team_size =? 1)%nat eqn:E1.
  { intros H. inversion H; subst. simpl. lia. }
  apply Nat.eqb_neq in E1.
  unfold bind, _get_current_price, ask, get_self. cbn [next_price fst snd self].
  destruct (truthy (price_feed (env s) (ppos (env s)))) as [price |].
  2:{ intros H. inversion H; subst. simpl. lia. }
  cbn [self].
  set (mq := min_quantity_of (config (self s)) price symbol).
  destruct (effective_team_size total mq team_size) as [n |] eqn:Hn.
  2:{ intros H. inversion H; subst. simpl. lia. }
  apply effective_team_size_ge in Hn; [| assumption | assumption].
  set (s1 := mkSys _ _).
  destruct (allocate total mq (snd (symbol_precision symbol)) n s1)
    as [[qs' | e] s2] eqn:Ha; cbn [fst]; intros H; inversion H; subst.
  apply allocate_length in Ha. lia.
Qed.

Lemma distribute_length_bounds
    (s : Sys) (total : Q) (team_size : nat) (symbol : string) (qs : list Q) :
  (1 <= team_size)%nat -> (Z.of_nat team_size < 2 ^ 53)%Z ->
  fst (distribute_quantity_in_teams total team_size symbol s) = Py.Ok qs ->
  (1 <= List.length qs <= team_size)%nat.
Proof.
  intros Hts Hk Hres.
  split; [exact (distribute_nonempty s total team_size symbol qs Hts Hres) |].
  revert Hres. unfold distribute_quantity_in_teams.
  destruct (team_size =? 1)%nat eqn:E1.
  { intros H. inversion H; subst. simpl. lia. }
  unfold bind, _get_current_price, ask, get_self. cbn [next_price fst snd self].
  destruct (truthy (price_feed (env s) (ppos (env s)))) as [price |].
  2:{ intros H. inversion H; subst. simpl. lia. }
  cbn [self].
  set (mq := min_quantity_of (config (self s)) price symbol).
  destruct (effective_team_size total mq team_size) as [n |] eqn:Hn.
  2:{ intros H. inversion H; subst. simpl. lia. }
  apply effective_team_size_le in Hn; [| apply min_quantity_pos | exact Hk].
  set (s1 := mkSys _ _).
  destruct (allocate total mq (snd (symbol_precision symbol)) n s1)
    as [[qs' | e] s2] eqn:Ha; cbn [fst]; intros H; inversion H; subst.
  apply allocate_length in Ha. lia.
Qed.

(** X4.  [distribute_quantity_in_teams] never returns more allocations
    than the team has members, and never none: whatever the price ticker
    and the random source do, a returned list has between one and
    [team_size] elements.  The team size is one that a float holds
    exactly, below [2^53]: the code multiplies and divides in floats. *)
Theorem allocations_never_outnumber_the_team
    (s : Sys) (total : Q) (team_size : nat) (symbol : string) (qs : list Q) :
  (1 <= team_size)%nat -> (Z.of_nat team_size < 2 ^ 53)%Z ->
  fst (distribute_quantity_in_teams total team_size symbol s) = Py.Ok qs ->
  (1 <= List.length qs <= team_size)%nat.
Proof. apply distribute_length_bounds. Qed.

(** X5.  With a price and a team of at least two, what
    [distribute_quantity_in_teams] returns is the single [[total]] or at
    least two allocations at the symbol's precision, each of them at least
    the minimum quantity when the total covers the minimum for that many;
    and when the float comparison of the total with
    [min_quantity * team_size] does not ask for a smaller team, each
    member gets an allocation. *)
Theorem allocations_respect_the_minimum
    (s : Sys) (total : Q) (team_size : nat) (symbol : string) (price : Q)
    (qs : list Q) :
  truthy (price_feed (env s) (ppos (env s))) = Some price ->
  (2 <= team_size)%nat ->
  fst (distribute_quantity_in_teams total team_size symbol s) = Py.Ok qs ->
  let min_quantity := min_quantity_of (config (self s)) price symbol in
  let d := snd (symbol_precision symbol) in
  let served := Forall (fun q => min_quantity <= q /\ at_precision d q) qs in
  (qs = [total]
   \/ ((2 <= List.length qs)%nat
       /\ Forall (at_precision d) qs
       /\ (min_quantity * inject_Z (Z.of_nat (List.length qs)) <= total -> served)))
  /\ (Py.flt total (Py.fmul min_quantity (inject_Z (Z.of_nat team_size))) = false ->
      List.length qs = team_size).
Proof.
  intros Hprice Hts Hres mq d served.
  unfold distribute_quantity_in_teams in Hres.
  destruct (team_size =? 1)%nat eqn:E1; [apply Nat.eqb_eq in E1; lia |].
  unfold bind, _get_current_price, ask, get_self in Hres.
  cbn [next_price fst snd self] in Hres. rewrite Hprice in Hres.
  cbn [self] in Hres. fold mq d in Hres.
  destruct (effective_team_size total mq team_size) as [n |] eqn:Hn.
  - assert (Hb : (2 <= n)%nat)
      by (apply (effective_team_size_ge total mq team_size n); [lia | lia | exact Hn]).
    set (s1 := mkSys _ _) in Hres.
    destruct (allocate total mq d n s1) as [[qs' | e] s2] eqn:Ha;
      cbn [fst] in Hres; inversion Hres; subst qs'.
    pose proof (allocate_length _ _ _ _ _ _ _ Ha) as Hlen.
    split.
    + right. split; [lia |]. split.
      * eapply allocate_at_precision;
          [| apply min_quantity_at_precision | exact Ha]. lia.
      * rewrite Hlen. intros Hcover.
        eapply allocate_minimum;
          [apply min_quantity_at_precision | exact Hcover | exact Ha].
    + intros Hfull. rewrite (effective_team_size_full _ _ _ Hfull) in Hn.
      injection Hn as <-. exact Hlen.
  - inversion Hres; subst. split; [now left |].
    intros Hfull. rewrite (effective_team_size_full _ _ _ Hfull) in Hn.
    discriminate.
Qed.

(** ** What opening and closing do to the trader *)

Lemma answers_kept_bind {A B} (c : M A) (k : A -> M B) :
  answers_kept c -> (forall a, answers_kept (k a)) -> answers_kept (bind c k).
Proof.
  intros Hc Hk s. unfold bind. specialize (Hc s).
  destruct (c s) as [[a | e] s1]; simpl in *; [| exact Hc].
  rewrite (Hk a s1). exact Hc.
Qed.

Lemma quiet_answers_kept {A} (c : M A) : quiet c -> answers_kept c.
Proof. intros H s. apply H. Qed.

Lemma answers_kept_place_order w symbol side q :
  answers_kept (place_order w symbol side q).
Proof. intros s. reflexivity. Qed.

Lemma answers_kept_close_legs symbol positions :
  forall success, answers_kept (close_legs symbol positions success).
Proof.
  induction positions as [| pos rest IH]; intros success; simpl.
  - intros s. reflexivity.
  - apply answers_kept_bind;
      [apply quiet_answers_kept, quiet_wallet_named | intros _].
    apply answers_kept_bind; [apply answers_kept_place_order | intros order].
    apply IH.
Qed.

(** [close_hedge_position] deletes the position, and its timer with it
    unless the timer is missing, or leaves the trader as it was. *)
Lemma close_hedge_position_effect (symbol : string) (s : Sys) :
  let s' := snd (close_hedge_position symbol s) in
  order_feed (env s') = order_feed (env s)
  /\ (self s' = self s
      \/ self s' = without_position (self s) symbol
      \/ (self s' = set_active (self s)
                      (Py.dict_del (active_positions (self s)) symbol)
          /\ Py.dict_mem (position_timers (self s)) symbol = false)).
Proof.
  cbv zeta.
  enough (H : exists s',
    snd (close_hedge_position symbol s) = s'
    /\ order_feed (env s') = order_feed (env s)
    /\ (self s' = self s
        \/ self s' = without_position (self s) symbol
        \/ (self s' = set_active (self s)
                        (Py.dict_del (active_positions (self s)) symbol)
            /\ Py.dict_mem (position_timers (self s)) symbol = false))).
  { destruct H as (s' & -> & H). exact H. }
  unfold close_hedge_position.
  unfold bind at 1. unfold get_self at 1.
  destruct (Py.dict_get (active_positions (self s)) symbol) as [positions |];
    [| eexists; split; [reflexivity | cbn; auto]].
  unfold bind at 1. unfold _get_current_price, ask. cbn [next_price fst snd].
  set (s1 := mkSys (self s) _).
  unfold bind at 1.
  pose proof (selfless_close_legs symbol positions true s1) as Hself.
  pose proof (answers_kept_close_legs symbol positions true s1) as Hfeed.
  destruct (close_legs symbol positions true s1) as [[success | e] s2];
    cbn [snd] in Hself, Hfeed;
    [| eexists; split; [reflexivity | cbn; auto]].
  destruct success; [| eexists; split; [reflexivity | cbn; auto]].
  unfold bind, get_self, put_self, ret, raise. cbn [self env].
  rewrite Hself. cbn [self].
  destruct (Py.dict_mem _ symbol) eqn:E; cbn in E;
    (eexists; split; [reflexivity |]); cbn [snd self env].
  - split; [exact Hfeed |]. right. left. reflexivity.
  - split; [exact Hfeed |]. right. right. split; reflexivity.
Qed.

Lemma successes_all_inv (n : nat) (feed : nat -> bool) (i : nat) :
  successes n feed i = n ->
  forall j, (j < n)%nat -> feed (i + j)%nat = true.
Proof.
  revert i. induction n as [| n IH]; intros i H j Hj; [lia |].
  simpl in H. destruct (feed i) eqn:E; [| discriminate].
  injection H as H. destruct j as [| j].
  - now rewrite Nat.add_0_r.
  - replace (i + S j)%nat with (S i + j)%nat by lia. apply IH; [exact H | lia].
Qed.

Lemma opening_orders_accepted symbol side team pairs feed i :
  (forall j, (j < List.length pairs)%nat -> feed (i + j)%nat = true) ->
  opening_orders symbol side pairs feed i
  = List.map (order_of_leg symbol) (legs_of side team pairs).
Proof.
  revert i. induction pairs as [| [w q] rest IH]; intros i H; simpl; [reflexivity |].
  f_equal.
  - unfold order_of_leg. simpl. f_equal.
    specialize (H 0%nat). rewrite Nat.add_0_r in H. apply H. simpl. lia.
  - apply IH. intros j Hj. replace (S i + j)%nat with (i + S j)%nat by lia.
    apply H. simpl. lia.
Qed.

(** The state in which [execute_team_hedge] ends when every order is
    accepted. *)
Lemma execute_success_state (symbol : string) (p : Plan) (s : Sys) :
  let long_pairs := combine (long_team p) (long_quantities p) in
  let short_pairs := combine (short_team p) (short_quantities p) in
  let n := List.length long_pairs in
  let legs := (legs_of BUY LONG long_pairs ++ legs_of SELL SHORT short_pairs)%list in
  let hold := hold_time_of (config (self s)) (raw (env s) (rpos (env s))) in
  let timer :=
    mkTimer (clock (env s) (S (cpos (env s))))
            (clock (env s) (S (S (cpos (env s)))) + Py.timedelta_minutes hold)
            hold in
  Forall (fun w => In w (wallets (self s))) (long_team p) ->
  Forall (fun w => In w (wallets (self s))) (short_team p) ->
  successes n (order_feed (env s)) (opos (env s)) = n ->
  successes (List.length short_pairs) (order_feed (env s)) (n + opos (env s))
  = List.length short_pairs ->
  exists w,
    execute_team_hedge symbol p s
    = (Py.Ok true, mkSys (with_position (self s) symbol legs timer) w)
    /\ trace w = (trace (env s) ++ List.map (order_of_leg symbol) legs)%list
    /\ order_feed w = order_feed (env s).
Proof.
  intros long_pairs short_pairs n legs hold timer Hl Hs Hkl Hks.
  unfold execute_team_hedge.
  unfold bind at 1. rewrite open_legs_eq by now apply registered_pairs.
  fold long_pairs n. rewrite Hkl, Nat.ltb_irrefl.
  replace (firstn n long_pairs) with long_pairs by (symmetry; apply firstn_all).
  cbn [negb app].
  unfold bind at 1. rewrite open_legs_eq by now apply registered_pairs.
  cbn [self env order_feed opos issue]. rewrite opening_orders_length.
  fold short_pairs n. rewrite Hks, Nat.ltb_irrefl, firstn_all.
  unfold bind at 1. unfold get_self at 1.
  unfold bind at 1. unfold uniform, random, bind, ask, ret. cbn [env self next_raw].
  rewrite !wallets_named_ok by assumption.
  cbn. eexists. split; [reflexivity |]. cbn. split; [| reflexivity].
  rewrite <- app_assoc. f_equal. unfold legs. rewrite map_app. f_equal.
  - apply opening_orders_accepted. fold n. now apply successes_all_inv.
  - apply opening_orders_accepted. now apply successes_all_inv.
Qed.

Lemma clockless_ret {A} (a : A) : clockless (ret a).
Proof. intros s. simpl. auto. Qed.

Lemma clockless_raise {A} (e : Py.Exn) : clockless (@raise A e).
Proof. intros s. simpl. auto. Qed.

Lemma clockless_bind {A B} (c : M A) (k : A -> M B) :
  clockless c -> (forall a, clockless (k a)) -> clockless (bind c k).
Proof.
  intros Hc Hk s. unfold bind. specialize (Hc s).
  destruct (c s) as [[a | e] s1]; simpl in *; [| exact Hc].
  specialize (Hk a s1). destruct Hc as [H1 H2], Hk as [K1 K2].
  split; congruence.
Qed.

Lemma clockless_get_self : clockless get_self.
Proof. intros s. simpl. auto. Qed.

Lemma clockless_next_raw : clockless (ask next_raw).
Proof. intros s. simpl. auto. Qed.

Lemma clockless_next_price : clockless (ask next_price).
Proof. intros s. simpl. auto. Qed.

Lemma clockless_if {A} (b : bool) (c1 c2 : M A) :
  clockless c1 -> clockless c2 -> clockless (if b then c1 else c2).
Proof. now destruct b. Qed.

Lemma clockless_match_option {A B} (o : option B) (c1 : B -> M A) (c2 : M A) :
  (forall b, clockless (c1 b)) -> clockless c2 ->
  clockless (match o with Some b => c1 b | None => c2 end).
Proof. destruct o; auto. Qed.

Lemma clockless_match_nat {A} (n : nat) (c1 : M A) (c2 : nat -> M A) :
  clockless c1 -> (forall m, clockless (c2 m)) ->
  clockless (match n with O => c1 | S m => c2 m end).
Proof. destruct n; auto. Qed.

Create HintDb clockless.
#[local] Hint Resolve clockless_ret clockless_raise clockless_get_self
  clockless_next_raw clockless_next_price clockless_if clockless_match_option
  clockless_match_nat : clockless.
#[local] Hint Extern 1 (clockless (bind _ _)) =>
  apply clockless_bind; [| intros ?] : clockless.
#[local] Hint Extern 1 (clockless (let '(_, _) := ?p in _)) => destruct p : clockless.

Lemma clockless_shuffle_loop {A} i : forall x : list A, clockless (shuffle_loop i x).
Proof.
  induction i as [| i IH]; intros x; simpl; unfold randbelow; auto with clockless.
Qed.

Lemma clockless_randoms n : clockless (randoms n).
Proof. induction n as [| n IH]; simpl; unfold random; auto with clockless. Qed.

Lemma clockless_wallets_named ids : clockless (wallets_named ids).
Proof.
  induction ids as [| w ids IH]; simpl; unfold wallet_named; auto with clockless.
Qed.
#[local] Hint Resolve clockless_shuffle_loop clockless_randoms
  clockless_wallets_named : clockless.

Lemma clockless_team_hedge_plan symbol : clockless (team_hedge_plan symbol).
Proof.
  unfold team_hedge_plan, team_hedge_allocation, calculate_position_size,
    split_wallets_into_teams, distribute_quantity_in_teams, allocate, shuffle,
    randint, uniform, random, randbelow, _get_current_price.
  auto 30 with clockless.
Qed.


(** [open_team_hedge_position] either leaves the trader as it was and does
    not return [True], or returns [True] after one accepted order per leg
    and records these legs with a timer read off the clock. *)
Lemma open_team_hedge_position_effect (symbol : string) (s : Sys) :
  exists r s',
    open_team_hedge_position symbol s = (r, s')
    /\ order_feed (env s') = order_feed (env s)
    /\ ((r <> Py.Ok true /\ self s' = self s)
        \/ (r = Py.Ok true
            /\ exists p s1 raw_hold,
                 team_hedge_plan symbol s = (Py.Ok (Some p), s1)
                 /\ let legs :=
                      (legs_of BUY LONG (combine (long_team p) (long_quantities p))
                       ++ legs_of SELL SHORT
                            (combine (short_team p) (short_quantities p)))%list in
                    let hold := hold_time_of (config (self s)) raw_hold in
                    let timer :=
                      mkTimer (clock (env s) (S (cpos (env s))))
                              (clock (env s) (S (S (cpos (env s))))
                               + Py.timedelta_minutes hold) hold in
                    self s' = with_position (self s) symbol legs timer
                    /\ trace (env s')
                       = (trace (env s) ++ List.map (order_of_leg symbol) legs)%list)).
Proof.
  pose proof (quiet_team_hedge_plan symbol s) as Q.
  pose proof (clockless_team_hedge_plan symbol s) as C.
  destruct (team_hedge_plan symbol s) as [[[p |] | e] s1] eqn:Hplan;
    cbn [snd] in Q, C; destruct Q as (Qself & Qfeed & Qopos & Qtrace),
                               C as (Cclock & Ccpos).
  2,3: unfold open_team_hedge_position, bind; rewrite Hplan;
       do 2 eexists; (split; [reflexivity |]); (split; [exact Qfeed |]);
       left; (split; [discriminate | exact Qself]).
  rewrite (open_after_plan _ _ _ _ Hplan).
  destruct (plan_facts _ _ _ _ Hplan) as (_ & _ & _ & _ & Hl & Hsh & _).
  rewrite <- Qself in Hl, Hsh.
  set (long_pairs := combine (long_team p) (long_quantities p)).
  set (short_pairs := combine (short_team p) (short_quantities p)).
  set (n := List.length long_pairs).
  set (kl := successes n (order_feed (env s1)) (opos (env s1))).
  set (ks := successes (List.length short_pairs) (order_feed (env s1))
                       (n + opos (env s1))).
  destruct (Nat.lt_ge_cases kl n) as [Hkl | Hkl].
  { rewrite execute_long_failure by assumption.
    do 2 eexists. split; [reflexivity |]. cbn [env self issue order_feed].
    split; [exact Qfeed |]. left. split; [discriminate | exact Qself]. }
  assert (Hkl' : kl = n).
  { pose proof (successes_le n (order_feed (env s1)) (opos (env s1))) as H.
    fold kl in H. lia. }
  destruct (Nat.lt_ge_cases ks (List.length short_pairs)) as [Hks | Hks].
  { rewrite execute_short_failure by assumption.
    do 2 eexists. split; [reflexivity |]. cbn [env self issue order_feed].
    split; [exact Qfeed |]. left. split; [discriminate | exact Qself]. }
  assert (Hks' : ks = List.length short_pairs).
  { pose proof (successes_le (List.length short_pairs) (order_feed (env s1))
                             (n + opos (env s1))) as H. fold ks in H. lia. }
  destruct (execute_success_state symbol p s1 Hl Hsh Hkl' Hks')
    as (w & -> & Htrace & Hfeed).
  do 2 eexists. split; [reflexivity |]. cbn [env self].
  split; [congruence |]. right. split; [reflexivity |].
  exists p, s1, (raw (env s1) (rpos (env s1))). split; [reflexivity |].
  cbv zeta. rewrite Qself, Cclock, Ccpos, Htrace, Qtrace. split; reflexivity.
Qed.

(** ** A recorded position *)

Lemma plan_allocations_nonempty (symbol : string) (s s1 : Sys) (p : Plan) :
  team_hedge_plan symbol s = (Py.Ok (Some p), s1) ->
  long_quantities p <> [] /\ short_quantities p <> [].
Proof.
  intros Hplan.
  destruct (plan_facts _ _ _ _ Hplan) as (_ & _ & _ & _ & _ & _ & _ & Hl & Hs).
  apply plan_inv in Hplan. destruct Hplan as (s0 & price & Ha & _).
  apply allocation_inv in Ha. destruct Ha as (sa & sb & sc & _ & _ & Dl & Ds).
  assert (L1 : (1 <= List.length (long_team p))%nat)
    by (destruct (long_team p); [congruence | simpl; lia]).
  assert (L2 : (1 <= List.length (short_team p))%nat)
    by (destruct (short_team p); [congruence | simpl; lia]).
  pose proof (distribute_nonempty sb (total_quantity p) _ symbol
                (long_quantities p) L1) as B1.
  pose proof (distribute_nonempty sc (total_quantity p) _ symbol
                (short_quantities p) L2) as B2.
  rewrite Dl in B1. rewrite Ds in B2. specialize (B1 eq_refl). specialize (B2 eq_refl).
  split; intros E; rewrite E in *; simpl in *; lia.
Qed.

Lemma legs_of_sides side team pairs :
  Forall (fun pos => leg_side pos = side /\ leg_team pos = team)
         (legs_of side team pairs).
Proof.
  unfold legs_of. rewrite Forall_map, Forall_forall. intros x _. now split.
Qed.

(** X6.  A position that [open_team_hedge_position] records always has
    both sides: at least one BUY leg of the long team followed by at least
    one SELL leg of the short team, on wallets that are different from one
    another and were idle, each opened by exactly one accepted order, in
    this order. *)
Theorem recorded_positions_have_both_sides (symbol : string) (s : Sys) :
  NoDup (wallets (self s)) ->
  fst (open_team_hedge_position symbol s) = Py.Ok true ->
  let s' := snd (open_team_hedge_position symbol s) in
  exists longs shorts,
    Py.dict_get (active_positions (self s')) symbol = Some (longs ++ shorts)%list
    /\ longs <> [] /\ shorts <> []
    /\ Forall (fun pos => leg_side pos = BUY /\ leg_team pos = LONG) longs
    /\ Forall (fun pos => leg_side pos = SELL /\ leg_team pos = SHORT) shorts
    /\ NoDup (List.map leg_wallet (longs ++ shorts))
    /\ Forall (fun pos => In (leg_wallet pos) (get_available_wallets (self s)))
              (longs ++ shorts)
    /\ trace (env s')
       = (trace (env s) ++ List.map (order_of_leg symbol) (longs ++ shorts))%list.
Proof.
  intros Hnd Hok.
  destruct (open_team_hedge_position_effect symbol s) as (r & s' & E & _ & H).
  rewrite E in *. cbn [fst snd] in *. subst r.
  destruct H as [[H _] | (_ & p & s1 & rh & Hplan & Hself & Htrace)];
    [congruence |].
  cbv zeta in Hself, Htrace.
  set (long_pairs := combine (long_team p) (long_quantities p)) in *.
  set (short_pairs := combine (short_team p) (short_quantities p)) in *.
  destruct (plan_facts _ _ _ _ Hplan) as (_ & _ & _ & _ & _ & _ & Hperm & Hl & Hs).
  destruct (plan_allocations_nonempty _ _ _ _ Hplan) as [Ql Qs].
  exists (legs_of BUY LONG long_pairs), (legs_of SELL SHORT short_pairs).
  assert (Hserved :
    List.map leg_wallet (legs_of BUY LONG long_pairs ++ legs_of SELL SHORT short_pairs)
    = (firstn (List.length (long_quantities p)) (long_team p)
       ++ firstn (List.length (short_quantities p)) (short_team p))%list).
  { rewrite map_app, !legs_of_wallets. unfold long_pairs, short_pairs.
    now rewrite !map_fst_combine. }
  assert (Hteams : NoDup (long_team p ++ short_team p)).
  { eapply Permutation_NoDup; [symmetry; exact Hperm |].
    now apply List.NoDup_filter. }
  assert (Hne : forall (team : list string) (qs : list Q) side tag,
    team <> [] -> qs <> [] -> legs_of side tag (combine team qs) <> []).
  { intros [| w team] [| q qs] side tag H1 H2; try congruence. discriminate. }
  split; [rewrite Hself; cbn; apply dict_get_set |].
  split; [now apply Hne |]. split; [now apply Hne |].
  split; [apply legs_of_sides |]. split; [apply legs_of_sides |].
  split; [| split; [| exact Htrace]].
  - rewrite Hserved. eapply NoDup_app_remove_r.
    eapply Permutation_NoDup; [| exact Hteams]. apply teams_served_skipped.
  - apply Forall_forall. intros pos Hpos.
    apply (in_map leg_wallet) in Hpos. rewrite Hserved in Hpos.
    eapply Permutation_in; [exact Hperm |].
    eapply Permutation_in; [symmetry; apply teams_served_skipped |].
    apply in_or_app. left. exact Hpos.
Qed.



(** ** Closing *)

Lemma closing_orders_accepted symbol legs feed i :
  (forall j, feed j = true) ->
  forallb o_ok (closing_orders symbol legs feed i) = true.
Proof.
  intros H. revert i. induction legs as [| pos rest IH]; intros i; simpl.
  - reflexivity.
  - rewrite H. apply IH.
Qed.

Lemma close_hedge_position_not_live (symbol : string) (s : Sys) :
  Py.dict_get (active_positions (self s)) symbol = None ->
  close_hedge_position symbol s = (Py.Ok false, s).
Proof.
  intros H. unfold close_hedge_position.
  unfold bind at 1. unfold get_self at 1. rewrite H. reflexivity.
Qed.

Lemma close_hedge_position_accepted (symbol : string) (s : Sys) :
  consistent (self s) -> all_accepted (env s) ->
  exists b s',
    close_hedge_position symbol s = (Py.Ok b, s')
    /\ active_positions (self s')
       = Py.dict_del (active_positions (self s)) symbol
    /\ consistent (self s') /\ all_accepted (env s').
Proof.
  intros Hc Hall.
  pose proof (keeps_close_hedge_position symbol s Hc) as Hc'.
  destruct (close_hedge_position_effect symbol s) as [Hfeed _].
  destruct (Py.dict_get (active_positions (self s)) symbol)
    as [positions |] eqn:Hlive.
  - destruct Hc as (_ & Htimed & Hstaffed).
    destruct (close_hedge_position_run s symbol positions Hlive)
      as (_ & _ & Hyes & _).
    + unfold staffed in Hstaffed. rewrite Forall_forall in *.
      intros pos Hpos. apply Hstaffed.
      apply (live_legs_are_busy _ _ _ Hlive). now apply in_map.
    + apply dict_mem_In, Htimed. apply dict_get_In_keys. congruence.
    + destruct (Hyes (closing_orders_accepted _ _ _ _ Hall)) as (Hr & Ha & _).
      destruct (close_hedge_position symbol s) as [r s'] eqn:E.
      cbn [fst snd] in *. subst r. exists true, s'.
      split; [reflexivity |]. split; [exact Ha |]. split; [exact Hc' |].
      intros i. rewrite Hfeed. apply Hall.
  - exists false, s. split; [now apply close_hedge_position_not_live |].
    split; [| now split].
    symmetry. apply dict_del_fresh. intros Hin.
    apply dict_get_In_keys in Hin. congruence.
Qed.

Lemma dict_del_then_filter {V} (d : Py.dict V) (k : string) (ks : list string) :
  filter (fun kv => negb (Py.mem (fst kv) ks)) (Py.dict_del d k)
  = filter (fun kv => negb (Py.mem (fst kv) (k :: ks))) d.
Proof.
  unfold Py.dict_del, Py.mem.
  induction d as [| [k0 v0] d IH]; simpl; [reflexivity |].
  rewrite (String.eqb_sym k0 k).
  destruct (String.eqb k k0); simpl; rewrite IH; reflexivity.
Qed.

Lemma close_each_accepted (ks : list string) : forall s,
  consistent (self s) -> all_accepted (env s) ->
  exists s',
    close_each ks s = (Py.Ok tt, s')
    /\ active_positions (self s')
       = filter (fun kv => negb (Py.mem (fst kv) ks)) (active_positions (self s))
    /\ consistent (self s') /\ all_accepted (env s').
Proof.
  induction ks as [| k ks IH]; intros s Hc Hall.
  - exists s. split; [reflexivity |]. split; [| now split].
    simpl. induction (active_positions (self s)) as [| kv d IHd];
      simpl; congruence.
  - destruct (close_hedge_position_accepted k s Hc Hall)
      as (b & s1 & E & Ha & Hc1 & Hall1).
    destruct (IH s1 Hc1 Hall1) as (s' & E' & Ha' & Hc' & Hall').
    exists s'. split; [| split; [| now split]].
    + cbn [close_each]. unfold bind. rewrite E. exact E'.
    + rewrite Ha', Ha. apply dict_del_then_filter.
Qed.

Lemma filter_own_keys {V} (d : Py.dict V) :
  filter (fun kv => negb (Py.mem (fst kv) (Py.keys d))) d = [].
Proof.
  assert (H : forall ks, incl (Py.keys d) ks ->
            filter (fun kv => negb (Py.mem (fst kv) ks)) d = []).
  { induction d as [| [k v] d IH]; intros ks Hincl; simpl; [reflexivity |].
    assert (Hk : Py.mem k ks = true).
    { unfold Py.mem. apply existsb_exists. exists k.
      split; [apply Hincl; now left | apply String.eqb_refl]. }
    rewrite Hk. simpl. apply IH. intros x Hx. apply Hincl. now right. }
  apply H, incl_refl.
Qed.

Lemma close_each_frame (symbol : string) (ks : list string) : forall s,
  ~ In symbol ks ->
  let s' := snd (close_each ks s) in
  Py.dict_get (active_positions (self s')) symbol
  = Py.dict_get (active_positions (self s)) symbol
  /\ Py.dict_get (position_timers (self s')) symbol
     = Py.dict_get (position_timers (self s)) symbol.
Proof.
  induction ks as [| k ks IH]; intros s Hnot; cbv zeta.
  - now split.
  - assert (Hne : symbol <> k) by (intros ->; apply Hnot; now left).
    assert (Hrest : ~ In symbol ks) by (intros H; apply Hnot; now right).
    assert (Hone :
      Py.dict_get (active_positions (self (snd (close_hedge_position k s)))) symbol
      = Py.dict_get (active_positions (self s)) symbol
      /\ Py.dict_get (position_timers (self (snd (close_hedge_position k s)))) symbol
         = Py.dict_get (position_timers (self s)) symbol).
    { destruct (close_hedge_position_effect k s) as [_ [H | [H | [H _]]]];
        rewrite H; cbn; rewrite ?dict_get_del_other by assumption; now split. }
    cbn [close_each]. unfold bind.
    destruct (close_hedge_position k s) as [[b | e] s1]; cbn [snd] in *.
    + destruct (IH s1 Hrest) as [H1 H2]. destruct Hone as [H3 H4].
      split; congruence.
    + exact Hone.
Qed.

Lemma check_positions_for_closing_eq (s : Sys) :
  check_positions_for_closing s
  = close_each
      (List.map fst
         (filter (fun st => Qle_bool (close_time (snd st))
                                     (clock (env s) (cpos (env s))))
                 (position_timers (self s))))
      (mkSys (self s) (snd (next_time (env s)))).
Proof. reflexivity. Qed.

Lemma filter_none {A} (f : A -> bool) (l : list A) :
  (forall x, In x l -> f x = false) -> filter f l = [].
Proof.
  induction l as [| a l IH]; intros H; simpl; [reflexivity |].
  rewrite (H a) by now left. apply IH. intros x Hx. apply H. now right.
Qed.

(** X8.  [check_positions_for_closing] leaves every position whose timer
    is not due as it is, with its legs and its timer, whatever happens to
    the others; and when no timer is due it sends no order and changes
    nothing of the trader. *)
Theorem positions_not_due_are_kept (s : Sys) :
  let current_time := clock (env s) (cpos (env s)) in
  let s' := snd (check_positions_for_closing s) in
  (forall symbol,
     (forall timer, In (symbol, timer) (position_timers (self s)) ->
                    current_time < close_time timer) ->
     Py.dict_get (active_positions (self s')) symbol
     = Py.dict_get (active_positions (self s)) symbol
     /\ Py.dict_get (position_timers (self s')) symbol
        = Py.dict_get (position_timers (self s)) symbol)
  /\ ((forall symbol timer, In (symbol, timer) (position_timers (self s)) ->
                            current_time < close_time timer) ->
      self s' = self s /\ trace (env s') = trace (env s)).
Proof.
  cbv zeta. rewrite check_positions_for_closing_eq.
  set (s1 := mkSys (self s) _).
  set (due := filter _ (position_timers (self s))).
  split.
  - intros symbol Hnot.
    apply (close_each_frame symbol (List.map fst due) s1).
    intros Hin. apply in_map_iff in Hin. destruct Hin as ([k timer] & Hk & Hin).
    simpl in Hk. subst k. apply filter_In in Hin. destruct Hin as [Hin Hdue].
    simpl in Hdue. apply Qle_bool_iff in Hdue.
    specialize (Hnot timer Hin). lra.
  - intros Hnone. assert (E : due = []).
    { unfold due. apply filter_none. intros [k timer] Hin. simpl.
      specialize (Hnone k timer Hin).
      destruct (Qle_bool (close_time timer) (clock (env s) (cpos (env s)))) eqn:Hb;
        [| reflexivity].
      apply Qle_bool_iff in Hb. lra. }
    rewrite E. simpl. now split.
Qed.

(** X9.  When the exchange accepts every order,
    [check_positions_for_closing] on a consistent trader returns normally
    and removes exactly the positions whose timer is due: the positions
    that remain are those of before, in their order, whose symbol has no
    due timer. *)
Theorem due_positions_are_closed (s : Sys) :
  consistent (self s) -> all_accepted (env s) ->
  let current_time := clock (env s) (cpos (env s)) in
  let due :=
    List.map fst
      (filter (fun st => Qle_bool (close_time (snd st)) current_time)
              (position_timers (self s))) in
  exists s',
    check_positions_for_closing s = (Py.Ok tt, s')
    /\ active_positions (self s')
       = filter (fun kv => negb (Py.mem (fst kv) due)) (active_positions (self s))
    /\ consistent (self s').
Proof.
  intros Hc Hall. cbv zeta. rewrite check_positions_for_closing_eq.
  set (s1 := mkSys (self s) _).
  destruct (close_each_accepted
              (List.map fst
                 (filter (fun st => Qle_bool (close_time (snd st))
                                             (clock (env s) (cpos (env s))))
                         (position_timers (self s)))) s1 Hc)
    as (s' & E & Ha & Hc' & _).
  - intros i. apply Hall.
  - exists s'. split; [exact E |]. split; [exact Ha | exact Hc'].
Qed.

Lemma close_all_positions_accepted (s : Sys) :
  consistent (self s) -> all_accepted (env s) ->
  exists s',
    close_all_positions s = (Py.Ok tt, s')
    /\ active_positions (self s') = []
    /\ get_available_wallets (self s') = wallets (self s').
Proof.
  intros Hc Hall.
  assert (H : exists s',
    close_all_positions s = (Py.Ok tt, s') /\ active_positions (self s') = []).
  { unfold close_all_positions. unfold bind, get_self.
    destruct (active_positions (self s)) as [| kv d] eqn:Ed.
    - exists s. now split.
    - rewrite <- Ed.
      destruct (close_each_accepted (Py.keys (active_positions (self s))) s Hc Hall)
        as (s' & E & Ha & _).
      exists s'. split; [exact E |]. rewrite Ha. apply filter_own_keys. }
  destruct H as (s' & E & Ha). exists s'. split; [exact E |]. split; [exact Ha |].
  unfold get_available_wallets. rewrite Ha. cbn.
  induction (wallets (self s')) as [| w ws IH]; simpl; congruence.
Qed.

(** X10.  When the exchange accepts every order, [close_all_positions] on
    a consistent trader returns normally and leaves no live position:
    every registered wallet is idle again. *)
Theorem close_all_positions_leaves_nothing (s : Sys) :
  consistent (self s) -> all_accepted (env s) ->
  exists s',
    close_all_positions s = (Py.Ok tt, s')
    /\ active_positions (self s') = []
    /\ get_available_wallets (self s') = wallets (self s').
Proof. apply close_all_positions_accepted. Qed.

(** ** Opening, then closing *)

Lemma In_firstn {A} (n : nat) (l : list A) (x : A) :
  In x (firstn n l) -> In x l.
Proof.
  intros H. rewrite <- (firstn_skipn n l). apply in_or_app. now left.
Qed.

Lemma plan_legs_registered (symbol : string) (s s1 : Sys) (p : Plan) :
  team_hedge_plan symbol s = (Py.Ok (Some p), s1) ->
  Forall (fun pos => In (leg_wallet pos) (wallets (self s)))
         (legs_of BUY LONG (combine (long_team p) (long_quantities p))
          ++ legs_of SELL SHORT (combine (short_team p) (short_quantities p))).
Proof.
  intros Hplan.
  destruct (plan_facts _ _ _ _ Hplan) as (_ & _ & _ & _ & Hl & Hs & _).
  rewrite Forall_forall in *. intros pos Hpos.
  apply (in_map leg_wallet) in Hpos.
  rewrite map_app, !legs_of_wallets, !map_fst_combine in Hpos.
  apply in_app_or in Hpos. destruct Hpos as [H | H]; apply In_firstn in H; auto.
Qed.

Lemma dict_del_set_fresh {V} (d : Py.dict V) (k : string) (v : V) :
  ~ In k (Py.keys d) -> Py.dict_del (Py.dict_set d k v) k = d.
Proof.
  intros H. rewrite dict_set_fresh, dict_del_app, dict_del_fresh by assumption.
  unfold Py.dict_del. simpl. rewrite String.eqb_refl. simpl. apply app_nil_r.
Qed.

Lemma without_with_position (t : Trader) (symbol : string) (legs : list Leg)
    (timer : Timer) :
  ~ In symbol (Py.keys (active_positions t)) ->
  ~ In symbol (Py.keys (position_timers t)) ->
  without_position (with_position t symbol legs timer) symbol = t.
Proof.
  intros Ha Ht. destruct t as [c w sy a ti r].
  unfold without_position, with_position, set_timers, set_active.
  cbn [config wallets symbols active_positions position_timers round_counter] in *.
  now rewrite !dict_del_set_fresh by assumption.
Qed.

(** X11.  Opening a position on a symbol that is not live and then closing
    it, both with every order accepted, gives back the trader of before:
    the same live positions and timers, the same round counter, every
    wallet of the position idle again. *)
Theorem opening_then_closing_restores_the_trader (symbol : string) (s : Sys) :
  ~ In symbol (Py.keys (active_positions (self s))) ->
  ~ In symbol (Py.keys (position_timers (self s))) ->
  all_accepted (env s) ->
  fst (open_team_hedge_position symbol s) = Py.Ok true ->
  exists s2,
    close_hedge_position symbol (snd (open_team_hedge_position symbol s))
    = (Py.Ok true, s2)
    /\ self s2 = self s.
Proof.
  intros Ha Ht Hall Hok.
  destruct (open_team_hedge_position_effect symbol s) as (r & s1 & E & Hfeed & H).
  rewrite E in *. cbn [fst snd] in *. subst r.
  destruct H as [[H _] | (_ & p & s0 & rh & Hplan & Hself & _)]; [congruence |].
  cbv zeta in Hself.
  set (legs := (legs_of BUY LONG _ ++ legs_of SELL SHORT _)%list) in Hself.
  set (timer := mkTimer _ _ _) in Hself.
  assert (Hlive : Py.dict_get (active_positions (self s1)) symbol = Some legs)
    by (rewrite Hself; cbn; apply dict_get_set).
  assert (Htimer : Py.dict_mem (position_timers (self s1)) symbol = true)
    by (rewrite Hself; cbn; unfold Py.dict_mem; now rewrite dict_get_set).
  destruct (close_hedge_position_run s1 symbol legs Hlive) as (_ & _ & Hyes & _).
  - rewrite Hself. cbn. exact (plan_legs_registered _ _ _ _ Hplan).
  - exact Htimer.
  - destruct Hyes as (Hr & _ & _ & Hgone & _).
    { apply closing_orders_accepted. intros j. rewrite Hfeed. apply Hall. }
    destruct (close_hedge_position_effect symbol s1) as [_ Hshape].
    destruct (close_hedge_position symbol s1) as [r s2]. cbn [fst snd] in *.
    subst r. exists s2. split; [reflexivity |].
    destruct Hshape as [H | [H | [_ H]]].
    + rewrite H in Hgone. congruence.
    + rewrite H, Hself. now apply without_with_position.
    + congruence.
Qed.

(** ** The methods of the loop *)

Lemma close_hedge_position_small (symbol : string) (s : Sys) :
  let s' := snd (close_hedge_position symbol s) in
  settled (self s) (self s')
  /\ round_counter (self s') = round_counter (self s)
  /\ (List.length (active_positions (self s'))
      <= List.length (active_positions (self s)))%nat
  /\ order_feed (env s') = order_feed (env s).
Proof.
  destruct (close_hedge_position_effect symbol s) as [Hfeed H]. cbv zeta.
  unfold settled.
  destruct H as [H | [H | [H _]]]; rewrite H; cbn;
    repeat split; auto; apply filter_length_le.
Qed.

Lemma close_each_small (ks : list string) : forall s,
  let s' := snd (close_each ks s) in
  settled (self s) (self s')
  /\ round_counter (self s') = round_counter (self s)
  /\ (List.length (active_positions (self s'))
      <= List.length (active_positions (self s)))%nat
  /\ order_feed (env s') = order_feed (env s).
Proof.
  induction ks as [| k ks IH]; intros s; cbv zeta.
  - unfold settled. cbn. repeat split; auto.
  - pose proof (close_hedge_position_small k s) as H1. cbv zeta in H1.
    cbn [close_each]. unfold bind.
    destruct (close_hedge_position k s) as [[b | e] s1]; cbn [snd] in *;
      [| exact H1].
    specialize (IH s1). cbv zeta in IH. unfold settled in *.
    destruct H1 as ((A1 & A2 & A3) & A4 & A5 & A6),
             IH as ((B1 & B2 & B3) & B4 & B5 & B6).
    repeat split; try congruence. lia.
Qed.

Lemma check_positions_for_closing_small (s : Sys) :
  let s' := snd (check_positions_for_closing s) in
  settled (self s) (self s')
  /\ round_counter (self s') = round_counter (self s)
  /\ (List.length (active_positions (self s'))
      <= List.length (active_positions (self s)))%nat
  /\ order_feed (env s') = order_feed (env s).
Proof.
  cbv zeta. rewrite check_positions_for_closing_eq.
  exact (close_each_small _ (mkSys (self s) (snd (next_time (env s))))).
Qed.

Lemma close_all_positions_small (s : Sys) :
  let s' := snd (close_all_positions s) in
  settled (self s) (self s')
  /\ round_counter (self s') = round_counter (self s)
  /\ (List.length (active_positions (self s'))
      <= List.length (active_positions (self s)))%nat
  /\ order_feed (env s') = order_feed (env s).
Proof.
  cbv zeta. unfold close_all_positions, bind, get_self.
  destruct (active_positions (self s)) as [| kv d] eqn:E.
  - unfold settled. cbn. rewrite E. repeat split; auto.
  - rewrite <- E. apply close_each_small.
Qed.

(** A round advances the counter and then records at most one position,
    on a symbol that was free. *)
Lemma execute_trading_round_effect (s : Sys) :
  exists r s',
    execute_trading_round s = (r, s')
    /\ order_feed (env s') = order_feed (env s)
    /\ let t := set_round (self s) (S (round_counter (self s))) in
       (self s' = t
        \/ exists symbol legs timer,
             In symbol (get_available_symbols (self s))
             /\ self s' = with_position t symbol legs timer).
Proof.
  unfold execute_trading_round.
  unfold bind at 1. unfold get_self at 1.
  unfold bind at 1. unfold put_self at 1.
  unfold bind at 1. unfold get_self at 1. cbn [self env].
  set (t := set_round (self s) (S (round_counter (self s)))).
  change (get_available_symbols t) with (get_available_symbols (self s)).
  destruct ((List.length (get_available_wallets t) <? 2)%nat
            || match get_available_symbols (self s) with [] => true | _ => false end).
  { do 2 eexists. split; [reflexivity |]. cbn. split; [reflexivity | now left]. }
  unfold bind at 1.
  destruct (choice (get_available_symbols (self s)) (mkSys t (env s)))
    as [[symbol | e] s1] eqn:Hc.
  - pose proof (quiet_answers_kept _ (quiet_randbelow
        (List.length (get_available_symbols (self s)))) (mkSys t (env s))) as Q.
    assert (Hfeed1 : order_feed (env s1) = order_feed (env s)).
    { unfold choice in Hc. destruct (get_available_symbols (self s)) as [| a rest];
        [discriminate |].
      unfold bind in Hc. rewrite randbelow_eq in Hc. injection Hc as _ <-.
      reflexivity. }
    apply choice_inv in Hc. destruct Hc as [Hin Hself]. cbn [self] in Hself.
    destruct (open_team_hedge_position_effect symbol s1) as (r & s2 & E & Hfeed & H).
    unfold bind. rewrite E.
    assert (Hshape : self s2 = t
                     \/ exists symbol legs timer,
                          In symbol (get_available_symbols (self s))
                          /\ self s2 = with_position t symbol legs timer).
    { destruct H as [[_ H] | (_ & p & s0 & rh & _ & H & _)].
      - left. congruence.
      - right. cbv zeta in H. rewrite Hself in H. eauto. }
    destruct r as [b | e]; do 2 eexists; (split; [reflexivity |]);
      (split; [congruence | exact Hshape]).
  - assert (Hs1 : s1 = mkSys t (env s)).
    { unfold choice in Hc. destruct (get_available_symbols (self s)) as [| a rest].
      - unfold raise in Hc. now injection Hc as _ <-.
      - unfold bind in Hc. rewrite randbelow_eq in Hc. discriminate. }
    subst s1. do 2 eexists. split; [reflexivity |]. cbn.
    split; [reflexivity | now left].
Qed.

(** X12.  No method of the loop touches the configuration, the wallet
    registry or the symbol list; [execute_trading_round] advances the
    round counter by exactly one, whether or not it opens a position or
    raises, and the closing methods leave the counter alone. *)
Theorem the_loop_keeps_the_settings (s : Sys) :
  (settled (self s) (self (snd (check_positions_for_closing s)))
   /\ round_counter (self (snd (check_positions_for_closing s)))
      = round_counter (self s))
  /\ (settled (self s) (self (snd (execute_trading_round s)))
      /\ round_counter (self (snd (execute_trading_round s)))
         = S (round_counter (self s)))
  /\ (settled (self s) (self (snd (close_all_positions s)))
      /\ round_counter (self (snd (close_all_positions s)))
         = round_counter (self s)).
Proof.
  split; [| split].
  - destruct (check_positions_for_closing_small s) as (H1 & H2 & _). now split.
  - destruct (execute_trading_round_effect s) as (r & s' & E & _ & H).
    rewrite E. cbn [snd]. cbv zeta in H. unfold settled.
    destruct H as [H | (symbol & legs & timer & _ & H)]; rewrite H; cbn;
      repeat split; reflexivity.
  - destruct (close_all_positions_small s) as (H1 & H2 & _). now split.
Qed.

(** ** The main loop *)

Lemma keeps_ret {A} (a : A) : keeps (ret a).
Proof. intros s H. exact H. Qed.

Lemma keeps_get_self : keeps get_self.
Proof. intros s H. exact H. Qed.

Lemma answers_kept_ret {A} (a : A) : answers_kept (ret a).
Proof. intros s. reflexivity. Qed.

Lemma answers_kept_get_self : answers_kept get_self.
Proof. intros s. reflexivity. Qed.

Lemma answers_kept_check_positions_for_closing :
  answers_kept check_positions_for_closing.
Proof. intros s. apply check_positions_for_closing_small. Qed.

Lemma answers_kept_close_all_positions : answers_kept close_all_positions.
Proof. intros s. apply close_all_positions_small. Qed.

Lemma answers_kept_execute_trading_round : answers_kept execute_trading_round.
Proof.
  intros s. destruct (execute_trading_round_effect s) as (r & s' & E & H & _).
  now rewrite E.
Qed.

Lemma selfless_send_balance_report outcome : selfless (send_balance_report outcome).
Proof. intros s. destruct outcome; reflexivity. Qed.

Lemma answers_kept_send_balance_report outcome :
  answers_kept (send_balance_report outcome).
Proof. intros s. destruct outcome; reflexivity. Qed.

Lemma selfless_check_and_send_balance_report notifier last outcome :
  selfless (check_and_send_balance_report notifier last outcome).
Proof.
  intros s. unfold check_and_send_balance_report.
  destruct notifier as [interval |]; [| reflexivity].
  unfold bind, now, ask. cbn [next_time fst snd].
  destruct (Qle_bool interval _); [| reflexivity].
  destruct outcome; reflexivity.
Qed.

Lemma answers_kept_check_and_send_balance_report notifier last outcome :
  answers_kept (check_and_send_balance_report notifier last outcome).
Proof.
  intros s. unfold check_and_send_balance_report.
  destruct notifier as [interval |]; [| reflexivity].
  unfold bind, now, ask. cbn [next_time fst snd].
  destruct (Qle_bool interval _); [| reflexivity].
  destruct outcome; reflexivity.
Qed.

Lemma keeps_run_iteration notifier parallel_mode min_cooldown max_cooldown last turn :
  keeps (run_iteration notifier parallel_mode min_cooldown max_cooldown last turn).
Proof.
  unfold run_iteration.
  apply keeps_bind; [apply keeps_check_positions_for_closing | intros _].
  apply keeps_bind;
    [apply selfless_keeps, selfless_check_and_send_balance_report | intros l].
  destruct (shutdown_after_check turn); [apply keeps_ret |].
  destruct parallel_mode; (apply keeps_bind; [apply keeps_get_self | intros t]).
  - destruct (nonempty _ && nonempty _); [| apply keeps_ret].
    apply keeps_bind; [apply keeps_execute_trading_round | intros _; apply keeps_ret].
  - destruct (negb _); [| apply keeps_ret].
    apply keeps_bind;
      [apply selfless_keeps, quiet_selfless, quiet_uniform | intros _].
    destruct (negb (shutdown_after_cooldown turn)); [| apply keeps_ret].
    apply keeps_bind; [apply keeps_execute_trading_round | intros _; apply keeps_ret].
Qed.

Lemma answers_kept_run_iteration
    notifier parallel_mode min_cooldown max_cooldown last turn :
  answers_kept
    (run_iteration notifier parallel_mode min_cooldown max_cooldown last turn).
Proof.
  unfold run_iteration.
  apply answers_kept_bind;
    [apply answers_kept_check_positions_for_closing | intros _].
  apply answers_kept_bind;
    [apply answers_kept_check_and_send_balance_report | intros l].
  destruct (shutdown_after_check turn); [apply answers_kept_ret |].
  destruct parallel_mode;
    (apply answers_kept_bind; [apply answers_kept_get_self | intros t]).
  - destruct (nonempty _ && nonempty _); [| apply answers_kept_ret].
    apply answers_kept_bind;
      [apply answers_kept_execute_trading_round | intros _; apply answers_kept_ret].
  - destruct (negb _); [| apply answers_kept_ret].
    apply answers_kept_bind;
      [apply quiet_answers_kept, quiet_uniform | intros _].
    destruct (negb (shutdown_after_cooldown turn)); [| apply answers_kept_ret].
    apply answers_kept_bind;
      [apply answers_kept_execute_trading_round | intros _; apply answers_kept_ret].
Qed.

Lemma keeps_run_loop notifier parallel_mode min_cooldown max_cooldown turns :
  forall last,
    keeps (run_loop notifier parallel_mode min_cooldown max_cooldown last turns).
Proof.
  induction turns as [| turn rest IH]; intros last; cbn [run_loop];
    [apply keeps_ret |].
  apply keeps_bind; [apply keeps_run_iteration | intros [broke l]].
  destruct broke; [apply keeps_ret | apply IH].
Qed.

Lemma answers_kept_run_loop notifier parallel_mode min_cooldown max_cooldown turns :
  forall last,
    answers_kept
      (run_loop notifier parallel_mode min_cooldown max_cooldown last turns).
Proof.
  induction turns as [| turn rest IH]; intros last; cbn [run_loop];
    [apply answers_kept_ret |].
  apply answers_kept_bind; [apply answers_kept_run_iteration | intros [broke l]].
  destruct broke; [apply answers_kept_ret | apply IH].
Qed.

(** X13.  The first balance report comes ahead of the [try]: when a
    notifier is set up and that report raises, [run] raises the same
    exception at once, with no order sent and the trader as it was.  In
    every other run from a consistent trader -- whatever the mode, the
    signals, the later reports and the random source, and whether the loop
    ends by itself, by [break] or by an exception -- [run] returns normally
    with no live position when the exchange accepts every order. *)
Theorem run_ends_without_positions
    (notifier : option Q) (parallel_mode : bool) (min_cooldown max_cooldown : Q)
    (last_report_time : Q) (initial_report : option Py.Exn)
    (turns : list Turn) (s : Sys) :
  consistent (self s) -> all_accepted (env s) ->
  let result :=
    run notifier parallel_mode min_cooldown max_cooldown last_report_time
        initial_report turns s in
  match notifier, initial_report with
  | Some _, Some e => result = (Py.Raise e, s)
  | _, _ =>
      exists s',
        result = (Py.Ok tt, s')
        /\ active_positions (self s') = []
        /\ get_available_wallets (self s') = wallets (self s')
  end.
Proof.
  intros Hc Hall result.
  assert (Hgo : forall s0, self s0 = self s -> order_feed (env s0) = order_feed (env s) ->
    exists s',
      (fun s =>
         match (_ <- run_loop notifier parallel_mode min_cooldown max_cooldown
                              last_report_time turns ;;
                close_all_positions) s with
         | (Py.Ok tt, s1) => (Py.Ok tt, s1)
         | (Py.Raise _, s1) => close_all_positions s1
         end) s0 = (Py.Ok tt, s')
      /\ active_positions (self s') = []
      /\ get_available_wallets (self s') = wallets (self s')).
  { intros s0 Hself Hfeed0.
    assert (Hc0 : consistent (self s0)) by now rewrite Hself.
    pose proof (keeps_run_loop notifier parallel_mode min_cooldown max_cooldown
                  turns last_report_time s0 Hc0) as Hc1.
    pose proof (answers_kept_run_loop notifier parallel_mode min_cooldown
                  max_cooldown turns last_report_time s0) as Hfeed.
    unfold bind.
    destruct (run_loop notifier parallel_mode min_cooldown max_cooldown
                       last_report_time turns s0) as [[u | e] s1]; cbn [snd] in *.
    - destruct (close_all_positions_accepted s1 Hc1) as (s' & E & H).
      + intros i. rewrite Hfeed, Hfeed0. apply Hall.
      + rewrite E. exists s'. now split.
    - destruct (close_all_positions_accepted s1 Hc1) as (s' & E & H).
      + intros i. rewrite Hfeed, Hfeed0. apply Hall.
      + rewrite E. exists s'. now split. }
  unfold result, run.
  destruct notifier as [interval |].
  - destruct initial_report as [e |].
    + reflexivity.
    + unfold bind at 1. unfold send_balance_report, bind, now, ask, ret.
      cbn [next_time fst snd]. apply Hgo; reflexivity.
  - unfold bind at 1. unfold ret at 1.
    destruct initial_report; apply Hgo; reflexivity.
Qed.

Lemma sequential_iteration
    (notifier : option Q) (min_cooldown max_cooldown last : Q) (turn : Turn)
    (s : Sys) :
  (List.length (active_positions (self s)) <= 1)%nat ->
  (List.length (active_positions
     (self (snd (run_iteration notifier false min_cooldown max_cooldown last
                               turn s)))) <= 1)%nat.
Proof.
  intros H. unfold run_iteration. unfold bind at 1.
  destruct (check_positions_for_closing_small s) as (_ & _ & Hlen & _).
  destruct (check_positions_for_closing s) as [[u | e] s1]; cbn [snd] in *;
    [| lia].
  unfold bind at 1.
  pose proof (selfless_check_and_send_balance_report notifier last (report turn) s1)
    as Hr.
  destruct (check_and_send_balance_report notifier last (report turn) s1)
    as [[l | e] s1']; cbn [snd] in Hr; [| cbn; rewrite Hr; lia].
  destruct (shutdown_after_check turn); [cbn; rewrite Hr; lia |].
  unfold bind at 1. unfold get_self at 1. rewrite Hr.
  destruct (active_positions (self s1)) as [| kv d] eqn:Ea;
    cbn [nonempty negb];
    [| cbn; rewrite Hr, Ea; exact (Nat.le_trans _ _ _ Hlen H)].
  unfold bind at 1.
  pose proof (quiet_selfless _ (quiet_uniform min_cooldown max_cooldown) s1') as Hu.
  destruct (uniform min_cooldown max_cooldown s1') as [[u1 | e] s2];
    cbn [snd] in Hu; [| cbn; rewrite Hu, Hr, Ea; simpl; lia].
  destruct (shutdown_after_cooldown turn); cbn [negb];
    [cbn; rewrite Hu, Hr, Ea; simpl; lia |].
  destruct (execute_trading_round_effect s2) as (r & s3 & E & _ & Hshape).
  unfold bind. rewrite E. cbv zeta in Hshape.
  assert (Hlen3 : (List.length (active_positions (self s3)) <= 1)%nat).
  { destruct Hshape as [Hs | (symbol & legs & timer & _ & Hs)]; rewrite Hs; cbn;
      rewrite Hu, Hr, Ea; simpl; lia. }
  destruct r; exact Hlen3.
Qed.

(** X14.  In sequential mode the loop never holds more than one position:
    from a trader with at most one live position, any number of
    iterations, under any signals and any behaviour of the exchange,
    leaves at most one. *)
Theorem sequential_mode_holds_one_position
    (notifier : option Q) (min_cooldown max_cooldown : Q) (last_report_time : Q)
    (turns : list Turn) (s : Sys) :
  (List.length (active_positions (self s)) <= 1)%nat ->
  (List.length (active_positions
     (self (snd (run_loop notifier false min_cooldown max_cooldown
                          last_report_time turns s)))) <= 1)%nat.
Proof.
  revert last_report_time s.
  induction turns as [| turn rest IH]; intros last s H; cbn [run_loop].
  - exact H.
  - pose proof (sequential_iteration notifier min_cooldown max_cooldown last
                  turn s H) as H1.
    unfold bind.
    destruct (run_iteration notifier false min_cooldown max_cooldown last turn s)
      as [[[broke l] | e] s1]; cbn [snd] in *; [| exact H1].
    destruct broke; [exact H1 | now apply IH].
Qed.

(** ** Pair trading *)

(** X15.  [open_hedge_position] on two registered wallets never raises and
    either records a balanced position, a BUY leg and a SELL leg of the
    same quantity, after exactly two accepted orders, or returns [False]
    with the trader as it was: after no order, after a refused BUY, or
    after an accepted BUY, a refused SELL and the order that closes the
    BUY leg. *)
Theorem pair_hedge_is_balanced_or_rolled_back (a b symbol : string) (s : Sys) :
  In a (wallets (self s)) -> In b (wallets (self s)) ->
  exists r s' q issued,
    open_hedge_position (a, b) symbol s = (Py.Ok r, s')
    /\ trace (env s') = (trace (env s) ++ issued)%list
    /\ ((r = true
         /\ issued = [mkOrder a symbol BUY q true; mkOrder b symbol SELL q true]
         /\ exists timer,
              self s' = with_position (self s) symbol
                          [mkLeg a BUY q LONG; mkLeg b SELL q SHORT] timer)
        \/ (r = false /\ self s' = self s
            /\ (issued = []
                \/ issued = [mkOrder a symbol BUY q false]
                \/ exists ok,
                     issued = [mkOrder a symbol BUY q true;
                               mkOrder b symbol SELL q false;
                               mkOrder a symbol SELL q ok]))).
Proof.
  intros Ha Hb. unfold open_hedge_position. cbn [fst snd].
  unfold bind at 1. rewrite (wallet_named_ok s a Ha).
  unfold bind at 1. rewrite (wallet_named_ok s b Hb).
  destruct (calculate_position_size_run symbol s) as (q & s2 & E & Hself & _).
  pose proof (quiet_calculate_position_size symbol s) as Q.
  rewrite E in Q. cbn [snd] in Q. destruct Q as (_ & Qfeed & Qopos & Qtrace).
  unfold bind at 1. rewrite E.
  destruct (Qeq_bool q 0).
  { exists false, s2, q, []. split; [reflexivity |]. rewrite app_nil_r.
    split; [exact Qtrace |]. right. auto. }
  unfold bind at 1. unfold _get_current_price, ask. cbn [next_price fst snd].
  unfold bind at 1. rewrite place_order_eq. cbn [self env issue order_feed opos].
  destruct (order_feed (env s2) (opos (env s2))) eqn:O1; cbn [negb].
  2: { exists false. eexists. exists q, [mkOrder a symbol BUY q false].
       split; [reflexivity |]. cbn. rewrite Qtrace. split; [reflexivity |].
       right. auto. }
  unfold bind at 1. set (st := mkSys (self s2) _).
  rewrite (place_order_eq st). subst st. cbn [self env issue order_feed opos].
  match goal with |- context [negb ?x] => destruct x eqn:O2 end; cbn [negb].
  2: { unfold bind, close_position. set (st := mkSys (self s2) _).
       rewrite (place_order_eq st). subst st.
       exists false. eexists. exists q. eexists.
       split; [reflexivity |]. cbn. rewrite Qtrace, <- !app_assoc. cbn.
       split; [reflexivity |]. right. split; [reflexivity |].
       split; [exact Hself |]. right. right. eexists. reflexivity. }
  unfold bind, get_self, uniform, random, ask, put_self, now, ret. cbn.
  exists true. eexists. exists q. eexists.
  split; [reflexivity |]. cbn. rewrite Qtrace, <- !app_assoc. cbn.
  split; [reflexivity |]. left. split; [reflexivity |]. split; [reflexivity |].
  eexists. unfold with_position. rewrite <- Hself. reflexivity.
Qed.

(** X16.  In parallel mode the loop calls [execute_trading_round] only
    when at least one pair of idle wallets and one free symbol exist, and
    then the round never takes its early return: it advances the counter,
    chooses a free symbol and calls [open_team_hedge_position] on it. *)
Theorem parallel_round_never_skips (s : Sys) :
  nonempty (get_available_pairs (self s))
  && nonempty (get_available_symbols (self s)) = true ->
  execute_trading_round s
  = (symbol <- choice (get_available_symbols (self s)) ;;
     _ <- open_team_hedge_position symbol ;;
     ret tt)
      (mkSys (set_round (self s) (S (round_counter (self s)))) (env s)).
Proof.
  intros H. apply andb_prop in H. destruct H as [Hp Hs].
  unfold execute_trading_round.
  unfold bind at 1. unfold get_self at 1.
  unfold bind at 1. unfold put_self at 1.
  unfold bind at 1. unfold get_self at 1. cbn [self env].
  set (t := set_round (self s) (S (round_counter (self s)))).
  change (get_available_symbols t) with (get_available_symbols (self s)).
  change (get_available_wallets t) with (get_available_wallets (self s)).
  unfold get_available_pairs in Hp.
  destruct (List.length (get_available_wallets (self s)) <? 2)%nat;
    [discriminate |].
  destruct (get_available_symbols (self s)); [discriminate | reflexivity].
Qed.

(** ** The further statements at work on the scenario *)

Lemma scenario_consistent : consistent Scenario.trader.
Proof.
  apply consistent_reachable, reach_fresh.
  split; [reflexivity |]. split; [reflexivity |].
  cbn. repeat constructor; cbn; intuition discriminate.
Qed.

Lemma scenario_live_consistent : consistent Scenario.live.
Proof.
  assert (L : Scenario.live = self (snd (execute_trading_round Scenario.calm)))
    by (vm_compute; reflexivity).
  rewrite L. apply keeps_execute_trading_round. exact scenario_consistent.
Qed.

(** The dict of a market order, signed twice within the same millisecond. *)
Lemma signing_again_witness :
  let wm := SignedClient.mkWalletManager "key" "secret" "Wallet A" "wallet_a"
                                         "https://fapi.example" in
  let sign :=
    SignedClient.prepare_request (fun k m => k ++ "|" ++ m) (fun _ => "0.01") wm in
  let first :=
    sign (1700000000 # 1) "/fapi/v1/order"
         (Some (SignedClient.place_order_params "BTCUSDT" "BUY" (1 # 100))) true in
  let again :=
    sign (17000000000004 # 10000) "/fapi/v1/order"
         (Some (SignedClient.params first)) true in
  Py.int ((17000000000004 # 10000) * 1000) = Py.int ((1700000000 # 1) * 1000)
  /\ again = first.
Proof.
  intros wm sign first again.
  assert (H : Py.int ((17000000000004 # 10000) * 1000)
              = Py.int ((1700000000 # 1) * 1000)) by reflexivity.
  split; [exact H |].
  destruct (signing_again_keeps_the_layout
              (fun k m => k ++ "|" ++ m) (fun _ => "0.01") wm
              (1700000000 # 1) (17000000000004 # 10000) "/fapi/v1/order"
              (SignedClient.place_order_params "BTCUSDT" "BUY" (1 # 100)))
    as [_ C].
  exact (C H).
Defined.

(** Three idle wallets: three pairs. *)
Lemma available_pairs_witness :
  NoDup (wallets Scenario.trader)
  /\ get_available_pairs Scenario.trader
     = [("wallet_a", "wallet_b"); ("wallet_a", "wallet_c"); ("wallet_b", "wallet_c")]
  /\ forall a b, In (a, b) (get_available_pairs Scenario.trader) -> a <> b.
Proof.
  assert (Hnd : NoDup (wallets Scenario.trader)).
  { cbn. repeat constructor; cbn; intuition discriminate. }
  destruct (available_pairs_are_the_idle_pairs Scenario.trader) as (_ & _ & _ & C).
  split; [exact Hnd |]. split; [reflexivity | exact (C Hnd)].
Defined.


(** A total of 0.1 over two members. *)
Lemma allocations_never_outnumber_witness :
  (1 <= 2)%nat /\ (Z.of_nat 2 < 2 ^ 53)%Z
  /\ exists qs,
       fst (distribute_quantity_in_teams (1 # 10) 2 "BTCUSDT" Scenario.calm) = Py.Ok qs
       /\ (1 <= List.length qs <= 2)%nat.
Proof.
  assert (H1 : (1 <= 2)%nat) by lia.
  assert (E : exists qs,
    fst (distribute_quantity_in_teams (1 # 10) 2 "BTCUSDT" Scenario.calm) = Py.Ok qs)
    by (vm_compute; eauto).
  destruct E as (qs & E).
  assert (H2 : (Z.of_nat 2 < 2 ^ 53)%Z) by reflexivity.
  split; [exact H1 |]. split; [exact H2 |]. exists qs. split; [exact E |].
  exact (allocations_never_outnumber_the_team Scenario.calm (1 # 10) 2 "BTCUSDT"
           qs H1 H2 E).
Defined.

(** The same total covers the minimum of 0.006 for both members. *)
Lemma allocations_respect_the_minimum_witness :
  truthy (price_feed (env Scenario.calm) (ppos (env Scenario.calm))) = Some 1000
  /\ (2 <= 2)%nat
  /\ Py.flt (1 # 10)
        (Py.fmul (min_quantity_of (config (self Scenario.calm)) 1000 "BTCUSDT")
                 (inject_Z (Z.of_nat 2))) = false
  /\ exists qs,
       fst (distribute_quantity_in_teams (1 # 10) 2 "BTCUSDT" Scenario.calm) = Py.Ok qs
       /\ List.length qs = 2%nat
       /\ Forall (fun q => (6 # 1000) <= q) qs.
Proof.
  assert (H0 : truthy (price_feed (env Scenario.calm) (ppos (env Scenario.calm)))
               = Some 1000) by reflexivity.
  assert (H1 : (2 <= 2)%nat) by lia.
  assert (H2 : Py.flt (1 # 10)
        (Py.fmul (min_quantity_of (config (self Scenario.calm)) 1000 "BTCUSDT")
                 (inject_Z (Z.of_nat 2))) = false) by (vm_compute; reflexivity).
  assert (E : exists qs,
    fst (distribute_quantity_in_teams (1 # 10) 2 "BTCUSDT" Scenario.calm) = Py.Ok qs)
    by (vm_compute; eauto).
  destruct E as (qs & E).
  destruct (allocations_respect_the_minimum Scenario.calm (1 # 10) 2 "BTCUSDT"
              1000 qs H0 H1 E) as [C1 C2].
  specialize (C2 H2).
  split; [exact H0 |]. split; [exact H1 |]. split; [exact H2 |].
  exists qs. split; [exact E |]. split; [exact C2 |].
  destruct C1 as [C1 | (_ & _ & C1)].
  - rewrite C1 in C2. discriminate C2.
  - assert (M : min_quantity_of (config (self Scenario.calm)) 1000 "BTCUSDT"
                = 6 # 1000) by (vm_compute; reflexivity).
    rewrite C2, M in C1.
    assert (Hc : (6 # 1000) * inject_Z (Z.of_nat 2) <= 1 # 10)
      by (vm_compute; discriminate).
    eapply Forall_impl; [| exact (C1 Hc)]. intros q [Hq _]. exact Hq.
Defined.

(** One round in the calm world: two long legs and one short leg. *)
Lemma recorded_positions_witness :
  NoDup (wallets (self Cases.accepted))
  /\ fst (open_team_hedge_position "BTCUSDT" Cases.accepted) = Py.Ok true
  /\ exists longs shorts,
       Py.dict_get
         (active_positions
            (self (snd (open_team_hedge_position "BTCUSDT" Cases.accepted))))
         "BTCUSDT" = Some (longs ++ shorts)%list
       /\ longs <> [] /\ shorts <> []
       /\ NoDup (List.map leg_wallet (longs ++ shorts)).
Proof.
  assert (Hnd : NoDup (wallets (self Cases.accepted))).
  { cbn. repeat constructor; cbn; intuition discriminate. }
  assert (Hok : fst (open_team_hedge_position "BTCUSDT" Cases.accepted) = Py.Ok true)
    by (vm_compute; reflexivity).
  destruct (recorded_positions_have_both_sides "BTCUSDT" Cases.accepted Hnd Hok)
    as (longs & shorts & C1 & C2 & C3 & _ & _ & C6 & _).
  split; [exact Hnd |]. split; [exact Hok |].
  exists longs, shorts. split; [exact C1 |]. split; [exact C2 |].
  split; [exact C3 | exact C6].
Defined.


(** The live position is not due at 100 seconds: nothing happens. *)
Lemma positions_not_due_witness :
  (forall symbol timer,
     In (symbol, timer) (position_timers (self Cases.early)) ->
     clock (env Cases.early) (cpos (env Cases.early)) < close_time timer)
  /\ self (snd (check_positions_for_closing Cases.early)) = Scenario.live
  /\ trace (env (snd (check_positions_for_closing Cases.early))) = [].
Proof.
  assert (H : forall symbol timer,
     In (symbol, timer) (position_timers (self Cases.early)) ->
     clock (env Cases.early) (cpos (env Cases.early)) < close_time timer).
  { intros symbol timer [E | []]. injection E as _ <-. reflexivity. }
  split; [exact H |].
  destruct (positions_not_due_are_kept Cases.early) as [_ C].
  exact (C H).
Defined.

(** The live position is due long after: it is closed. *)
Lemma due_positions_witness :
  consistent (self Cases.late) /\ all_accepted (env Cases.late)
  /\ exists s',
       check_positions_for_closing Cases.late = (Py.Ok tt, s')
       /\ active_positions (self s') = [].
Proof.
  assert (Hc : consistent (self Cases.late)) by exact scenario_live_consistent.
  assert (Ha : all_accepted (env Cases.late)) by (intros i; reflexivity).
  destruct (due_positions_are_closed Cases.late Hc Ha) as (s' & C1 & C2 & _).
  split; [exact Hc |]. split; [exact Ha |].
  exists s'. split; [exact C1 |]. rewrite C2. reflexivity.
Defined.

(** The live position, closed by the shutdown. *)
Lemma close_all_positions_witness :
  consistent (self Cases.early) /\ all_accepted (env Cases.early)
  /\ exists s',
       close_all_positions Cases.early = (Py.Ok tt, s')
       /\ active_positions (self s') = [].
Proof.
  assert (Hc : consistent (self Cases.early)) by exact scenario_live_consistent.
  assert (Ha : all_accepted (env Cases.early)) by (intros i; reflexivity).
  destruct (close_all_positions_leaves_nothing Cases.early Hc Ha)
    as (s' & C1 & C2 & _).
  split; [exact Hc |]. split; [exact Ha |].
  exists s'. split; [exact C1 | exact C2].
Defined.

(** A position opened and closed at once on the fresh trader. *)
Lemma opening_then_closing_witness :
  all_accepted (env Cases.accepted)
  /\ fst (open_team_hedge_position "BTCUSDT" Cases.accepted) = Py.Ok true
  /\ exists s2,
       close_hedge_position "BTCUSDT"
         (snd (open_team_hedge_position "BTCUSDT" Cases.accepted))
       = (Py.Ok true, s2)
       /\ self s2 = Scenario.trader.
Proof.
  assert (Ha : all_accepted (env Cases.accepted)) by (intros i; reflexivity).
  assert (Hok : fst (open_team_hedge_position "BTCUSDT" Cases.accepted) = Py.Ok true)
    by (vm_compute; reflexivity).
  assert (H1 : ~ In "BTCUSDT" (Py.keys (active_positions (self Cases.accepted))))
    by (cbn; tauto).
  assert (H2 : ~ In "BTCUSDT" (Py.keys (position_timers (self Cases.accepted))))
    by (cbn; tauto).
  split; [exact Ha |]. split; [exact Hok |].
  exact (opening_then_closing_restores_the_trader "BTCUSDT" Cases.accepted
           H1 H2 Ha Hok).
Defined.

(** Two turns in sequential mode with a notifier that reports at every
    turn: the first turn opens a position, the report of the second raises
    [TypeError], and the handler closes the position. *)
Lemma run_ends_without_positions_witness :
  consistent (self Cases.accepted) /\ all_accepted (env Cases.accepted)
  /\ exists s',
       run (Some 0) false 120 300 0 None
           [mkTurn None false false; mkTurn (Some Py.TypeError) false false]
           Cases.accepted
       = (Py.Ok tt, s')
       /\ active_positions (self s') = []
       /\ List.length (trace (env s')) = 6%nat.
Proof.
  assert (Hc : consistent (self Cases.accepted)) by exact scenario_consistent.
  assert (Ha : all_accepted (env Cases.accepted)) by (intros i; reflexivity).
  pose proof (run_ends_without_positions (Some 0) false 120 300 0 None
                [mkTurn None false false; mkTurn (Some Py.TypeError) false false]
                Cases.accepted Hc Ha) as C.
  cbv zeta beta iota in C. destruct C as (s' & E & C1 & _).
  assert (T : List.length
                (trace (env (snd (run (Some 0) false 120 300 0 None
                   [mkTurn None false false; mkTurn (Some Py.TypeError) false false]
                   Cases.accepted)))) = 6%nat) by (vm_compute; reflexivity).
  rewrite E in T. cbn [snd] in T.
  split; [exact Hc |]. split; [exact Ha |].
  exists s'. split; [exact E |]. split; [exact C1 | exact T].
Defined.

(** Two turns in sequential mode from the fresh trader. *)
Lemma sequential_mode_witness :
  (List.length (active_positions (self Cases.accepted)) <= 1)%nat
  /\ (List.length
        (active_positions
           (self (snd (run_loop None false 120 300 0
                                [mkTurn None false false; mkTurn None false false]
                                Cases.accepted)))) <= 1)%nat.
Proof.
  assert (H : (List.length (active_positions (self Cases.accepted)) <= 1)%nat)
    by (cbn; lia).
  split; [exact H |].
  exact (sequential_mode_holds_one_position None 120 300 0
           [mkTurn None false false; mkTurn None false false] Cases.accepted H).
Defined.

(** The first two wallets of the scenario as a pair. *)
Lemma pair_hedge_witness :
  In "wallet_a" (wallets (self Cases.accepted))
  /\ In "wallet_b" (wallets (self Cases.accepted))
  /\ exists s',
       open_hedge_position ("wallet_a", "wallet_b") "BTCUSDT" Cases.accepted
       = (Py.Ok true, s')
       /\ List.length (trace (env s')) = 2%nat.
Proof.
  assert (Ha : In "wallet_a" (wallets (self Cases.accepted))) by (cbn; tauto).
  assert (Hb : In "wallet_b" (wallets (self Cases.accepted))) by (cbn; tauto).
  split; [exact Ha |]. split; [exact Hb |].
  destruct (pair_hedge_is_balanced_or_rolled_back "wallet_a" "wallet_b" "BTCUSDT"
              Cases.accepted Ha Hb) as (r & s' & q & issued & C1 & C2 & C3).
  assert (Hr : fst (open_hedge_position ("wallet_a", "wallet_b") "BTCUSDT"
                      Cases.accepted) = Py.Ok true) by (vm_compute; reflexivity).
  rewrite C1 in Hr. cbn [fst] in Hr. injection Hr as ->.
  exists s'. split; [exact C1 |]. rewrite C2.
  destruct C3 as [(_ & -> & _) | (C & _)]; [reflexivity | discriminate C].
Defined.

(** Three idle wallets and a free symbol: the round goes ahead. *)
Lemma parallel_round_witness :
  nonempty (get_available_pairs (self Cases.accepted))
  && nonempty (get_available_symbols (self Cases.accepted)) = true
  /\ round_counter (self (snd (execute_trading_round Cases.accepted))) = 1%nat
  /\ Py.keys (active_positions (self (snd (execute_trading_round Cases.accepted))))
     = ["BTCUSDT"].
Proof.
  assert (H : nonempty (get_available_pairs (self Cases.accepted))
              && nonempty (get_available_symbols (self Cases.accepted)) = true)
    by reflexivity.
  split; [exact H |].
  rewrite (parallel_round_never_skips Cases.accepted H).
  split; vm_compute; reflexivity.
Defined.
